(** * A shallow embedding of the Wasm module builder

    Sources embedded here:
    - [runtime/vm/datastream.h]: the LEB128 / SLEB128 reader and writer;
    - [runtime/vm/compiler/assembler/assembler_wasm.cc]: the type model, the
      instruction model, functions and the module builder, with their text
      ([Serialize]) and binary ([OutputBinary]) renderings. *)

From Stdlib Require Import ZArith Lia.
From stdpp Require Import base option list strings pretty relations.

Local Open Scope Z_scope.

(** A length or a position of a list, where the code computes with it as
    an integer. *)
Coercion Z.of_nat : nat >-> Z.

(** ** Outcomes of the modelled C++ code

    The C++ code stops the process through [FATAL], [UNREACHABLE],
    [UNIMPLEMENTED] and (in debug builds) a failing [ASSERT].  A model function
    returns [Ok] when the C++ function returns, [Abort] otherwise. *)

Inductive Failure : Type :=
  | FATAL (msg : string)
  | UNIMPLEMENTED
  | ASSERT_FAILED (cond : string)
  | UNDEFINED_BEHAVIOUR (what : string)
  | BAD_POINTER
  | OUT_OF_FUEL.

Inductive outcome (A : Type) : Type :=
  | Ok (a : A)
  | Abort (f : Failure).
Arguments Ok {A} a.
Arguments Abort {A} f.

#[global] Instance outcome_ret : MRet outcome := fun A a => Ok a.
#[global] Instance outcome_bind : MBind outcome := fun A B k m =>
  match m with
  | Ok a => k a
  | Abort f => Abort f
  end.

(** ** Fixed-width integers

    Values of the C++ integer types are integers of [Z] in the range of the
    type; [static_cast] writes the wrap-around of a conversion out. *)

Inductive IntType : Type := int32_t | int64_t | uint32_t | uint64_t.

(** [intptr_t] and [uintptr_t] on a 64-bit target; [int] is 32 bits wide. *)
Definition intptr_t : IntType := int64_t.
Definition uintptr_t : IntType := uint64_t.

Definition is_signed (T : IntType) : bool :=
  match T with int32_t | int64_t => true | uint32_t | uint64_t => false end.
Definition is_unsigned (T : IntType) : bool := negb (is_signed T).

(** [kBitsPerByte * sizeof(T)] *)
Definition bit_width (T : IntType) : Z :=
  match T with int32_t | uint32_t => 32 | int64_t | uint64_t => 64 end.

Definition make_unsigned (T : IntType) : IntType :=
  match T with int32_t | uint32_t => uint32_t | int64_t | uint64_t => uint64_t end.
Definition make_signed (T : IntType) : IntType :=
  match T with int32_t | uint32_t => int32_t | int64_t | uint64_t => int64_t end.

Definition in_range (T : IntType) (v : Z) : Prop :=
  if is_signed T then - 2 ^ (bit_width T - 1) <= v < 2 ^ (bit_width T - 1)
  else 0 <= v < 2 ^ bit_width T.

Definition static_cast (T : IntType) (v : Z) : Z :=
  if is_signed T
  then (v + 2 ^ (bit_width T - 1)) mod 2 ^ bit_width T - 2 ^ (bit_width T - 1)
  else v mod 2 ^ bit_width T.

(** [bit_cast] between the signed and the unsigned type of one width keeps
    the bits, which on [Z] is the same wrap-around. *)
Definition bit_cast (T : IntType) (v : Z) : Z := static_cast T v.

Definition static_cast_uint8_t (v : Z) : Z := v mod 256.

Module DataStream.

(** (S)LEB128 encodes 7 bits of data per byte. *)
Definition kDataBitsPerByte : Z := 7.
Definition kDataByteMask : Z := Z.shiftl 1 kDataBitsPerByte - 1.
Definition kMoreDataMask : Z := Z.shiftl 1 kDataBitsPerByte.
Definition kSignMask : Z := Z.shiftl 1 (kDataBitsPerByte - 1).

(** A [WriteStream] is modelled by the bytes written so far, that is the
    bytes of [*buffer_ .. current_).  [Resize] changes the capacity of the
    buffer only and keeps these bytes; its one failure is the allocator
    returning [NULL], which is not modelled. *)
Definition WriteStream : Type := list Z.

(** The constructor: nothing is written yet. *)
Definition WriteStream_new : WriteStream := [].

Definition bytes_written (st : WriteStream) : Z := Z.of_nat (length st).

(** [*current_++ = value] *)
Definition WriteByte (value : Z) (st : WriteStream) : WriteStream :=
  st ++ [value].

(** [WriteFixed<uint8_t>] *)
Definition WriteFixed_uint8_t (value : Z) (st : WriteStream) : WriteStream :=
  st ++ [static_cast_uint8_t value].

(** [memmove(current_, addr, len); current_ += len] *)
Definition WriteBytes (addr : list Z) (len : Z) (st : WriteStream)
  : WriteStream :=
  st ++ take (Z.to_nat len) addr.

Section Build.

(** [DEBUG] tells whether [ASSERT] is compiled in. *)
Variable DEBUG : bool.

(** Modelled from the spec: the [ASSERT] macro of [platform/assert.h] is not
    part of the sources at hand; a tripped assertion is fatal in debug
    builds, and the check is absent from release builds. *)
Definition ASSERT (cond : outcome bool) (text : string) : outcome unit :=
  if DEBUG
  then c ← cond; if (c : bool) then Ok tt else Abort (ASSERT_FAILED text)
  else Ok tt.

(** The [do { ... } while (!is_last_part)] loop of [WriteInternal].  A value
    of a type of [w] bits is consumed after at most [ceil (w / 7)] rounds,
    which is the fuel [WriteInternal] gives the loop. *)
Fixpoint WriteInternal_loop (T : IntType) (fuel : nat) (remainder : Z)
    (st : WriteStream) : outcome WriteStream :=
  match fuel with
  | O => Abort OUT_OF_FUEL
  | S fuel' =>
      let part := static_cast_uint8_t (Z.land remainder kDataByteMask) in
      let remainder := Z.shiftr remainder kDataBitsPerByte in
      let is_last_part :=
        if is_unsigned T
        then remainder =? 0
        else ((remainder =? 0) && (Z.land part kSignMask =? 0))
             || ((remainder =? Z.lnot 0) && negb (Z.land part kSignMask =? 0)) in
      let part := if negb is_last_part then Z.lor part kMoreDataMask else part in
      let st := WriteByte part st in
      if is_last_part then Ok st else WriteInternal_loop T fuel' remainder st
  end.

Definition WriteInternal_fuel (T : IntType) : nat :=
  Z.to_nat ((bit_width T + 6) / 7).

Definition WriteInternal (T : IntType) (value : Z) (st : WriteStream)
  : outcome WriteStream :=
  WriteInternal_loop T (WriteInternal_fuel T) value st.

(** [WriteUnsigned<T>]: the LEB128 encoding of [value]. *)
Definition WriteUnsigned (T : IntType) (value : Z) (st : WriteStream)
  : outcome WriteStream :=
  let value := static_cast T value in
   ASSERT (Ok (0 <=? value)) "value >= 0";;
   if is_unsigned T
   then WriteInternal T value st
   else WriteInternal (make_unsigned T) (bit_cast (make_unsigned T) value) st.

(** [Write<T>]: the SLEB128 encoding of [value]. *)
Definition Write (T : IntType) (value : Z) (st : WriteStream)
  : outcome WriteStream :=
  let value := static_cast T value in
  if is_signed T
  then WriteInternal T value st
  else WriteInternal (make_signed T) (bit_cast (make_signed T) value) st.

(** A [ReadStream]: the buffer [buffer_ .. end_) and the offset of
    [current_] from [buffer_].  [SetPosition] and [Advance] move the cursor
    without looking at the buffer, so the offset is an integer that can
    lie before the buffer or behind it. *)
Record ReadStream : Type := MkReadStream {
  buffer_ : list Z;
  current_ : Z;
}.

(** [x << s] for [x] of the type [Unsigned] and the [uint8_t] counter [s]
    of the loop of [ReadInternal], which nothing keeps below the width [w]
    of the type.  The code does not check the count; the shift
    instructions of the 64-bit targets (x86-64, arm64) take it modulo [w],
    and so does the model.  Below [w] this is the shift of C++. *)
Definition shift_left (Unsigned : IntType) (x s : Z) : Z :=
  static_cast Unsigned (Z.shiftl x (s mod bit_width Unsigned)).

(** The [do { ... } while ((b & kMoreDataMask) != 0)] loop of
    [ReadInternal], over the bytes from [c] on; it returns [c], [b], [r] and
    [s] as they are after the loop. *)
Fixpoint ReadInternal_loop (T : IntType) (pending : list Z) (c : Z)
    (r s : Z) : outcome (Z * Z * Z * Z) :=
  match pending with
  | [] =>
      (* [ASSERT(c < end_)], and a read past the end without it *)
      if DEBUG then Abort (ASSERT_FAILED "c < end_")
      else Abort (UNDEFINED_BEHAVIOUR "read past end_")
  | b :: pending' =>
      let r := Z.lor r (shift_left (make_unsigned T)
                          (Z.land b kDataByteMask) s) in
      let s := static_cast_uint8_t (s + kDataBitsPerByte) in
      if negb (Z.land b kMoreDataMask =? 0)
      then ReadInternal_loop T pending' (c + 1) r s
      else Ok (c + 1, b, r, s)
  end.

(** The sign extension of [ReadInternal]: [s] data bits have been read, [b]
    is the last byte. *)
Definition ReadInternal_sign_bits (T : IntType) (b s : Z) : Z :=
  let Unsigned := make_unsigned T in
  if is_signed T && negb (Z.land b kSignMask =? 0) && (s <? bit_width T)
  then (* Create a bitmask for the current data bits and invert it. *)
    static_cast Unsigned (Z.lnot (static_cast Unsigned (Z.shiftl 1 s) - 1))
  else 0.

(** The bytes of the buffer from the offset [c] on, for [c] in the buffer
    or behind it. *)
Definition bytes_from (rs : ReadStream) (c : Z) : list Z :=
  drop (Z.to_nat c) (buffer_ rs).

Definition ReadInternal (T : IntType) (rs : ReadStream)
  : outcome (Z * ReadStream) :=
  if current_ rs <? 0
  then (* [ASSERT(c < end_)] holds, and [*c] is not a byte of the buffer *)
    Abort (UNDEFINED_BEHAVIOUR "read before buffer_")
  else
    '(c, b, r, s) ← ReadInternal_loop T (bytes_from rs (current_ rs))
                       (current_ rs) 0 0;
    let sign_bits := ReadInternal_sign_bits T b s in
    Ok (static_cast T (Z.lor r sign_bits), MkReadStream (buffer_ rs) c).

(** [Read<T>]: reads an SLEB128 value. *)
Definition Read (T : IntType) (rs : ReadStream) : outcome (Z * ReadStream) :=
  if is_signed T
  then ReadInternal T rs
  else '(v, rs') ← ReadInternal (make_signed T) rs;
       Ok (bit_cast T v, rs').

(** [ReadUnsigned<T>]: reads an LEB128 value. *)
Definition ReadUnsigned (T : IntType) (rs : ReadStream)
  : outcome (Z * ReadStream) :=
  if is_unsigned T
  then ReadInternal T rs
  else '(v, rs') ← ReadInternal (make_unsigned T) rs;
       Ok (bit_cast T v, rs').

(** *** The cursor of a [ReadStream] *)

(** [end_], as an offset from [buffer_]. *)
Definition end_ (rs : ReadStream) : nat := length (buffer_ rs).

(** [*c] for the pointer [c] at the offset [c] from [buffer_]: a byte of
    the buffer; a read of what lies outside the buffer is undefined. *)
Definition read_at (rs : ReadStream) (c : Z) : outcome Z :=
  if c <? 0
  then Abort (UNDEFINED_BEHAVIOUR "read before buffer_")
  else match buffer_ rs !! Z.to_nat c with
       | Some b => Ok b
       | None => Abort (UNDEFINED_BEHAVIOUR "read past end_")
       end.


(** [ReadBytes(addr, len)]: the result holds the bytes copied to [addr]. *)
Definition ReadBytes (len : Z) (rs : ReadStream)
  : outcome (list Z * ReadStream) :=
  let pending := Z.of_nat (end_ rs) - current_ rs in
  ASSERT (Ok (len <=? pending)) "(end_ - current_) >= len";;
  if len =? 0
  then Ok ([], rs)
  else if len <? 0
  then (* the length of [memmove] is a [size_t] *)
    Abort (UNDEFINED_BEHAVIOUR "memmove of a negative length")
  else if current_ rs <? 0
  then Abort (UNDEFINED_BEHAVIOUR "read before buffer_")
  else if pending <? len
  then Abort (UNDEFINED_BEHAVIOUR "read past end_")
  else Ok (take (Z.to_nat len) (bytes_from rs (current_ rs)),
           MkReadStream (buffer_ rs) (current_ rs + len)).

Definition Position (rs : ReadStream) : Z := current_ rs.

(** [current_ = buffer_ + value], whatever [value] is when the assertion
    is not compiled in or holds. *)
Definition SetPosition (value : Z) (rs : ReadStream) : outcome ReadStream :=
  ASSERT (Ok (value <? Z.of_nat (end_ rs))) "(end_ - buffer_) > value";;
  Ok (MkReadStream (buffer_ rs) value).

Definition Advance (value : Z) (rs : ReadStream) : outcome ReadStream :=
  ASSERT (Ok (value <=? Z.of_nat (end_ rs) - current_ rs))
    "(end_ - current_) >= value";;
  Ok (MkReadStream (buffer_ rs) (current_ rs + value)).

Definition PendingBytes (rs : ReadStream) : outcome Z :=
  ASSERT (Ok (current_ rs <=? Z.of_nat (end_ rs))) "end_ >= current_";;
  Ok (Z.of_nat (end_ rs) - current_ rs).

(** *** The unrolled readers

    [UNROLLED_INIT()] declares [c], starting at [current_], and [r],
    starting at [0]; the two macros below take them as arguments. *)

(** [UNROLLED_BODY(bit_start)], and [rest] for what follows the macro when
    the loop does not stop here. *)
Definition UNROLLED_BODY (T : IntType) (bit_start : Z) (rs : ReadStream)
    (rest : Z -> Z -> outcome (Z * ReadStream)) (c : Z) (r : Z)
  : outcome (Z * ReadStream) :=
  let Unsigned := make_unsigned T in
  ASSERT (Ok (c <? Z.of_nat (end_ rs))) "c < end_";;
  b ← read_at rs c;
  let c := c + 1 in
  let r := Z.lor r (static_cast Unsigned
                      (Z.shiftl (Z.land b kDataByteMask) bit_start)) in
  if Z.land b kMoreDataMask =? 0
  then
    let sign_bits :=
      if is_signed T && negb (Z.land b kSignMask =? 0)
      then static_cast Unsigned
             (Z.lnot (static_cast Unsigned (Z.shiftl 1 (bit_start + 7)) - 1))
      else 0 in
    Ok (static_cast T (Z.lor r sign_bits), MkReadStream (buffer_ rs) c)
  else rest c r.

(** [UNROLLED_END(bit_start)]; [ASSERT_EQUAL] is an [ASSERT] of the
    equality. *)
Definition UNROLLED_END (T : IntType) (bit_start : Z) (rs : ReadStream)
    (c : Z) (r : Z) : outcome (Z * ReadStream) :=
  let Unsigned := make_unsigned T in
  ASSERT (Ok (c <? Z.of_nat (end_ rs))) "c < end_";;
  b ← read_at rs c;
  let c := c + 1 in
  let r := Z.lor r (static_cast Unsigned
                      (Z.shiftl (Z.land b kDataByteMask) bit_start)) in
  ASSERT (Ok (Z.land b kMoreDataMask =? 0)) "(b & kMoreDataMask) == 0";;
  Ok (static_cast T r, MkReadStream (buffer_ rs) c).

Definition Read32 (T : IntType) (rs : ReadStream) : outcome (Z * ReadStream) :=
  UNROLLED_BODY T 0 rs
    (UNROLLED_BODY T 7 rs
       (UNROLLED_BODY T 14 rs
          (UNROLLED_BODY T 21 rs
             (UNROLLED_END T 28 rs))))
    (current_ rs) 0.

Definition Read64 (T : IntType) (rs : ReadStream) : outcome (Z * ReadStream) :=
  UNROLLED_BODY T 0 rs
    (UNROLLED_BODY T 7 rs
       (UNROLLED_BODY T 14 rs
          (UNROLLED_BODY T 21 rs
             (UNROLLED_BODY T 28 rs
                (UNROLLED_BODY T 35 rs
                   (UNROLLED_BODY T 42 rs
                      (UNROLLED_BODY T 49 rs
                         (UNROLLED_BODY T 56 rs
                            (UNROLLED_END T 63 rs)))))))))
    (current_ rs) 0.

(** *** Raw values: [Raw<4, T>] and [Raw<8, T>], for a type [T] of four and
    of eight bytes *)

Definition Raw4_Read (T : IntType) (rs : ReadStream)
  : outcome (Z * ReadStream) :=
  '(v, rs') ← Read32 int32_t rs; Ok (bit_cast T v, rs').

Definition Raw8_Read (T : IntType) (rs : ReadStream)
  : outcome (Z * ReadStream) :=
  '(v, rs') ← Read64 int64_t rs; Ok (bit_cast T v, rs').

Definition Raw4_Write (T : IntType) (value : Z) (st : WriteStream)
  : outcome WriteStream :=
  Write int32_t (bit_cast int32_t (static_cast T value)) st.

Definition Raw8_Write (T : IntType) (value : Z) (st : WriteStream)
  : outcome WriteStream :=
  Write int64_t (bit_cast int64_t (static_cast T value)) st.

(** *** Words, as two values of 32 bits

    [uword] is [uintptr_t], so a word has [sizeof(uword) / sizeof(uint32_t)]
    = 2 parts on the 64-bit target. *)

Definition kNumBitsPer32 : Z := 32.
Definition kNum32PerWord : nat := 2.

Section Words.

(** [Utils::NBitMask], a function of [platform/utils.h]. *)
Variable NBitMask : Z -> Z.

(** The [for] loop of [WriteWordWith32BitWrites], from [j] on. *)
Fixpoint WriteWordWith32BitWrites_loop (n : nat) (j : Z) (mask value : Z)
    (st : WriteStream) : outcome WriteStream :=
  match n with
  | O => Ok st
  | S n' =>
      let shifted_value :=
        static_cast uint32_t (Z.shiftr value (j * kNumBitsPer32)) in
      st ← Raw4_Write uint32_t (Z.land shifted_value mask) st;
      WriteWordWith32BitWrites_loop n' (j + 1) mask value st
  end.

Definition WriteWordWith32BitWrites (value : Z) (st : WriteStream)
  : outcome WriteStream :=
  let value := static_cast uintptr_t value in
  let mask := static_cast uint32_t (NBitMask kNumBitsPer32) in
  WriteWordWith32BitWrites_loop kNum32PerWord 0 mask value st.

End Words.

(** The [for] loop of [ReadWordWith32BitReads], from [j] on. *)
Fixpoint ReadWordWith32BitReads_loop (n : nat) (j : Z) (value : Z)
    (rs : ReadStream) : outcome (Z * ReadStream) :=
  match n with
  | O => Ok (value, rs)
  | S n' =>
      '(partial_value, rs) ← Raw4_Read uint32_t rs;
      let value :=
        Z.lor value
          (static_cast uintptr_t
             (Z.shiftl (static_cast uintptr_t partial_value)
                (j * kNumBitsPer32))) in
      ReadWordWith32BitReads_loop n' (j + 1) value rs
  end.

Definition ReadWordWith32BitReads (rs : ReadStream)
  : outcome (Z * ReadStream) :=
  ReadWordWith32BitReads_loop kNum32PerWord 0 0 rs.

End Build.

End DataStream.

(** ** Object stores

    Objects live in an arena and are referred to by address.  The address
    [nullptr] is [0]; the object at address [S i] is the [i]-th object that
    was allocated.  A pointer of the C++ code has a static type; in the model
    a dereference that finds no object, or an object of another class, aborts
    with [BAD_POINTER]. *)

Definition ptr : Type := nat.
Definition nullptr : ptr := O.

Definition Store (A : Type) : Type := list A.

Definition deref {A} (σ : Store A) (p : ptr) : option A :=
  match p with
  | O => None
  | S i => σ !! i
  end.

(** [new (zone) A(...)] *)
Definition alloc {A} (σ : Store A) (a : A) : ptr * Store A :=
  (S (length σ), σ ++ [a]).

(** A write through a pointer to a live object. *)
Definition store {A} (σ : Store A) (p : ptr) (a : A) : Store A :=
  match p with
  | O => σ
  | S i => <[i:=a]> σ
  end.

(** ** S-expressions ([SExpression] and its subclasses) *)

#[local] Set Warnings "-register-all".

Inductive SExpression : Type :=
  | SExpSymbol (value : string)
  | SExpInteger (value : Z)
  | SExpList (contents : list SExpression).

(** [sexp->Add(x)] on the contents of a list under construction. *)
Definition Add {A} (contents : list A) (x : A) : list A := contents ++ [x].

Module Wasm.
Import DataStream.

(** *** The data model *)

Inductive NumType_Kind : Type := kI32 | kI64 | kF32 | kF64 | kV128.

Inductive HeapType_Kind : Type := kFunc | kExtern | kTypeidx | kAny | kEq | kI31.

#[global] Instance HeapType_Kind_eq_dec : EqDecision HeapType_Kind.
Proof. solve_decision. Defined.

(** Modelled from the spec: the classes are declared in [assembler_wasm.h],
    which is not part of the sources at hand; the fields are the members
    the member functions of [assembler_wasm.cc] read and write, and the
    constructors take the arguments they are called with there. *)
Record HeapType : Type := MkHeapType {
  HeapType_kind_ : HeapType_Kind;
  def_type_ : ptr;                       (* DefType*, for kTypeidx *)
}.

Inductive ValueType : Type :=
  | NumType (kind_ : NumType_Kind)
  | RefType (nullable_ : bool) (heap_type_ : ptr)
  | Rtt (depth_ : Z) (heap_type_ : ptr).

Inductive PackedType : Type := kNoType | kI8 | kI16.

Record FieldType : Type := MkFieldType {
  value_type_ : ptr;                     (* ValueType*, for kNoType *)
  packed_type_ : PackedType;
  mut_ : bool;
}.

Record Field : Type := MkField {
  Field_struct_type_ : ptr;
  Field_field_type_ : ptr;
  Field_index_ : Z;
}.

Inductive DefType : Type :=
  | FuncType (index_ : Z) (param_types_ : list ptr) (result_type_ : ptr)
  | StructType (index_ : Z) (fields_ : list ptr)
  | ArrayType (index_ : Z) (field_type_ : ptr).

Definition DefType_index (d : DefType) : Z :=
  match d with
  | FuncType i _ _ | StructType i _ | ArrayType i _ => i
  end.

Inductive Local_Kind : Type := kLocal | kParam.

#[global] Instance Local_Kind_eq_dec : EqDecision Local_Kind.
Proof. solve_decision. Defined.

Record Local : Type := MkLocal {
  Local_function_ : ptr;
  Local_kind_ : Local_Kind;
  Local_type_ : ptr;
  Local_name_ : string;
  Local_index_ : Z;
}.

Inductive Instruction : Type :=
  | LocalGet (local_ : ptr)
  | LocalSet (local_ : ptr)
  | Int32Add
  | Constant (value_ : Z)
  | If (then_ otherwise_ : ptr).

Record InstructionList : Type := MkInstructionList {
  instructions_ : list ptr;
}.

Record Function : Type := MkFunction {
  Function_name_ : string;
  Function_index_ : Z;
  Function_type_ : ptr;
  locals_ : list ptr;
  body_ : ptr;
}.

Inductive Object : Type :=
  | OHeapType (o : HeapType)
  | OValueType (o : ValueType)
  | OFieldType (o : FieldType)
  | OField (o : Field)
  | ODefType (o : DefType)
  | OLocal (o : Local)
  | OInstruction (o : Instruction)
  | OInstructionList (o : InstructionList)
  | OFunction (o : Function).

(** The arena that a [Zone*] points to. *)
Definition Zone : Type := Store Object.

(** The members [i32_] ... [i31ref_] are objects inside the builder; the
    model gives them addresses in the arena and keeps these addresses. *)
Record WasmModuleBuilder : Type := MkWasmModuleBuilder {
  i32_ : ptr; i64_ : ptr; f32_ : ptr; f64_ : ptr;
  func_ : ptr; ext_ : ptr; any_ : ptr; eq_ : ptr; i31_ : ptr;
  funcref_ : ptr; externref_ : ptr; anyref_ : ptr; eqref_ : ptr; i31ref_ : ptr;
  zone_ : Zone;
  types_ : list ptr;
  functions_ : list ptr;
}.

Definition get_HeapType (z : Zone) (p : ptr) : outcome HeapType :=
  match deref z p with Some (OHeapType o) => Ok o | _ => Abort BAD_POINTER end.
Definition get_ValueType (z : Zone) (p : ptr) : outcome ValueType :=
  match deref z p with Some (OValueType o) => Ok o | _ => Abort BAD_POINTER end.
Definition get_FieldType (z : Zone) (p : ptr) : outcome FieldType :=
  match deref z p with Some (OFieldType o) => Ok o | _ => Abort BAD_POINTER end.
Definition get_Field (z : Zone) (p : ptr) : outcome Field :=
  match deref z p with Some (OField o) => Ok o | _ => Abort BAD_POINTER end.
Definition get_DefType (z : Zone) (p : ptr) : outcome DefType :=
  match deref z p with Some (ODefType o) => Ok o | _ => Abort BAD_POINTER end.
Definition get_Local (z : Zone) (p : ptr) : outcome Local :=
  match deref z p with Some (OLocal o) => Ok o | _ => Abort BAD_POINTER end.
Definition get_Instruction (z : Zone) (p : ptr) : outcome Instruction :=
  match deref z p with Some (OInstruction o) => Ok o | _ => Abort BAD_POINTER end.
Definition get_InstructionList (z : Zone) (p : ptr) : outcome InstructionList :=
  match deref z p with Some (OInstructionList o) => Ok o | _ => Abort BAD_POINTER end.
Definition get_Function (z : Zone) (p : ptr) : outcome Function :=
  match deref z p with Some (OFunction o) => Ok o | _ => Abort BAD_POINTER end.

(** *** Text serialisation of the types

    The [default: UNREACHABLE()] arms of the switches have no counterpart:
    the enumerations of the model have no other value. *)

(** A range-[for] loop whose body may add to [sexp]. *)
Fixpoint for_sexp {A} (l : list A)
    (body : A -> list SExpression -> outcome (list SExpression))
    (sexp : list SExpression) : outcome (list SExpression) :=
  match l with
  | [] => Ok sexp
  | x :: l' => sexp ← body x sexp; for_sexp l' body sexp
  end.

Section Serialize.
Variable zone : Zone.

Definition NumType_Serialize (kind_ : NumType_Kind) : SExpression :=
  match kind_ with
  | kI32 => SExpSymbol "i32"
  | kI64 => SExpSymbol "i64"
  | kF32 => SExpSymbol "f32"
  | kF64 => SExpSymbol "f64"
  | kV128 => SExpSymbol "v128"
  end.

Definition HeapType_Serialize (this : ptr) : outcome SExpression :=
  h ← get_HeapType zone this;
  match HeapType_kind_ h with
  | kFunc => Ok (SExpSymbol "func")
  | kExtern => Ok (SExpSymbol "extern")
  | kTypeidx =>
      d ← get_DefType zone (def_type_ h);
      Ok (SExpInteger (DefType_index d))
  | kAny => Ok (SExpSymbol "any")
  | kEq => Ok (SExpSymbol "eq")
  | kI31 => Ok (SExpSymbol "i31")
  end.

Definition RefType_Serialize (nullable_ : bool) (heap_type_ : ptr)
  : outcome SExpression :=
  (* [ASSERT(heap_type_ != nullptr)]: a null [heap_type_] stops at the
     dereference below in every build. *)
  h ← get_HeapType zone heap_type_;
  let general :=
    let sexp : list SExpression := [] in
    let sexp := Add sexp (SExpSymbol "ref") in
    let sexp := if nullable_ then Add sexp (SExpSymbol "null") else sexp in
    s ← HeapType_Serialize heap_type_;
    let sexp := Add sexp s in
    Ok (SExpList sexp) in
  (* First, try to use the shorthand notations. *)
  if negb nullable_ && bool_decide (HeapType_kind_ h = kI31)
  then Ok (SExpSymbol "i31ref")
  else if nullable_
  then match HeapType_kind_ h with
       | kFunc => Ok (SExpSymbol "funcref")
       | kExtern => Ok (SExpSymbol "externref")
       | kAny => Ok (SExpSymbol "anyref")
       | kEq => Ok (SExpSymbol "eqref")
       | _ => general
       end
  else general.

Definition Rtt_Serialize (depth_ : Z) (heap_type_ : ptr) : outcome SExpression :=
  let sexp : list SExpression := [] in
  let sexp := Add sexp (SExpSymbol "rtt") in
  let sexp := Add sexp (SExpInteger depth_) in
  s ← HeapType_Serialize heap_type_;
  let sexp := Add sexp s in
  Ok (SExpList sexp).

(** The virtual call [value_type->Serialize(zone)]. *)
Definition ValueType_Serialize (this : ptr) : outcome SExpression :=
  v ← get_ValueType zone this;
  match v with
  | NumType kind_ => Ok (NumType_Serialize kind_)
  | RefType nullable_ heap_type_ => RefType_Serialize nullable_ heap_type_
  | Rtt depth_ heap_type_ => Rtt_Serialize depth_ heap_type_
  end.

Definition FieldType_Serialize (this : ptr) : outcome SExpression :=
  f ← get_FieldType zone this;
  sexp ← match packed_type_ f with
         | kNoType => ValueType_Serialize (value_type_ f)
         | kI8 => Ok (SExpSymbol "i8")
         | kI16 => Ok (SExpSymbol "i16")
         end;
  (* Add mutable atom if present. *)
  if mut_ f
  then
    let sexp_list : list SExpression := [] in
    let sexp_list := Add sexp_list (SExpSymbol "mut") in
    let sexp_list := Add sexp_list sexp in
    Ok (SExpList sexp_list)
  else Ok sexp.

Definition Field_Serialize (this : ptr) : outcome SExpression :=
  f ← get_Field zone this;
  FieldType_Serialize (Field_field_type_ f).

Definition FuncType_Serialize (param_types_ : list ptr) (result_type_ : ptr)
  : outcome SExpression :=
  let sexp : list SExpression := [] in
  let sexp := Add sexp (SExpSymbol "func") in
  (* Add "param" atoms. *)
  sexp ← for_sexp param_types_ (fun param_type sexp =>
      let atom : list SExpression := [] in
      let atom := Add atom (SExpSymbol "param") in
      s ← ValueType_Serialize param_type;
      let atom := Add atom s in
      Ok (Add sexp (SExpList atom))) sexp;
  (* Add "result" atom. *)
  let atom : list SExpression := [] in
  let atom := Add atom (SExpSymbol "result") in
  s ← ValueType_Serialize result_type_;
  let atom := Add atom s in
  let sexp := Add sexp (SExpList atom) in
  Ok (SExpList sexp).

Definition StructType_Serialize (fields_ : list ptr) : outcome SExpression :=
  let sexp : list SExpression := [] in
  let sexp := Add sexp (SExpSymbol "struct") in
  sexp ← for_sexp fields_ (fun field sexp =>
      s ← Field_Serialize field;
      Ok (Add sexp s)) sexp;
  Ok (SExpList sexp).

Definition ArrayType_Serialize (field_type_ : ptr) : outcome SExpression :=
  let sexp : list SExpression := [] in
  let sexp := Add sexp (SExpSymbol "array") in
  s ← FieldType_Serialize field_type_;
  let sexp := Add sexp s in
  Ok (SExpList sexp).

(** The virtual call [def_type->Serialize(zone)]. *)
Definition DefType_Serialize (this : ptr) : outcome SExpression :=
  d ← get_DefType zone this;
  match d with
  | FuncType _ param_types_ result_type_ =>
      FuncType_Serialize param_types_ result_type_
  | StructType _ fields_ => StructType_Serialize fields_
  | ArrayType _ field_type_ => ArrayType_Serialize field_type_
  end.

(** *** Text serialisation of instructions, locals, functions, the module *)

(** [OS::SCreate(zone, "local.get $%s", local_->name())] *)
Definition LocalGet_Serialize (local_ : ptr) : outcome SExpression :=
  l ← get_Local zone local_;
  Ok (SExpSymbol ("local.get $" +:+ Local_name_ l)).

Definition LocalSet_Serialize (local_ : ptr) : outcome SExpression :=
  l ← get_Local zone local_;
  Ok (SExpSymbol ("local.set $" +:+ Local_name_ l)).

Definition Int32Add_Serialize : outcome SExpression :=
  Ok (SExpSymbol "i32.add").

(** [OS::SCreate(zone, "i32.const %" Pu32, value_)] *)
Definition Constant_Serialize (value_ : Z) : outcome SExpression :=
  Ok (SExpSymbol ("i32.const " +:+ pretty (Z.to_N value_))).

(** [InstructionList::Serialize], given the virtual call
    [instr->Serialize(zone)]. *)
Definition InstructionList_Serialize_with
    (Instruction_Serialize : ptr -> outcome SExpression) (this : ptr)
  : outcome SExpression :=
  il ← get_InstructionList zone this;
  let sexp : list SExpression := [] in
  sexp ← for_sexp (instructions_ il) (fun instr sexp =>
      s ← Instruction_Serialize instr;
      Ok (Add sexp s)) sexp;
  Ok (SExpList sexp).

(** [If::Serialize], given [InstructionList::Serialize]. *)
Definition If_Serialize_with
    (InstructionList_Serialize : ptr -> outcome SExpression)
    (then_ otherwise_ : ptr) : outcome SExpression :=
  (* Serialize then branch. *)
  let sexp_then : list SExpression := [] in
  let sexp_then := Add sexp_then (SExpSymbol "then") in
  s ← InstructionList_Serialize then_;
  let sexp_then := Add sexp_then s in
  (* Serialize otherwise branch. *)
  let sexp_otherwise : list SExpression := [] in
  let sexp_then := Add sexp_then (SExpSymbol "else") in
  s ← InstructionList_Serialize otherwise_;
  let sexp_then := Add sexp_then s in
  (* Produce final SExpression. *)
  let sexp : list SExpression := [] in
  let sexp := Add sexp (SExpSymbol "if") in
  let sexp := Add sexp (SExpList sexp_then) in
  let sexp := Add sexp (SExpList sexp_otherwise) in
  Ok (SExpList sexp).

(** The virtual call [instr->Serialize(zone)].  An [If] holds instruction
    lists, which hold instructions: [fuel] bounds the depth of nesting. *)
Fixpoint Instruction_Serialize (fuel : nat) (this : ptr)
  : outcome SExpression :=
  match fuel with
  | O => Abort OUT_OF_FUEL
  | S fuel' =>
      i ← get_Instruction zone this;
      match i with
      | LocalGet local_ => LocalGet_Serialize local_
      | LocalSet local_ => LocalSet_Serialize local_
      | Int32Add => Int32Add_Serialize
      | Constant value_ => Constant_Serialize value_
      | If then_ otherwise_ =>
          If_Serialize_with
            (InstructionList_Serialize_with (Instruction_Serialize fuel'))
            then_ otherwise_
      end
  end.

Definition InstructionList_Serialize (fuel : nat) (this : ptr)
  : outcome SExpression :=
  InstructionList_Serialize_with (Instruction_Serialize fuel) this.

Definition If_Serialize (fuel : nat) (then_ otherwise_ : ptr)
  : outcome SExpression :=
  If_Serialize_with (InstructionList_Serialize fuel) then_ otherwise_.

Definition Local_Serialize (this : ptr) : outcome SExpression :=
  l ← get_Local zone this;
  let sexp : list SExpression := [] in
  let sexp := match Local_kind_ l with
              | kLocal => Add sexp (SExpSymbol "local")
              | kParam => Add sexp (SExpSymbol "param")
              end in
  let sexp := if bool_decide (Local_name_ l ≠ "")
              then Add sexp (SExpSymbol ("$" +:+ Local_name_ l))
              else sexp in
  s ← ValueType_Serialize (Local_type_ l);
  let sexp := Add sexp s in
  Ok (SExpList sexp).

Definition Function_Serialize (fuel : nat) (this : ptr)
  : outcome SExpression :=
  f ← get_Function zone this;
  let sexp : list SExpression := [] in
  let sexp := Add sexp (SExpSymbol "func") in
  let sexp := if bool_decide (Function_name_ f ≠ "")
              then Add sexp (SExpSymbol ("$" +:+ Function_name_ f))
              else sexp in
  (* Serialize type. *)
  let sexp_type : list SExpression := [] in
  let sexp_type := Add sexp_type (SExpSymbol "type") in
  type_ ← get_DefType zone (Function_type_ f);
  let sexp_type := Add sexp_type (SExpInteger (DefType_index type_)) in
  let sexp := Add sexp (SExpList sexp_type) in
  (* Serialize locals. *)
  sexp ← for_sexp (locals_ f) (fun it sexp =>
      l ← get_Local zone it;
      if bool_decide (Local_kind_ l = kLocal)
      then s ← Local_Serialize it; Ok (Add sexp s)
      else Ok sexp) sexp;
  (* Serialize the body. *)
  if bool_decide (body_ f ≠ nullptr)
  then s ← InstructionList_Serialize fuel (body_ f); Ok (SExpList (Add sexp s))
  else Ok (SExpList (Add sexp (SExpSymbol "<missing body>"))).

End Serialize.

Definition WasmModuleBuilder_Serialize (fuel : nat) (this : WasmModuleBuilder)
  : outcome SExpression :=
  let zone := zone_ this in
  let sexp : list SExpression := [] in
  let sexp := Add sexp (SExpSymbol "module") in
  (* Types section. *)
  sexp ← for_sexp (types_ this) (fun def_type sexp =>
      let sexp_type : list SExpression := [] in
      let sexp_type := Add sexp_type (SExpSymbol "type") in
      s ← DefType_Serialize zone def_type;
      let sexp_type := Add sexp_type s in
      Ok (Add sexp (SExpList sexp_type))) sexp;
  (* Functions section. *)
  sexp ← for_sexp (functions_ this) (fun fct sexp =>
      s ← Function_Serialize zone fuel fct;
      Ok (Add sexp s)) sexp;
  Ok (SExpList sexp).

(** *** The stream under a [WriteStream*]

    The streams live in a store of their own: the stream the caller passes
    in, and above it the [new_stream_] members of the
    [PushBytecountFrontScope] objects on the C++ stack.  A computation
    threads this store; when it aborts, the store is the one at the abort. *)

Definition Streams : Type := Store WriteStream.

Definition M (A : Type) : Type := Streams -> outcome A * Streams.

#[global] Instance M_ret : MRet M := fun A a σ => (Ok a, σ).
#[global] Instance M_bind : MBind M := fun A B k m σ =>
  match m σ with
  | (Ok a, σ') => k a σ'
  | (Abort f, σ') => (Abort f, σ')
  end.

Definition abort {A} (f : Failure) : M A := fun σ => (Abort f, σ).

Definition lift {A} (o : outcome A) : M A := fun σ => (o, σ).

(** [stream->write(...)] for a write of the [DataStream] module. *)
Definition on_stream (stream : ptr)
    (write : WriteStream -> outcome WriteStream) : M unit := fun σ =>
  match deref σ stream with
  | None => (Abort BAD_POINTER, σ)
  | Some st =>
      match write st with
      | Ok st' => (Ok tt, store σ stream st')
      | Abort f => (Abort f, σ)
      end
  end.

(** [stream->buffer()]: the bytes written to a stream. *)
Definition stream_buffer (stream : ptr) : M WriteStream := fun σ =>
  match deref σ stream with
  | Some st => (Ok st, σ)
  | None => (Abort BAD_POINTER, σ)
  end.

(** A stream that is a member of an object on the C++ stack goes away with
    that object, and so does what was put on the stack after it. *)
Definition stream_leaves_stack (stream : ptr) : M unit := fun σ =>
  (Ok tt, take (pred stream) σ).

(** A range-[for] loop whose body writes to the streams. *)
Fixpoint for_each {A} (l : list A) (body : A -> M unit) : M unit :=
  match l with
  | [] => mret tt
  | x :: l' => body x;; for_each l' body
  end.

Section OutputBinary.
Variable DEBUG : bool.
Variable zone : Zone.

Definition WRITE_BYTE (stream : ptr) (m : Z) : M unit :=
  on_stream stream (fun st => Ok (WriteFixed_uint8_t m st)).
Definition WRITE_UNSIGNED (T : IntType) (stream : ptr) (m : Z) : M unit :=
  on_stream stream (WriteUnsigned DEBUG T m).
Definition WRITE_SIGNED (T : IntType) (stream : ptr) (m : Z) : M unit :=
  on_stream stream (Write T m).

(** [WasmTrace] prints when [FLAG_trace_wasm_compilation] is set and has no
    other effect. *)
Definition WasmTrace (format : string) : M unit := mret tt.

(** [PushBytecountFrontScope]: [old_stream_location_] is the address of the
    variable [stream] of the function that opens the scope, so the
    constructor and the destructor return the value they leave in that
    variable; [replacement_buffer_] is the buffer of [new_stream_]. *)
Record PushBytecountFrontScope : Type := MkPushBytecountFrontScope {
  old_stream_ : ptr;
  new_stream_ : ptr;
}.

Definition PushBytecountFrontScope_ctor (current_stream : ptr)
  : M (PushBytecountFrontScope * ptr) := fun σ =>
  match deref σ current_stream with
  | None => (Abort BAD_POINTER, σ)           (* [old_stream_->alloc()] *)
  | Some _ =>
      let '(new_stream, σ') := alloc σ WriteStream_new in
      (Ok (MkPushBytecountFrontScope current_stream new_stream, new_stream), σ')
  end.

Definition PushBytecountFrontScope_dtor (this : PushBytecountFrontScope)
  : M ptr :=
  replacement_buffer_ ← stream_buffer (new_stream_ this);
  let bytes_written := bytes_written replacement_buffer_ in
  WasmTrace "Copying %ld bytes to parent WriteStream.";;
  on_stream (old_stream_ this) (WriteUnsigned DEBUG intptr_t bytes_written);;
  on_stream (old_stream_ this)
    (fun st => Ok (WriteBytes replacement_buffer_ bytes_written st));;
  (* [new_stream_] goes out of scope with the object *)
  stream_leaves_stack (new_stream_ this);;
  mret (old_stream_ this).

(** [{ WRITE_BYTECOUNT(); rest }]: the scope object is constructed, the rest
    of the enclosing block runs with the variable [stream] as the constructor
    left it, and the destructor runs at the end of the block.  The result is
    the value of [stream] after the block. *)
Definition WRITE_BYTECOUNT (stream : ptr) (rest : ptr -> M unit) : M ptr :=
  '(push_bytecount_front_scope, stream) ← PushBytecountFrontScope_ctor stream;
  rest stream;;
  PushBytecountFrontScope_dtor push_bytecount_front_scope.

(** *** Binary serialisation of the types *)

Definition NumType_OutputBinary (kind_ : NumType_Kind) (stream : ptr) : M unit :=
  match kind_ with
  | kI32 => WRITE_BYTE stream 0x7F
  | kI64 => WRITE_BYTE stream 0x7E
  | kF32 => WRITE_BYTE stream 0x7D
  | kF64 => WRITE_BYTE stream 0x7C
  | kV128 => WRITE_BYTE stream 0x7B
  end.

(** The tags are literals of type [int]; [index()] is taken at the type
    [int] of the constructors' [index] argument. *)
Definition HeapType_OutputBinary (this : ptr) (stream : ptr) : M unit :=
  h ← lift (get_HeapType zone this);
  match HeapType_kind_ h with
  | kFunc => WRITE_SIGNED int32_t stream (-0x10)
  | kExtern => WRITE_SIGNED int32_t stream (-0x11)
  | kTypeidx =>
      d ← lift (get_DefType zone (def_type_ h));
      WRITE_SIGNED int32_t stream (DefType_index d)
  | kAny =>
      (abort (FATAL "any/anyref not implemented by V8") : M unit);;
      WRITE_SIGNED int32_t stream (-0x12)
  | kEq => WRITE_SIGNED int32_t stream (-0x13)
  | kI31 => WRITE_SIGNED int32_t stream (-0x16)
  end.

Definition RefType_OutputBinary (nullable_ : bool) (heap_type_ : ptr)
    (stream : ptr) : M unit :=
  h ← lift (get_HeapType zone heap_type_);
  let general :=
    (if nullable_
     then WRITE_SIGNED int32_t stream (-0x14)
     else WRITE_SIGNED int32_t stream (-0x15));;
    HeapType_OutputBinary heap_type_ stream in
  (* First, try to use the shorthand notations. *)
  if negb nullable_ && bool_decide (HeapType_kind_ h = kI31)
  then WRITE_SIGNED int32_t stream (-0x16)
  else if nullable_
  then match HeapType_kind_ h with
       | kFunc | kExtern | kAny | kEq => HeapType_OutputBinary heap_type_ stream
       | _ => general
       end
  else general.

Definition Rtt_OutputBinary (depth_ : Z) (heap_type_ : ptr) (stream : ptr)
  : M unit :=
  WRITE_SIGNED int32_t stream (-0x17);;
  WRITE_UNSIGNED uint32_t stream depth_;;
  HeapType_OutputBinary heap_type_ stream.

Definition ValueType_OutputBinary (this : ptr) (stream : ptr) : M unit :=
  v ← lift (get_ValueType zone this);
  match v with
  | NumType kind_ => NumType_OutputBinary kind_ stream
  | RefType nullable_ heap_type_ =>
      RefType_OutputBinary nullable_ heap_type_ stream
  | Rtt depth_ heap_type_ => Rtt_OutputBinary depth_ heap_type_ stream
  end.

Definition FieldType_OutputBinary (this : ptr) (stream : ptr) : M unit :=
  f ← lift (get_FieldType zone this);
  match packed_type_ f with
  | kNoType => ValueType_OutputBinary (value_type_ f) stream
  | kI8 => WRITE_BYTE stream 0x7A
  | kI16 => WRITE_BYTE stream 0x79
  end;;
  (* Add mutable atom if present. *)
  if mut_ f then WRITE_BYTE stream 0x01 else WRITE_BYTE stream 0x00.

Definition Field_OutputBinary (this : ptr) (stream : ptr) : M unit :=
  f ← lift (get_Field zone this);
  FieldType_OutputBinary (Field_field_type_ f) stream.

Definition FuncType_OutputBinary (param_types_ : list ptr)
    (result_type_ : ptr) (stream : ptr) : M unit :=
  WRITE_BYTE stream 0x60;;
  WRITE_UNSIGNED intptr_t stream (Z.of_nat (length param_types_));;
  for_each param_types_ (fun type => ValueType_OutputBinary type stream);;
  (* We do not use multiple function return values in our implementation. *)
  WRITE_BYTE stream 1;;
  ValueType_OutputBinary result_type_ stream.

Definition StructType_OutputBinary (fields_ : list ptr) (stream : ptr)
  : M unit :=
  WRITE_BYTE stream 0x5F;;
  WRITE_UNSIGNED intptr_t stream (Z.of_nat (length fields_));;
  for_each fields_ (fun field => Field_OutputBinary field stream).

Definition ArrayType_OutputBinary (field_type_ : ptr) (stream : ptr)
  : M unit :=
  WRITE_BYTE stream 0x5E;;
  FieldType_OutputBinary field_type_ stream.

Definition DefType_OutputBinary (this : ptr) (stream : ptr) : M unit :=
  d ← lift (get_DefType zone this);
  match d with
  | FuncType _ param_types_ result_type_ =>
      FuncType_OutputBinary param_types_ result_type_ stream
  | StructType _ fields_ => StructType_OutputBinary fields_ stream
  | ArrayType _ field_type_ => ArrayType_OutputBinary field_type_ stream
  end.

(** *** Binary serialisation of instructions, locals and functions *)

Definition LocalGet_OutputBinary (local_ : ptr) (stream : ptr) : M unit :=
  abort UNIMPLEMENTED.

Definition LocalSet_OutputBinary (local_ : ptr) (stream : ptr) : M unit :=
  abort UNIMPLEMENTED.

Definition Int32Add_OutputBinary (stream : ptr) : M unit :=
  WRITE_BYTE stream 0x6A.

Definition Constant_OutputBinary (value_ : Z) (stream : ptr) : M unit :=
  (* i32.const *)
  WRITE_BYTE stream 0x41;;
  WRITE_UNSIGNED uint32_t stream value_.

Definition If_OutputBinary (then_ otherwise_ : ptr) (stream : ptr) : M unit :=
  abort UNIMPLEMENTED.

Definition Local_OutputBinary (this : ptr) (stream : ptr) : M unit :=
  abort UNIMPLEMENTED.

(** The virtual call [instr->OutputBinary(stream)]. *)
Definition Instruction_OutputBinary (this : ptr) (stream : ptr) : M unit :=
  i ← lift (get_Instruction zone this);
  match i with
  | LocalGet local_ => LocalGet_OutputBinary local_ stream
  | LocalSet local_ => LocalSet_OutputBinary local_ stream
  | Int32Add => Int32Add_OutputBinary stream
  | Constant value_ => Constant_OutputBinary value_ stream
  | If then_ otherwise_ => If_OutputBinary then_ otherwise_ stream
  end.

Definition InstructionList_OutputBinary (this : ptr) (stream : ptr) : M unit :=
  il ← lift (get_InstructionList zone this);
  for_each (instructions_ il) (fun instr => Instruction_OutputBinary instr stream).

Definition Function_OutputBinary (this : ptr) (stream : ptr) : M unit :=
  f ← lift (get_Function zone this);
  (* First, output the locals. *)
  WRITE_UNSIGNED intptr_t stream (Z.of_nat (length (locals_ f)));;
  for_each (locals_ f) (fun local =>
    WRITE_BYTE stream 1;;
    l ← lift (get_Local zone local);
    ValueType_OutputBinary (Local_type_ l) stream);;
  (* Then, output the function body. *)
  (if bool_decide (body_ f ≠ nullptr)
   then InstructionList_OutputBinary (body_ f) stream
   else WasmTrace "WASM MISSING FUNCTION BODY OMITTED!");;
  WRITE_BYTE stream 0x0B.

End OutputBinary.

(** *** Binary serialisation of the module *)

Section OutputModule.
Variable DEBUG : bool.
Variable this : WasmModuleBuilder.

Definition WasmModuleBuilder_OutputTypeSection (stream : ptr) : M unit :=
  (* Type section has index 1. *)
  WRITE_BYTE stream 1;;
  stream ← WRITE_BYTECOUNT DEBUG stream (fun stream =>
    WRITE_UNSIGNED DEBUG intptr_t stream (Z.of_nat (length (types_ this)));;
    for_each (types_ this) (fun def_type =>
      DefType_OutputBinary DEBUG (zone_ this) def_type stream));
  mret tt.

Definition WasmModuleBuilder_OutputFunctionSection (stream : ptr) : M unit :=
  (* Function section has index 3. *)
  WRITE_BYTE stream 3;;
  stream ← WRITE_BYTECOUNT DEBUG stream (fun stream =>
    WRITE_UNSIGNED DEBUG intptr_t stream (Z.of_nat (length (functions_ this)));;
    for_each (functions_ this) (fun function =>
      f ← lift (get_Function (zone_ this) function);
      type_ ← lift (get_DefType (zone_ this) (Function_type_ f));
      WRITE_UNSIGNED DEBUG int32_t stream (DefType_index type_)));
  mret tt.

Definition WasmModuleBuilder_OutputCodeSection (stream : ptr) : M unit :=
  (* Code section has index 10. *)
  WRITE_BYTE stream 10;;
  stream ← WRITE_BYTECOUNT DEBUG stream (fun stream =>
    WRITE_UNSIGNED DEBUG intptr_t stream (Z.of_nat (length (functions_ this)));;
    for_each (functions_ this) (fun function =>
      (* The code of each function is preceded by its bytecount to allow
         the embedder to lazily compile functions. *)
      stream ← WRITE_BYTECOUNT DEBUG stream (fun stream =>
        Function_OutputBinary DEBUG (zone_ this) function stream);
      mret tt));
  mret tt.

Definition WasmModuleBuilder_OutputBinary (stream : ptr) : M unit :=
  lift (ASSERT DEBUG (Ok (bool_decide (stream ≠ nullptr))) "stream != nullptr");;
  (* Magic. *)
  WRITE_BYTE stream 0x00;;  (* NUL *)
  WRITE_BYTE stream 0x61;;  (* a *)
  WRITE_BYTE stream 0x73;;  (* s *)
  WRITE_BYTE stream 0x6D;;  (* m *)
  (* Version. *)
  WRITE_BYTE stream 0x01;;
  WRITE_BYTE stream 0x00;;
  WRITE_BYTE stream 0x00;;
  WRITE_BYTE stream 0x00;;
  (* Sections come in ascending order of their indices. *)
  WasmModuleBuilder_OutputTypeSection stream;;
  WasmModuleBuilder_OutputFunctionSection stream;;
  WasmModuleBuilder_OutputCodeSection stream.

End OutputModule.

(** *** Building: the constructors and the operations that extend objects *)

Definition set_zone_ (this : WasmModuleBuilder) (zone : Zone)
  : WasmModuleBuilder :=
  MkWasmModuleBuilder (i32_ this) (i64_ this) (f32_ this) (f64_ this)
    (func_ this) (ext_ this) (any_ this) (eq_ this) (i31_ this)
    (funcref_ this) (externref_ this) (anyref_ this) (eqref_ this)
    (i31ref_ this) zone (types_ this) (functions_ this).

Definition set_types_ (this : WasmModuleBuilder) (types : list ptr)
  : WasmModuleBuilder :=
  MkWasmModuleBuilder (i32_ this) (i64_ this) (f32_ this) (f64_ this)
    (func_ this) (ext_ this) (any_ this) (eq_ this) (i31_ this)
    (funcref_ this) (externref_ this) (anyref_ this) (eqref_ this)
    (i31ref_ this) (zone_ this) types (functions_ this).

Definition set_functions_ (this : WasmModuleBuilder) (functions : list ptr)
  : WasmModuleBuilder :=
  MkWasmModuleBuilder (i32_ this) (i64_ this) (f32_ this) (f64_ this)
    (func_ this) (ext_ this) (any_ this) (eq_ this) (i31_ this)
    (funcref_ this) (externref_ this) (anyref_ this) (eqref_ this)
    (i31ref_ this) (zone_ this) (types_ this) functions.

(** [WasmModuleBuilder::WasmModuleBuilder(Zone* zone)] *)
Definition WasmModuleBuilder_new (zone : Zone) : WasmModuleBuilder :=
  let '(i32, zone) := alloc zone (OValueType (NumType kI32)) in
  let '(i64, zone) := alloc zone (OValueType (NumType kI64)) in
  let '(f32, zone) := alloc zone (OValueType (NumType kF32)) in
  let '(f64, zone) := alloc zone (OValueType (NumType kF64)) in
  let '(func, zone) := alloc zone (OHeapType (MkHeapType kFunc nullptr)) in
  let '(ext, zone) := alloc zone (OHeapType (MkHeapType kExtern nullptr)) in
  let '(any, zone) := alloc zone (OHeapType (MkHeapType kAny nullptr)) in
  let '(eq, zone) := alloc zone (OHeapType (MkHeapType kEq nullptr)) in
  let '(i31, zone) := alloc zone (OHeapType (MkHeapType kI31 nullptr)) in
  let '(funcref, zone) := alloc zone (OValueType (RefType true func)) in
  let '(externref, zone) := alloc zone (OValueType (RefType true ext)) in
  let '(anyref, zone) := alloc zone (OValueType (RefType true any)) in
  let '(eqref, zone) := alloc zone (OValueType (RefType true eq)) in
  let '(i31ref, zone) := alloc zone (OValueType (RefType false i31)) in
  MkWasmModuleBuilder i32 i64 f32 f64 func ext any eq i31
    funcref externref anyref eqref i31ref zone [] [].

Definition FuncType_AddParam (zone : Zone) (this : ptr) (param_type : ptr)
  : outcome Zone :=
  d ← get_DefType zone this;
  match d with
  | FuncType index_ param_types_ result_type_ =>
      Ok (store zone this
            (ODefType (FuncType index_ (Add param_types_ param_type) result_type_)))
  | _ => Abort BAD_POINTER
  end.

(** [StructType::AddField], given a [FieldType] *)
Definition StructType_AddField (zone : Zone) (this : ptr) (field_type : ptr)
  : outcome (ptr * Zone) :=
  d ← get_DefType zone this;
  match d with
  | StructType index_ fields_ =>
      let '(field, zone) :=
        alloc zone (OField (MkField this field_type (Z.of_nat (length fields_)))) in
      let fields_ := Add fields_ field in
      Ok (field, store zone this (ODefType (StructType index_ fields_)))
  | _ => Abort BAD_POINTER
  end.

(** [StructType::AddField], given a [ValueType] and [mut] *)
Definition StructType_AddField_value (zone : Zone) (this : ptr)
    (value_type : ptr) (mut : bool) : outcome (ptr * Zone) :=
  let '(field_type, zone) :=
    alloc zone (OFieldType (MkFieldType value_type kNoType mut)) in
  StructType_AddField zone this field_type.

(** [StructType::AddField], given a [PackedType] and [mut] *)
Definition StructType_AddField_packed (zone : Zone) (this : ptr)
    (packed_type : PackedType) (mut : bool) : outcome (ptr * Zone) :=
  let '(field_type, zone) :=
    alloc zone (OFieldType (MkFieldType nullptr packed_type mut)) in
  StructType_AddField zone this field_type.

(** The [Add...] members of [InstructionList]: a new instruction at the end
    of [instructions_]. *)
Definition InstructionList_add (zone : Zone) (this : ptr) (instr : ptr)
  : outcome (ptr * Zone) :=
  il ← get_InstructionList zone this;
  Ok (instr, store zone this
               (OInstructionList (MkInstructionList (Add (instructions_ il) instr)))).

Definition InstructionList_AddLocalGet (zone : Zone) (this : ptr) (local : ptr)
  : outcome (ptr * Zone) :=
  let '(instr, zone) := alloc zone (OInstruction (LocalGet local)) in
  InstructionList_add zone this instr.

Definition InstructionList_AddLocalSet (zone : Zone) (this : ptr) (local : ptr)
  : outcome (ptr * Zone) :=
  let '(instr, zone) := alloc zone (OInstruction (LocalSet local)) in
  InstructionList_add zone this instr.

Definition InstructionList_AddInt32Add (zone : Zone) (this : ptr)
  : outcome (ptr * Zone) :=
  let '(instr, zone) := alloc zone (OInstruction Int32Add) in
  InstructionList_add zone this instr.

Definition InstructionList_AddConstant (zone : Zone) (this : ptr) (value : Z)
  : outcome (ptr * Zone) :=
  let '(instr, zone) :=
    alloc zone (OInstruction (Constant (static_cast uint32_t value))) in
  InstructionList_add zone this instr.

(** [new (zone_) If(zone_)]: the constructor of [If] allocates the two
    instruction lists. *)
Definition InstructionList_AddIf (zone : Zone) (this : ptr)
  : outcome (ptr * Zone) :=
  let '(instr, zone) := alloc zone (OInstruction (If nullptr nullptr)) in
  let '(then_, zone) := alloc zone (OInstructionList (MkInstructionList [])) in
  let '(otherwise_, zone) := alloc zone (OInstructionList (MkInstructionList [])) in
  let zone := store zone instr (OInstruction (If then_ otherwise_)) in
  InstructionList_add zone this instr.

Definition Function_AddLocal (DEBUG : bool) (zone : Zone) (this : ptr)
    (kind : Local_Kind) (type : ptr) (name : string) : outcome (ptr * Zone) :=
  f ← get_Function zone this;
  (* No further params can be declared after the first
     local in a Wasm function header. *)
  ASSERT DEBUG
    (if bool_decide (kind = kLocal) then Ok true
     else if bool_decide (locals_ f = []) then Ok true
     else last ← get_Local zone (List.last (locals_ f) nullptr);
          Ok (bool_decide (Local_kind_ last = kParam)))
    "kind == Local::Kind::kLocal || locals_.is_empty() || locals_.Last()->kind() == Local::Kind::kParam";;
  let '(local, zone) :=
    alloc zone (OLocal (MkLocal this kind type name
                          (Z.of_nat (length (locals_ f))))) in
  let locals_ := Add (locals_ f) local in
  Ok (local, store zone this
               (OFunction (MkFunction (Function_name_ f) (Function_index_ f)
                             (Function_type_ f) locals_ (body_ f)))).

Definition Function_MakeNewBody (zone : Zone) (this : ptr)
  : outcome (ptr * Zone) :=
  f ← get_Function zone this;
  let '(body, zone) := alloc zone (OInstructionList (MkInstructionList [])) in
  Ok (body, store zone this
              (OFunction (MkFunction (Function_name_ f) (Function_index_ f)
                            (Function_type_ f) (locals_ f) body))).

(** [Function::GetLocalByName]: the first local of that name, in the order
    of [locals_]. *)
Fixpoint Function_GetLocalByName_loop (zone : Zone) (locals : list ptr)
    (name : string) : outcome ptr :=
  match locals with
  | [] =>
      Abort (FATAL "Local variable by name lookup returned no matching result.")
  | it :: locals' =>
      l ← get_Local zone it;
      if bool_decide (Local_name_ l = name)
      then Ok it
      else Function_GetLocalByName_loop zone locals' name
  end.

Definition Function_GetLocalByName (zone : Zone) (this : ptr) (name : string)
  : outcome ptr :=
  f ← get_Function zone this;
  Function_GetLocalByName_loop zone (locals_ f) name.

(** [Function::GetLocalByIndex]; [locals_[id]] outside the array is an
    access outside its storage. *)
Definition Function_GetLocalByIndex (DEBUG : bool) (zone : Zone) (this : ptr)
    (id : Z) : outcome ptr :=
  f ← get_Function zone this;
  ASSERT DEBUG (Ok ((0 <=? id) && (id <? Z.of_nat (length (locals_ f)))))
    "0 <= id && id < locals_.length()";;
  match (if 0 <=? id then locals_ f !! Z.to_nat id else None) with
  | Some local => Ok local
  | None => Abort (UNDEFINED_BEHAVIOUR "locals_[id] outside the array")
  end.

(** *** The factory operations of the builder *)

(** [MakeFieldType], given a [ValueType] and [mut] *)
Definition WasmModuleBuilder_MakeFieldType_value (this : WasmModuleBuilder)
    (value_type : ptr) (mut : bool) : ptr * WasmModuleBuilder :=
  let '(field_type, zone) :=
    alloc (zone_ this) (OFieldType (MkFieldType value_type kNoType mut)) in
  (field_type, set_zone_ this zone).

(** [MakeFieldType], given a [PackedType] and [mut] *)
Definition WasmModuleBuilder_MakeFieldType_packed (this : WasmModuleBuilder)
    (packed_type : PackedType) (mut : bool) : ptr * WasmModuleBuilder :=
  let '(field_type, zone) :=
    alloc (zone_ this) (OFieldType (MkFieldType nullptr packed_type mut)) in
  (field_type, set_zone_ this zone).

(** [MakeArrayType], given a [FieldType] *)
Definition WasmModuleBuilder_MakeArrayType (this : WasmModuleBuilder)
    (field_type : ptr) : ptr * WasmModuleBuilder :=
  let '(array_type, zone) :=
    alloc (zone_ this)
      (ODefType (ArrayType (static_cast int32_t (Z.of_nat (length (types_ this))))
                   field_type)) in
  (array_type, set_types_ (set_zone_ this zone) (Add (types_ this) array_type)).

(** [MakeArrayType], given a [ValueType] and [mut] *)
Definition WasmModuleBuilder_MakeArrayType_value (this : WasmModuleBuilder)
    (value_type : ptr) (mut : bool) : ptr * WasmModuleBuilder :=
  let '(field_type, this) :=
    WasmModuleBuilder_MakeFieldType_value this value_type mut in
  WasmModuleBuilder_MakeArrayType this field_type.

(** [MakeArrayType], given a [PackedType] and [mut] *)
Definition WasmModuleBuilder_MakeArrayType_packed (this : WasmModuleBuilder)
    (packed_type : PackedType) (mut : bool) : ptr * WasmModuleBuilder :=
  let '(field_type, this) :=
    WasmModuleBuilder_MakeFieldType_packed this packed_type mut in
  WasmModuleBuilder_MakeArrayType this field_type.

Definition WasmModuleBuilder_MakeHeapType (this : WasmModuleBuilder)
    (def_type : ptr) : ptr * WasmModuleBuilder :=
  let '(heap_type, zone) :=
    alloc (zone_ this) (OHeapType (MkHeapType kTypeidx def_type)) in
  (heap_type, set_zone_ this zone).

Definition WasmModuleBuilder_MakeRefType (this : WasmModuleBuilder)
    (nullable : bool) (heap_type : ptr) : ptr * WasmModuleBuilder :=
  let '(ref_type, zone) :=
    alloc (zone_ this) (OValueType (RefType nullable heap_type)) in
  (ref_type, set_zone_ this zone).

Definition WasmModuleBuilder_MakeFuncType (this : WasmModuleBuilder)
    (result_type : ptr) : ptr * WasmModuleBuilder :=
  let '(fct_type, zone) :=
    alloc (zone_ this)
      (ODefType (FuncType (static_cast int32_t (Z.of_nat (length (types_ this))))
                   [] result_type)) in
  (fct_type, set_types_ (set_zone_ this zone) (Add (types_ this) fct_type)).

Definition WasmModuleBuilder_MakeStructType (this : WasmModuleBuilder)
  : ptr * WasmModuleBuilder :=
  let '(str_type, zone) :=
    alloc (zone_ this)
      (ODefType (StructType (static_cast int32_t (Z.of_nat (length (types_ this))))
                   [])) in
  (str_type, set_types_ (set_zone_ this zone) (Add (types_ this) str_type)).

Definition WasmModuleBuilder_AddFunction (this : WasmModuleBuilder)
    (name : string) (type : ptr) : ptr * WasmModuleBuilder :=
  let '(function, zone) :=
    alloc (zone_ this)
      (OFunction (MkFunction name
                    (static_cast uint32_t (Z.of_nat (length (functions_ this))))
                    type [] nullptr)) in
  (function,
   set_functions_ (set_zone_ this zone) (Add (functions_ this) function)).

End Wasm.

(** * Specification vocabulary *)

Import DataStream Wasm.

(** The SLEB128 encoding as a relation: a value of [-64 .. 63] is one byte
    with the high bit clear; any other value is its low seven bits with the
    high bit set, followed by the encoding of the rest. *)
Inductive sleb128 : Z -> list Z -> Prop :=
  | sleb128_last v :
      -64 <= v < 64 -> sleb128 v [v mod 128]
  | sleb128_more v bs :
      ~ (-64 <= v < 64) -> sleb128 (v / 128) bs ->
      sleb128 v ((v mod 128 + 128) :: bs).

(** The ULEB128 encoding, in the same way. *)
Inductive uleb128 : Z -> list Z -> Prop :=
  | uleb128_last v :
      0 <= v < 128 -> uleb128 v [v]
  | uleb128_more v bs :
      128 <= v -> uleb128 (v / 128) bs ->
      uleb128 v ((v mod 128 + 128) :: bs).

(** [n] groups of seven bits hold the signed value [v]. *)
Definition fits_sleb_groups (n : Z) (v : Z) : Prop :=
  - 2 ^ (7 * n - 1) <= v < 2 ^ (7 * n - 1).

(** The length of the ULEB128 encoding of [n]: one byte for each group of
    seven bits up to the highest set bit, and one byte for [0]. *)
Definition uleb_len (n : Z) : Z := Z.log2 n / 7 + 1.

(** [m] appends the bytes [bs] to the stream at [stream], whatever was
    written there before, returns, and leaves the other streams alone. *)
Definition writes (m : M unit) (stream : ptr) (bs : list Z) : Prop :=
  forall σ st, deref σ stream = Some st ->
    m σ = (Ok tt, store σ stream (st ++ bs)).

(** The binary tag table of the abstract heap types: the SLEB128 value
    written for each, where the table has one. *)
Definition abstract_heap_tag (kind : HeapType_Kind) : option Z :=
  match kind with
  | kFunc => Some (-0x10)
  | kExtern => Some (-0x11)
  | kEq => Some (-0x13)
  | kI31 => Some (-0x16)
  | kAny | kTypeidx => None
  end.

(** The shorthand rows of the encoding table: the symbol of the text form
    and the SLEB128 value of the binary form. *)
Definition shorthand_row (nullable : bool) (kind : HeapType_Kind)
  : option (string * Z) :=
  match nullable, kind with
  | false, kI31 => Some ("i31ref", -0x16)
  | true, kFunc => Some ("funcref", -0x10)
  | true, kExtern => Some ("externref", -0x11)
  | true, kAny => Some ("anyref", -0x12)
  | true, kEq => Some ("eqref", -0x13)
  | _, _ => None
  end.

(** The shorthand rule as the table states it: a reference type on a
    shorthand row is rendered as the symbol of the row in text, and as the
    one byte of the row's tag in binary. *)
Definition emits_shorthand (zone : Zone) (nullable : bool) (heap_type : ptr)
  : Prop :=
  forall h text tag,
    get_HeapType zone heap_type = Ok h ->
    shorthand_row nullable (HeapType_kind_ h) = Some (text, tag) ->
    RefType_Serialize zone nullable heap_type = Ok (SExpSymbol text) /\
    exists b, sleb128 tag [b] /\
      forall stream, writes (RefType_OutputBinary zone nullable heap_type stream)
                       stream [b].

(** The text form of an [If] as the instruction table gives it:
    [(if (then ...) (else ...))]. *)
Definition If_text_form (then_branch else_branch : SExpression) : SExpression :=
  SExpList [SExpSymbol "if";
            SExpList [SExpSymbol "then"; then_branch];
            SExpList [SExpSymbol "else"; else_branch]].

(** The locals of a function that are not parameters. *)
Definition non_param_locals (zone : Zone) (f : Function) : list ptr :=
  List.filter (fun local =>
                 match get_Local zone local with
                 | Ok l => bool_decide (Local_kind_ l = kLocal)
                 | Abort _ => false
                 end) (locals_ f).

(** A function [f] of type [(param i32) (result i32)] with its parameter
    [x] declared and no body: the function and the arena it lives in. *)
Definition function_with_one_param : outcome (ptr * Zone) :=
  let B := WasmModuleBuilder_new [] in
  let '(type, B) := WasmModuleBuilder_MakeFuncType B (i32_ B) in
  zone ← FuncType_AddParam (zone_ B) type (i32_ B);
  let '(f, B) := WasmModuleBuilder_AddFunction (set_zone_ B zone) "f" type in
  '(x, zone) ← Function_AddLocal true (zone_ B) f kParam (i32_ B) "x";
  Ok (f, zone).

(** An [If] with empty branches, in the body of a function. *)
Definition if_with_empty_branches : outcome (ptr * Zone) :=
  let B := WasmModuleBuilder_new [] in
  let '(type, B) := WasmModuleBuilder_MakeFuncType B (i32_ B) in
  let '(f, B) := WasmModuleBuilder_AddFunction B "f" type in
  '(body, zone) ← Function_MakeNewBody (zone_ B) f;
  InstructionList_AddIf zone body.


(** All [Param] entries precede all [Local] entries. *)
Definition params_first (kinds : list Local_Kind) : Prop :=
  forall i j, kinds !! i = Some kParam -> kinds !! j = Some kLocal -> (i < j)%nat.

(** The kinds of the locals of a function, in the order of [locals_]. *)
Definition local_kinds (zone : Zone) (f : Function)
    (kinds : list Local_Kind) : Prop :=
  Forall2 (fun local kind => exists l,
             get_Local zone local = Ok l /\ Local_kind_ l = kind)
          (locals_ f) kinds.

(** The text of the assertion of [AddLocal]. *)
Definition AddLocal_assertion : string :=
  "kind == Local::Kind::kLocal || locals_.is_empty() || locals_.Last()->kind() == Local::Kind::kParam".

(** What holds of the function at [this] after calls of [AddLocal] that
    returned: its locals have the kinds [kinds], parameters first. *)
Definition locals_inv (zone : Zone) (this : ptr) (kinds : list Local_Kind)
  : Prop :=
  exists f, get_Function zone this = Ok f /\ local_kinds zone f kinds /\
            params_first kinds.

(** The invariant of the locals: every function of the arena has its
    parameters first. *)
Definition zone_locals_inv (zone : Zone) : Prop :=
  forall this f, get_Function zone this = Ok f ->
    exists kinds, local_kinds zone f kinds /\ params_first kinds.

(** The invariant of the index spaces: the object registered at position
    [i] of [types_] (of [functions_]) carries the index [i]. *)
Definition builder_inv (B : WasmModuleBuilder) : Prop :=
  (forall i t, types_ B !! i = Some t ->
     exists d, get_DefType (zone_ B) t = Ok d /\ DefType_index d = Z.of_nat i) /\
  (forall i f, functions_ B !! i = Some f ->
     exists fn, get_Function (zone_ B) f = Ok fn /\
                Function_index_ fn = Z.of_nat i).

(** A factory that returns the object [r.1] and the builder [r.2]
    registers a type with the builder [B]: the object is the new last entry
    of [types_] and carries its position there, the former length of the
    list, as its index.  Likewise for a function and [functions_]. *)
Definition registers_type (B : WasmModuleBuilder)
    (r : ptr * WasmModuleBuilder) : Prop :=
  types_ r.2 = types_ B ++ [r.1] /\
  exists d, get_DefType (zone_ r.2) r.1 = Ok d /\
            DefType_index d = Z.of_nat (length (types_ B)).

Definition registers_function (B : WasmModuleBuilder)
    (r : ptr * WasmModuleBuilder) : Prop :=
  functions_ r.2 = functions_ B ++ [r.1] /\
  exists fn, get_Function (zone_ r.2) r.1 = Ok fn /\
             Function_index_ fn = Z.of_nat (length (functions_ B)).

(** The operations of the builder, and the operations on the objects it
    hands out, which live in the builder's arena. *)
Inductive BuilderOp : Type :=
  | OpMakeFieldType_value (value_type : ptr) (mut : bool)
  | OpMakeFieldType_packed (packed_type : PackedType) (mut : bool)
  | OpMakeArrayType (field_type : ptr)
  | OpMakeArrayType_value (value_type : ptr) (mut : bool)
  | OpMakeArrayType_packed (packed_type : PackedType) (mut : bool)
  | OpMakeHeapType (def_type : ptr)
  | OpMakeRefType (nullable : bool) (heap_type : ptr)
  | OpMakeFuncType (result_type : ptr)
  | OpMakeStructType
  | OpAddFunction (name : string) (type : ptr)
  | OpFuncType_AddParam (this param_type : ptr)
  | OpStructType_AddField (this field_type : ptr)
  | OpStructType_AddField_value (this value_type : ptr) (mut : bool)
  | OpStructType_AddField_packed (this : ptr) (packed_type : PackedType)
      (mut : bool)
  | OpFunction_AddLocal (this : ptr) (kind : Local_Kind) (type : ptr)
      (name : string)
  | OpFunction_MakeNewBody (this : ptr)
  | OpInstructionList_AddLocalGet (this local : ptr)
  | OpInstructionList_AddLocalSet (this local : ptr)
  | OpInstructionList_AddInt32Add (this : ptr)
  | OpInstructionList_AddConstant (this : ptr) (value : Z)
  | OpInstructionList_AddIf (this : ptr).

(** An operation on an object of the arena, seen from the builder. *)
Definition in_zone_of (B : WasmModuleBuilder) (r : outcome (ptr * Zone))
  : outcome WasmModuleBuilder :=
  '(_, zone) ← r; Ok (set_zone_ B zone).

Definition run_op (DEBUG : bool) (op : BuilderOp) (B : WasmModuleBuilder)
  : outcome WasmModuleBuilder :=
  match op with
  | OpMakeFieldType_value value_type mut =>
      Ok (WasmModuleBuilder_MakeFieldType_value B value_type mut).2
  | OpMakeFieldType_packed packed_type mut =>
      Ok (WasmModuleBuilder_MakeFieldType_packed B packed_type mut).2
  | OpMakeArrayType field_type =>
      Ok (WasmModuleBuilder_MakeArrayType B field_type).2
  | OpMakeArrayType_value value_type mut =>
      Ok (WasmModuleBuilder_MakeArrayType_value B value_type mut).2
  | OpMakeArrayType_packed packed_type mut =>
      Ok (WasmModuleBuilder_MakeArrayType_packed B packed_type mut).2
  | OpMakeHeapType def_type =>
      Ok (WasmModuleBuilder_MakeHeapType B def_type).2
  | OpMakeRefType nullable heap_type =>
      Ok (WasmModuleBuilder_MakeRefType B nullable heap_type).2
  | OpMakeFuncType result_type =>
      Ok (WasmModuleBuilder_MakeFuncType B result_type).2
  | OpMakeStructType => Ok (WasmModuleBuilder_MakeStructType B).2
  | OpAddFunction name type =>
      Ok (WasmModuleBuilder_AddFunction B name type).2
  | OpFuncType_AddParam this param_type =>
      zone ← FuncType_AddParam (zone_ B) this param_type;
      Ok (set_zone_ B zone)
  | OpStructType_AddField this field_type =>
      in_zone_of B (StructType_AddField (zone_ B) this field_type)
  | OpStructType_AddField_value this value_type mut =>
      in_zone_of B (StructType_AddField_value (zone_ B) this value_type mut)
  | OpStructType_AddField_packed this packed_type mut =>
      in_zone_of B (StructType_AddField_packed (zone_ B) this packed_type mut)
  | OpFunction_AddLocal this kind type name =>
      in_zone_of B (Function_AddLocal DEBUG (zone_ B) this kind type name)
  | OpFunction_MakeNewBody this =>
      in_zone_of B (Function_MakeNewBody (zone_ B) this)
  | OpInstructionList_AddLocalGet this local =>
      in_zone_of B (InstructionList_AddLocalGet (zone_ B) this local)
  | OpInstructionList_AddLocalSet this local =>
      in_zone_of B (InstructionList_AddLocalSet (zone_ B) this local)
  | OpInstructionList_AddInt32Add this =>
      in_zone_of B (InstructionList_AddInt32Add (zone_ B) this)
  | OpInstructionList_AddConstant this value =>
      in_zone_of B (InstructionList_AddConstant (zone_ B) this value)
  | OpInstructionList_AddIf this =>
      in_zone_of B (InstructionList_AddIf (zone_ B) this)
  end.

Fixpoint run_ops (DEBUG : bool) (ops : list BuilderOp) (B : WasmModuleBuilder)
  : outcome WasmModuleBuilder :=
  match ops with
  | [] => Ok B
  | op :: ops' => B' ← run_op DEBUG op B; run_ops DEBUG ops' B'
  end.

(** The objects with an index keep it from [zone] to [zone']. *)
Definition keeps_indices (zone zone' : Zone) : Prop :=
  (forall p d, get_DefType zone p = Ok d ->
     exists d', get_DefType zone' p = Ok d' /\
                DefType_index d' = DefType_index d) /\
  (forall p f, get_Function zone p = Ok f ->
     exists f', get_Function zone' p = Ok f' /\
                Function_index_ f' = Function_index_ f).

(** A write through a pointer puts [o'] in the place of [o]: an object of
    the same class, and with the same index and the same locals where it has
    them. *)
Definition replaces (o o' : Object) : Prop :=
  match o with
  | ODefType d =>
      exists d', o' = ODefType d' /\ DefType_index d' = DefType_index d
  | OFunction f =>
      exists f', o' = OFunction f' /\
                 Function_index_ f' = Function_index_ f /\
                 locals_ f' = locals_ f
  | OInstruction _ => exists i, o' = OInstruction i
  | OInstructionList _ => exists l, o' = OInstructionList l
  | _ => o' = o
  end.

(** What the operations do to the arena: they allocate an object (a
    function has no locals then), write through a pointer, or are a call
    of [AddLocal]. *)
Inductive zone_step (DEBUG : bool) : Zone -> Zone -> Prop :=
  | zone_step_alloc zone o :
      (forall f, o = OFunction f -> locals_ f = []) ->
      zone_step DEBUG zone (zone ++ [o])
  | zone_step_store zone p o o' :
      deref zone p = Some o -> replaces o o' ->
      zone_step DEBUG zone (store zone p o')
  | zone_step_AddLocal zone this kind type name r :
      Function_AddLocal DEBUG zone this kind type name = Ok r ->
      zone_step DEBUG zone r.2.

(** A run that registers a function type, a function with a parameter and
    a local, a struct type with a field, an array type and a second
    function. *)
Definition sample_ops : list BuilderOp :=
  [OpMakeFuncType 1%nat; OpAddFunction "main" 15%nat; OpMakeStructType;
   OpFunction_AddLocal 16%nat kParam 1%nat "x";
   OpStructType_AddField_value 17%nat 1%nat true;
   OpMakeArrayType_packed kI8 false; OpAddFunction "aux" 15%nat;
   OpFunction_AddLocal 16%nat kLocal 1%nat "y"].

Definition sample_builder : WasmModuleBuilder :=
  Eval vm_compute in
    match run_ops true sample_ops (WasmModuleBuilder_new []) with
    | Ok B => B
    | Abort _ => WasmModuleBuilder_new []
    end.

(** The shift counts [s] at which [ReadInternal] of a 64-bit type reads a
    byte: one for each of the at most ten bytes of an encoding. *)
Definition shift_counts : list Z := [0; 7; 14; 21; 28; 35; 42; 49; 56; 63].

(** ** Vocabulary of the properties of the streams *)

(** The bytes of an encoding, signed or not: the groups of seven bits of
    [v], the lowest first, each but the last with the bit for more data. *)
Inductive leb128_bytes : Z -> list Z -> Prop :=
  | leb128_bytes_last v : leb128_bytes v [v mod 128]
  | leb128_bytes_more v bs :
      leb128_bytes (v / 128) bs -> leb128_bytes v ((v mod 128 + 128) :: bs).


(** What [ReadInternal] returns when its loop starts at [c] with [r] and
    [s]. *)
Definition ReadInternal_from (DEBUG : bool) (T : IntType) (rs : ReadStream)
    (c : Z) (r s : Z) : outcome (Z * ReadStream) :=
  '(c, b, r, s) ← ReadInternal_loop DEBUG T (bytes_from rs c) c r s;
  Ok (static_cast T (Z.lor r (ReadInternal_sign_bits T b s)),
      MkReadStream (buffer_ rs) c).





(** The cursor is in the buffer, or right behind it. *)
Definition in_buffer (rs : ReadStream) : Prop :=
  0 <= current_ rs <= Z.of_nat (end_ rs).



(** ** Vocabulary of the properties of the builder *)

(** The bytes of an instruction that has a binary form. *)
Definition instruction_bytes (i : Instruction) (bs : list Z) : Prop :=
  match i with
  | Int32Add => bs = [0x6A]
  | Constant value =>
      exists e, uleb128 (static_cast uint32_t value) e /\ bs = 0x41 :: e
  | LocalGet _ | LocalSet _ | If _ _ => False
  end.

Definition has_binary_form (i : Instruction) : bool :=
  match i with
  | Int32Add | Constant _ => true
  | LocalGet _ | LocalSet _ | If _ _ => false
  end.

(** The instructions ahead of the first one without a binary form. *)
Fixpoint binary_prefix (instrs : list Instruction) : list Instruction :=
  match instrs with
  | [] => []
  | i :: instrs' =>
      if has_binary_form i then i :: binary_prefix instrs' else []
  end.

(** The local at position [i] of the locals of a function carries the index
    [i] and belongs to that function. *)
Definition locals_indexed (zone : Zone) (this : ptr) (f : Function) : Prop :=
  forall i p, locals_ f !! i = Some p ->
    exists l, get_Local zone p = Ok l /\
              Local_index_ l = Z.of_nat i /\ Local_function_ l = this.

Definition zone_locals_indexed (zone : Zone) : Prop :=
  forall this f, get_Function zone this = Ok f -> locals_indexed zone this f.

(** The failure of a lookup by name that finds nothing. *)
Definition no_matching_local : Failure :=
  FATAL "Local variable by name lookup returned no matching result.".

(** [p] is the first of [locals] with the name [name]. *)
Definition first_named (zone : Zone) (locals : list ptr) (name : string)
    (p : ptr) : Prop :=
  exists i l,
    locals !! i = Some p /\ get_Local zone p = Ok l /\ Local_name_ l = name /\
    forall j q l', (j < i)%nat -> locals !! j = Some q ->
      get_Local zone q = Ok l' -> Local_name_ l' <> name.

(** None of [locals] has the name [name]. *)
Definition none_named (zone : Zone) (locals : list ptr) (name : string)
  : Prop :=
  forall q l', q ∈ locals -> get_Local zone q = Ok l' -> Local_name_ l' <> name.

(** The objects that no operation writes to once they are constructed. *)
Definition immutable (o : Object) : Prop :=
  match o with
  | OHeapType _ | OValueType _ | OFieldType _ | OField _ | OLocal _ => True
  | ODefType _ | OInstruction _ | OInstructionList _ | OFunction _ => False
  end.

(** From [zone] to [zone'] the immutable objects stay as they are, and the
    objects with an index keep it. *)
Definition preserves (zone zone' : Zone) : Prop :=
  (forall p o, deref zone p = Some o -> immutable o -> deref zone' p = Some o) /\
  keeps_indices zone zone'.

(** The predefined types of a builder: the member, its text form and the
    byte of its binary form. *)
Definition predefined_value_types (B : WasmModuleBuilder)
  : list (ptr * string * Z) :=
  [(i32_ B, "i32", 0x7F); (i64_ B, "i64", 0x7E); (f32_ B, "f32", 0x7D);
   (f64_ B, "f64", 0x7C); (funcref_ B, "funcref", 0x70);
   (externref_ B, "externref", 0x6F); (eqref_ B, "eqref", 0x6D);
   (i31ref_ B, "i31ref", 0x6A)].

(** [block] is [payload] behind the ULEB128 encoding of its length. *)
Definition length_prefixed (payload block : list Z) : Prop :=
  exists prefix,
    uleb128 (Z.of_nat (length payload)) prefix /\ block = prefix ++ payload.

(** [bytes] is the ULEB128 encoding of the number of [items], and the
    items behind it. *)
Definition counted (items : list (list Z)) (bytes : list Z) : Prop :=
  exists count,
    uleb128 (Z.of_nat (length items)) count /\ bytes = count ++ concat items.

(** The eight bytes of the magic and the version. *)
Definition module_header : list Z :=
  [0x00; 0x61; 0x73; 0x6D; 0x01; 0x00; 0x00; 0x00].

(** The entry of a function in the function section: the index of its
    type. *)
Definition function_entry (zone : Zone) (function : ptr) (bs : list Z)
  : Prop :=
  exists f type,
    get_Function zone function = Ok f /\
    get_DefType zone (Function_type_ f) = Ok type /\
    0 <= DefType_index type < 2 ^ 31 /\
    uleb128 (DefType_index type) bs.

(** A module with the type [(func (result i32))] and the function [main]
    of that type, whose body is [i32.const 42]. *)
Definition sample_module_ops : list BuilderOp :=
  [OpMakeFuncType 1%nat; OpAddFunction "main" 15%nat;
   OpFunction_MakeNewBody 16%nat;
   OpInstructionList_AddConstant 17%nat 42].

Definition sample_module : WasmModuleBuilder :=
  Eval vm_compute in
    match run_ops true sample_module_ops (WasmModuleBuilder_new []) with
    | Ok B => B
    | Abort _ => WasmModuleBuilder_new []
    end.

(** The body [i32.const 42; i32.add; local.get x; i32.add] in an arena. *)
Definition sample_body : Zone :=
  [OInstructionList (MkInstructionList [2; 3; 4; 5]%nat);
   OInstruction (Constant 42); OInstruction Int32Add;
   OInstruction (LocalGet 6%nat); OInstruction Int32Add;
   OLocal (MkLocal 0%nat kParam 0%nat "x" 0)].

(** The function [main] of the sample, with a second local [x] declared. *)
Definition sample_redeclared : ptr * Zone :=
  Eval vm_compute in
    match Function_AddLocal true (zone_ sample_builder) 16%nat kLocal 1%nat "x"
    with
    | Ok r => r
    | Abort _ => (nullptr, [])
    end.

(** * Properties *)

(** ** Arithmetic of the masks *)

Lemma forall_below (f : Z -> bool) (n : nat) :
  forallb f (map Z.of_nat (seq 0 n)) = true ->
  forall b, 0 <= b < Z.of_nat n -> f b = true.
Proof.
  intros H b Hb. rewrite forallb_forall in H. apply H.
  apply in_map_iff. exists (Z.to_nat b). split; [lia|].
  apply in_seq. lia.
Qed.

Lemma land_data_mask v : Z.land v kDataByteMask = v mod 128.
Proof. change kDataByteMask with (Z.ones 7). by rewrite Z.land_ones. Qed.

Lemma shiftr_data_bits v : Z.shiftr v kDataBitsPerByte = v / 128.
Proof. unfold kDataBitsPerByte. by rewrite Z.shiftr_div_pow2. Qed.

Lemma sign_mask_clear p : 0 <= p < 128 -> (Z.land p kSignMask =? 0) = (p <? 64).
Proof.
  intros Hp.
  pose proof (forall_below
    (fun p => Bool.eqb (Z.land p kSignMask =? 0) (p <? 64)) 128) as H.
  apply Bool.eqb_prop, H; [by vm_compute | done].
Qed.

Lemma more_data_set p : 0 <= p < 128 -> Z.lor p kMoreDataMask = p + 128.
Proof.
  intros Hp.
  pose proof (forall_below (fun p => Z.lor p kMoreDataMask =? p + 128) 128) as H.
  apply Z.eqb_eq, H; [by vm_compute | done].
Qed.

Lemma more_data_mask_of_more p :
  0 <= p < 128 ->
  Z.land (p + 128) kMoreDataMask <> 0 /\ Z.land (p + 128) kDataByteMask = p.
Proof.
  intros Hp.
  pose proof (forall_below
    (fun p => negb (Z.land (p + 128) kMoreDataMask =? 0)
              && (Z.land (p + 128) kDataByteMask =? p)) 128) as H.
  specialize (H ltac:(by vm_compute) p Hp).
  apply andb_true_iff in H as [H1 H2].
  apply negb_true_iff, Z.eqb_neq in H1. apply Z.eqb_eq in H2. done.
Qed.

Lemma more_data_mask_of_last p :
  0 <= p < 128 ->
  Z.land p kMoreDataMask = 0 /\ Z.land p kDataByteMask = p.
Proof.
  intros Hp.
  pose proof (forall_below
    (fun p => (Z.land p kMoreDataMask =? 0) && (Z.land p kDataByteMask =? p))
    128) as H.
  specialize (H ltac:(by vm_compute) p Hp).
  apply andb_true_iff in H as [H1 H2].
  apply Z.eqb_eq in H1. apply Z.eqb_eq in H2. done.
Qed.

Lemma sign_bit_of_part p : 0 <= p < 128 -> Z.testbit p 6 = negb (p <? 64).
Proof.
  intros Hp.
  pose proof (forall_below
    (fun p => Bool.eqb (Z.testbit p 6) (negb (p <? 64))) 128) as H.
  apply Bool.eqb_prop, H; [by vm_compute | done].
Qed.

(** Bits that do not overlap add up. *)
Lemma lor_disjoint r p s :
  0 <= s -> 0 <= r < 2 ^ s -> Z.lor r (p * 2 ^ s) = r + p * 2 ^ s.
Proof.
  intros Hs Hr.
  rewrite <- Z.lxor_lor, <- Z.add_nocarry_lxor; try done.
  all: rewrite <- Z.shiftl_mul_pow2 by done.
  all: apply Z.bits_inj'; intros n Hn.
  all: rewrite Z.land_spec, Z.bits_0.
  all: destruct (decide (n < s)).
  all: try (rewrite Z.shiftl_spec_low by done; apply andb_false_r).
  all: rewrite <- (Z.mod_small r (2 ^ s)) by done.
  all: rewrite Z.mod_pow2_bits_high by lia; done.
Qed.

(** ** The writer's loop *)

Lemma WriteInternal_loop_app T fuel v st :
  WriteInternal_loop T fuel v st =
  bs ← WriteInternal_loop T fuel v []; Ok (st ++ bs).
Proof.
  revert v st. induction fuel as [|fuel IH]; intros v st; [done|].
  cbn [WriteInternal_loop].
  set (part := static_cast_uint8_t _).
  set (rem := Z.shiftr _ _).
  set (last := if is_unsigned T then _ else _).
  destruct last; [done|].
  rewrite (IH rem (WriteByte _ st)), (IH rem (WriteByte _ [])).
  destruct (WriteInternal_loop T fuel rem []); [|done].
  unfold WriteByte. cbn. by rewrite <- app_assoc.
Qed.

Lemma WriteInternal_loop_signed T fuel v st :
  is_unsigned T = false ->
  WriteInternal_loop T (S fuel) v st =
  if decide (-64 <= v < 64) then Ok (st ++ [v mod 128])
  else WriteInternal_loop T fuel (v / 128) (st ++ [v mod 128 + 128]).
Proof.
  intros HT. cbn [WriteInternal_loop]. rewrite HT.
  rewrite land_data_mask, shiftr_data_bits.
  assert (0 <= v mod 128 < 128) as Hp by (apply Z.mod_pos_bound; lia).
  unfold static_cast_uint8_t. rewrite (Z.mod_small (v mod 128) 256) by lia.
  rewrite sign_mask_clear by done. change (Z.lnot 0) with (-1).
  unfold WriteByte.
  destruct (decide (-64 <= v < 64)) as [Hv|Hv].
  - replace (_ || _) with true; [done|].
    symmetry. apply orb_true_iff.
    rewrite !andb_true_iff, negb_true_iff, !Z.eqb_eq, Z.ltb_lt, Z.ltb_ge.
    Z.div_mod_to_equations. lia.
  - replace (_ || _) with false.
    + cbn [negb]. by rewrite more_data_set.
    + symmetry. apply orb_false_iff.
      rewrite !andb_false_iff, negb_false_iff, !Z.eqb_neq, Z.ltb_lt, Z.ltb_ge.
      Z.div_mod_to_equations. lia.
Qed.

Lemma WriteInternal_loop_unsigned T fuel v st :
  is_unsigned T = true -> 0 <= v ->
  WriteInternal_loop T (S fuel) v st =
  if decide (v < 128) then Ok (st ++ [v])
  else WriteInternal_loop T fuel (v / 128) (st ++ [v mod 128 + 128]).
Proof.
  intros HT Hv. cbn [WriteInternal_loop]. rewrite HT.
  rewrite land_data_mask, shiftr_data_bits.
  assert (0 <= v mod 128 < 128) as Hp by (apply Z.mod_pos_bound; lia).
  unfold static_cast_uint8_t. rewrite (Z.mod_small (v mod 128) 256) by lia.
  unfold WriteByte.
  destruct (decide (v < 128)) as [Hlt|Hlt].
  - replace (v / 128 =? 0) with true.
    + cbn [negb]. by rewrite Z.mod_small by lia.
    + symmetry. apply Z.eqb_eq. Z.div_mod_to_equations. lia.
  - replace (v / 128 =? 0) with false.
    + cbn [negb]. by rewrite more_data_set.
    + symmetry. apply Z.eqb_neq. Z.div_mod_to_equations. lia.
Qed.

Lemma WriteInternal_loop_sleb128 T fuel v :
  is_unsigned T = false ->
  fits_sleb_groups (Z.of_nat fuel) v -> (0 < fuel)%nat ->
  exists bs, WriteInternal_loop T fuel v [] = Ok bs /\ sleb128 v bs.
Proof.
  intros HT. revert v. induction fuel as [|fuel IH]; intros v Hv Hf; [lia|].
  rewrite WriteInternal_loop_signed by done.
  destruct (decide (-64 <= v < 64)) as [Hsmall|Hbig].
  { eexists. split; [done|]. by constructor. }
  unfold fits_sleb_groups in *.
  destruct fuel as [|fuel].
  { exfalso. apply Hbig. change (2 ^ (7 * Z.of_nat 1 - 1)) with 64 in Hv. lia. }
  destruct (IH (v / 128)) as (bs & Hbs & Henc); [|lia|].
  { replace (7 * Z.of_nat (S (S fuel)) - 1) with (7 * Z.of_nat (S fuel) - 1 + 7) in Hv by lia.
    rewrite Z.pow_add_r in Hv by lia. change (2 ^ 7) with 128 in Hv.
    Z.div_mod_to_equations. lia. }
  rewrite WriteInternal_loop_app, Hbs. cbn.
  eexists. split; [done|]. by constructor.
Qed.

Lemma WriteInternal_loop_uleb128 T fuel v :
  is_unsigned T = true ->
  0 <= v < 2 ^ (7 * Z.of_nat fuel) -> (0 < fuel)%nat ->
  exists bs, WriteInternal_loop T fuel v [] = Ok bs /\ uleb128 v bs.
Proof.
  intros HT. revert v. induction fuel as [|fuel IH]; intros v Hv Hf; [lia|].
  rewrite WriteInternal_loop_unsigned by (done || lia).
  destruct (decide (v < 128)) as [Hsmall|Hbig].
  { eexists. split; [done|]. constructor. lia. }
  destruct fuel as [|fuel].
  { exfalso. apply Hbig. change (2 ^ (7 * Z.of_nat 1)) with 128 in Hv. lia. }
  destruct (IH (v / 128)) as (bs & Hbs & Henc); [|lia|].
  { replace (7 * Z.of_nat (S (S fuel))) with (7 * Z.of_nat (S fuel) + 7) in Hv by lia.
    rewrite Z.pow_add_r in Hv by lia. change (2 ^ 7) with 128 in Hv.
    Z.div_mod_to_equations. lia. }
  rewrite WriteInternal_loop_app, Hbs. cbn.
  eexists. split; [done|]. constructor; [lia|done].
Qed.

(** ** What an encoding looks like *)

Lemma sleb128_groups v bs :
  sleb128 v bs ->
  fits_sleb_groups (Z.of_nat (length bs)) v /\
  forall m, 0 < m < Z.of_nat (length bs) -> ~ fits_sleb_groups m v.
Proof.
  unfold fits_sleb_groups.
  induction 1 as [v Hv|v bs Hv Henc [IHfit IHmin]].
  - split; [cbn; lia|]. cbn. lia.
  - assert (0 < length bs)%nat as Hlen by (destruct Henc; cbn; lia).
    cbn [length]. split.
    + replace (7 * Z.of_nat (S (length bs)) - 1) with (7 * Z.of_nat (length bs) - 1 + 7) by lia.
      rewrite Z.pow_add_r by lia. change (2 ^ 7) with 128.
      Z.div_mod_to_equations. lia.
    + intros m Hm Hfit. destruct (decide (m = 1)) as [->|Hm1].
      { apply Hv. change (2 ^ (7 * 1 - 1)) with 64 in Hfit. lia. }
      apply (IHmin (m - 1)); [lia|].
      replace (7 * m - 1) with (7 * (m - 1) - 1 + 7) in Hfit by lia.
      rewrite Z.pow_add_r in Hfit by lia. change (2 ^ 7) with 128 in Hfit.
      Z.div_mod_to_equations. lia.
Qed.

Lemma sleb128_shape v bs :
  sleb128 v bs ->
  exists init b, bs = init ++ [b] /\
    Forall (fun x => 128 <= x < 256) init /\
    0 <= b < 128 /\ Z.testbit b 6 = (v <? 0).
Proof.
  induction 1 as [v Hv|v bs Hv Henc (init & b & -> & Hinit & Hb & Hsign)].
  - exists [], (v mod 128). split; [done|]. split; [constructor|].
    assert (0 <= v mod 128 < 128) as Hp by (apply Z.mod_pos_bound; lia).
    split; [done|]. rewrite sign_bit_of_part by done.
    destruct (Z.ltb_spec v 0), (Z.ltb_spec (v mod 128) 64); try done;
      exfalso; Z.div_mod_to_equations; lia.
  - exists ((v mod 128 + 128) :: init), b. split; [done|].
    assert (0 <= v mod 128 < 128) as Hp by (apply Z.mod_pos_bound; lia).
    split; [constructor; [lia|done]|]. split; [done|]. rewrite Hsign.
    destruct (Z.ltb_spec (v / 128) 0), (Z.ltb_spec v 0); try done;
      exfalso; Z.div_mod_to_equations; lia.
Qed.

(** ** The reader's loop on what the writer wrote *)

Ltac closed_consts :=
  repeat match goal with
  | |- context [2 ^ ?n] =>
      let x := eval vm_compute in (2 ^ n) in progress change (2 ^ n) with x
  | |- context [Z.shiftl 1 ?n] =>
      let x := eval vm_compute in (Z.shiftl 1 n) in progress change (Z.shiftl 1 n) with x
  | H : context [2 ^ ?n] |- _ =>
      let x := eval vm_compute in (2 ^ n) in progress change (2 ^ n) with x in H
  end.

(** Case analysis on the shift count. *)
Ltac each_shift Hs s tac :=
  let H := fresh in
  pose proof Hs as H; cbn in H; decompose [or] H; try done; subst s;
  closed_consts; tac.

Lemma sign_bits_value s :
  In s shift_counts -> s <> 63 ->
  static_cast uint64_t (Z.lnot (static_cast uint64_t (Z.shiftl 1 (s + 7)) - 1))
  = (2 ^ (57 - s) - 1) * 2 ^ (s + 7).
Proof. intros Hs Hne. each_shift Hs s ltac:(by vm_compute). Qed.

(** Below the width of the type the shift is the shift of C++. *)
Lemma shift_left_small T x s :
  0 <= s < bit_width T ->
  shift_left (make_unsigned T) x s =
    static_cast (make_unsigned T) (Z.shiftl x s).
Proof.
  intros Hs. unfold shift_left.
  replace (bit_width (make_unsigned T)) with (bit_width T) by (by destruct T).
  by rewrite Z.mod_small.
Qed.

(** Encodings that go on behind the [ceil (w / 7)] bytes of a value: the
    reader returns at the first byte without the bit for more data, with
    the value the 64-bit targets compute. *)
Lemma ReadInternal_on_long_encodings :
  ReadInternal false int32_t (MkReadStream [0x81; 0x80; 0x80; 0x80; 0x80; 0x01] 0)
    = Ok (9, MkReadStream [0x81; 0x80; 0x80; 0x80; 0x80; 0x01] 6) /\
  ReadInternal false int64_t (MkReadStream [0x81; 0x80; 0x80; 0x80; 0x80; 0x01] 0)
    = Ok (34359738369, MkReadStream [0x81; 0x80; 0x80; 0x80; 0x80; 0x01] 6) /\
  ReadInternal true int32_t
    (MkReadStream [0x07; 0x80; 0x80; 0x80; 0x80; 0x80; 0x00] 1)
    = Ok (0, MkReadStream [0x07; 0x80; 0x80; 0x80; 0x80; 0x80; 0x00] 7) /\
  ReadInternal false uint64_t
    (MkReadStream [0x81; 0x80; 0x80; 0x80; 0x80; 0x80; 0x80; 0x80; 0x80; 0x80;
                   0x41] 0)
    = Ok (4161,
          MkReadStream [0x81; 0x80; 0x80; 0x80; 0x80; 0x80; 0x80; 0x80; 0x80;
                        0x80; 0x41] 11).
Proof. by vm_compute. Qed.

(** [ReadInternal] with the cursor in the buffer, at the offset [n]. *)
Lemma ReadInternal_at DEBUG T buffer (n : nat) :
  ReadInternal DEBUG T (MkReadStream buffer n) =
    '(c, b, r, s) ← ReadInternal_loop DEBUG T (drop n buffer) n 0 0;
    Ok (static_cast T (Z.lor r (ReadInternal_sign_bits T b s)),
        MkReadStream buffer c).
Proof.
  unfold ReadInternal, bytes_from. cbn [buffer_ current_].
  replace (Z.of_nat n <? 0) with false by (symmetry; apply Z.ltb_ge; lia).
  by rewrite Nat2Z.id.
Qed.

Lemma ReadInternal_loop_sleb128 DEBUG v bs rest c r s :
  sleb128 v bs -> In s shift_counts ->
  0 <= r < 2 ^ s ->
  - 2 ^ (63 - s) <= v < 2 ^ (63 - s) ->
  exists b r' s',
    ReadInternal_loop DEBUG int64_t (bs ++ rest) c r s =
      Ok (c + Z.of_nat (length bs), b, r', s') /\
    static_cast int64_t (Z.lor r' (ReadInternal_sign_bits int64_t b s')) =
      r + v * 2 ^ s.
Proof.
  intros Henc. revert c r s.
  induction Henc as [v Hv|v bs Hv Henc IH]; intros c r s Hs Hr Hrange.
  - assert (0 <= v mod 128 < 128) as Hp by (apply Z.mod_pos_bound; lia).
    cbn [app ReadInternal_loop].
    destruct (more_data_mask_of_last _ Hp) as [-> ->].
    assert (0 <= s < 64) as Hs64 by (cbn in Hs; lia).
    rewrite (shift_left_small int64_t) by (cbn; lia).
    cbn [Z.eqb negb].
    do 3 eexists. split; [f_equal; f_equal; f_equal; f_equal; cbn; lia|].
    unfold ReadInternal_sign_bits. rewrite sign_mask_clear by done.
    rewrite (Z.shiftl_mul_pow2 (v mod 128)) by lia.
    cbn [is_signed make_unsigned andb].
    unfold static_cast_uint8_t, kDataBitsPerByte.
    rewrite (Z.mod_small (s + 7)) by lia.
    destruct (Z.ltb_spec (v mod 128) 64) as [Hpos|Hneg]; cbn [negb andb].
    + assert (v mod 128 = v) as Heq by (Z.div_mod_to_equations; lia).
      rewrite Heq in Hp, Hpos |- *.
      rewrite Z.lor_0_r. unfold static_cast at 2. cbn [is_signed bit_width].
      rewrite (Z.mod_small (v * 2 ^ s)) by (each_shift Hs s lia).
      rewrite lor_disjoint by lia.
      unfold static_cast; cbn [is_signed bit_width].
      each_shift Hs s ltac:(Z.div_mod_to_equations; lia).
    + assert (v mod 128 = v + 128) as Heq by (Z.div_mod_to_equations; lia).
      rewrite Heq in Hp, Hneg |- *.
      destruct (decide (s = 63)) as [->|Hs63].
      * assert (v = -1) as -> by (closed_consts; lia).
        closed_consts. change (70 <? bit_width int64_t) with false. cbv iota.
        rewrite Z.lor_0_r.
        change (static_cast uint64_t ((-1 + 128) * 9223372036854775808))
          with (1 * 2 ^ 63).
        rewrite lor_disjoint by lia.
        unfold static_cast; cbn [is_signed bit_width]. closed_consts.
        Z.div_mod_to_equations; lia.
      * replace (s + 7 <? bit_width int64_t) with true
          by (symmetry; apply Z.ltb_lt; each_shift Hs s ltac:(cbn; lia)).
        rewrite sign_bits_value by done.
        unfold static_cast at 2. cbn [is_signed bit_width].
        rewrite (Z.mod_small ((v + 128) * 2 ^ s)) by (each_shift Hs s lia).
        rewrite (lor_disjoint r) by lia.
        rewrite lor_disjoint by (each_shift Hs s lia).
        unfold static_cast; cbn [is_signed bit_width].
        each_shift Hs s ltac:(Z.div_mod_to_equations; lia).
  - assert (0 <= v mod 128 < 128) as Hp by (apply Z.mod_pos_bound; lia).
    assert (In (s + 7) shift_counts /\ s <> 63) as [Hs' Hs63].
    { split; [|intros ->; closed_consts; lia].
      each_shift Hs s ltac:(try (cbn; tauto)). exfalso. lia. }
    assert (0 <= s < 57) as Hs57 by (cbn in Hs; lia).
    cbn [app ReadInternal_loop].
    destruct (more_data_mask_of_more _ Hp) as [Hmore ->].
    rewrite (shift_left_small int64_t) by (cbn; lia).
    apply Z.eqb_neq in Hmore. rewrite Hmore. cbn [negb].
    rewrite Z.shiftl_mul_pow2 by lia.
    unfold static_cast_uint8_t, kDataBitsPerByte.
    rewrite (Z.mod_small (s + 7)) by lia.
    unfold static_cast at 1. cbn [is_signed make_unsigned bit_width].
    rewrite (Z.mod_small (v mod 128 * 2 ^ s)) by (each_shift Hs s lia).
    rewrite lor_disjoint by lia.
    destruct (IH (c + 1) (r + v mod 128 * 2 ^ s) (s + 7)) as (b & r' & s' & Hloop & Hval);
      [done| |..].
    { each_shift Hs s lia. }
    { each_shift Hs s ltac:(Z.div_mod_to_equations; lia). }
    exists b, r', s'. rewrite Hloop. split; [f_equal; f_equal; f_equal; f_equal; cbn; lia|].
    rewrite Hval.
    each_shift Hs s ltac:(Z.div_mod_to_equations; lia).
Qed.

(** C5.  For every value [v] of the 64-bit signed type, [Write] appends an
    encoding [bs] from which [Read] returns [v] again, leaving the stream
    right behind [bs]; the length of [bs] is the least number of 7-bit groups
    that hold [v] with its sign; every byte but the last has the high bit
    set, the last has it clear, and bit 6 of the last byte is set exactly
    when [v] is negative. *)
Theorem sleb128_round_trip (DEBUG : bool) (v : Z) (st rest : list Z) :
  - 2 ^ 63 <= v < 2 ^ 63 ->
  exists bs,
    Write int64_t v st = Ok (st ++ bs) /\
    Read DEBUG int64_t (MkReadStream (st ++ bs ++ rest) (length st)) =
      Ok (v, MkReadStream (st ++ bs ++ rest) (length st + length bs)) /\
    fits_sleb_groups (Z.of_nat (length bs)) v /\
    (forall m, 0 < m < Z.of_nat (length bs) -> ~ fits_sleb_groups m v) /\
    exists init b, bs = init ++ [b] /\
      Forall (fun x => 128 <= x < 256) init /\
      0 <= b < 128 /\ Z.testbit b 6 = (v <? 0).
Proof.
  intros Hv.
  destruct (WriteInternal_loop_sleb128 int64_t (WriteInternal_fuel int64_t) v)
    as (bs & Hbs & Henc);
    [done| |change (WriteInternal_fuel int64_t) with 10%nat; lia|].
  { unfold fits_sleb_groups. change (WriteInternal_fuel int64_t) with 10%nat.
    change (2 ^ (7 * Z.of_nat 10 - 1)) with (2 ^ 63 * 64). lia. }
  exists bs. split.
  { unfold Write, WriteInternal. cbn [is_signed].
    assert (static_cast int64_t v = v) as ->.
    { unfold static_cast. cbn [is_signed bit_width]. closed_consts.
      Z.div_mod_to_equations. lia. }
    by rewrite WriteInternal_loop_app, Hbs. }
  split.
  { unfold Read. cbn [is_signed]. rewrite ReadInternal_at, drop_app_length.
    destruct (ReadInternal_loop_sleb128 DEBUG v bs rest (length st) 0 0 Henc)
      as (b & r' & s' & Hloop & Hval); [cbn; tauto|lia|cbn; lia|].
    rewrite Hloop. cbv beta iota delta [mbind outcome_bind].
    rewrite Hval, Z.mul_1_r, Z.add_0_l. do 2 f_equal. }
  destruct (sleb128_groups v bs Henc) as [Hfit Hmin].
  split; [done|]. split; [done|]. by apply sleb128_shape.
Qed.

Lemma sleb128_round_trip_witness :
  - 2 ^ 63 <= -65 < 2 ^ 63 /\
  exists bs,
    Write int64_t (-65) [7] = Ok ([7] ++ bs) /\
    Read true int64_t (MkReadStream ([7] ++ bs ++ [9]) (length [7])) =
      Ok (-65, MkReadStream ([7] ++ bs ++ [9]) (length [7] + length bs)) /\
    fits_sleb_groups (Z.of_nat (length bs)) (-65) /\
    (forall m, 0 < m < Z.of_nat (length bs) -> ~ fits_sleb_groups m (-65)) /\
    exists init b, bs = init ++ [b] /\
      Forall (fun x => 128 <= x < 256) init /\
      0 <= b < 128 /\ Z.testbit b 6 = (-65 <? 0).
Proof.
  split; [lia|]. apply (sleb128_round_trip true (-65) [7] [9]). lia.
Defined.

(** ** The length prefix *)

Lemma uleb128_length v bs : uleb128 v bs -> Z.of_nat (length bs) = uleb_len v.
Proof.
  unfold uleb_len. induction 1 as [v Hv|v bs Hv Henc IH].
  - destruct (decide (v = 0)) as [->|Hne]; [done|].
    assert (Z.log2 v < 7) by (apply Z.log2_lt_pow2; lia).
    pose proof (Z.log2_nonneg v). cbn [length].
    Z.div_mod_to_equations. lia.
  - cbn [length]. rewrite Nat2Z.inj_succ, IH.
    change 128 with (2 ^ 7) at 1.
    rewrite <- (Z.shiftr_div_pow2 v 7), Z.log2_shiftr by lia.
    assert (7 <= Z.log2 v) by (apply Z.log2_le_pow2; lia).
    Z.div_mod_to_equations. lia.
Qed.

Lemma WriteUnsigned_intptr_t DEBUG n st :
  0 <= n < 2 ^ 63 ->
  exists bs, WriteUnsigned DEBUG intptr_t n st = Ok (st ++ bs) /\ uleb128 n bs.
Proof.
  intros Hn.
  destruct (WriteInternal_loop_uleb128 uint64_t (WriteInternal_fuel uint64_t) n)
    as (bs & Hbs & Henc);
    [done| |change (WriteInternal_fuel uint64_t) with 10%nat; lia|].
  { change (WriteInternal_fuel uint64_t) with 10%nat.
    change (2 ^ (7 * Z.of_nat 10)) with (2 ^ 63 * 128). lia. }
  exists bs. split; [|done].
  unfold WriteUnsigned, WriteInternal, intptr_t, bit_cast.
  cbn [is_unsigned is_signed negb make_unsigned].
  assert (static_cast int64_t n = n) as ->.
  { unfold static_cast. cbn [is_signed bit_width]. closed_consts.
    Z.div_mod_to_equations. lia. }
  assert (static_cast uint64_t n = n) as ->.
  { unfold static_cast. cbn [is_signed bit_width]. closed_consts.
    Z.div_mod_to_equations. lia. }
  unfold ASSERT. replace (0 <=? n) with true by (symmetry; apply Z.leb_le; lia).
  rewrite WriteInternal_loop_app, Hbs. by destruct DEBUG.
Qed.

Lemma deref_store_eq {A} (σ : Store A) p a :
  is_Some (deref σ p) -> deref (store σ p a) p = Some a.
Proof.
  destruct p as [|i]; cbn; intros [x Hx]; [done|].
  apply list_lookup_insert_eq. by eapply lookup_lt_Some.
Qed.

Lemma deref_lt_length {A} (σ : Store A) p a :
  deref σ p = Some a -> (0 < p <= length σ)%nat.
Proof.
  destruct p as [|i]; cbn; [done|]. intros H%lookup_lt_Some. lia.
Qed.

Lemma deref_take {A} (σ : Store A) n p :
  (p <= n)%nat -> deref (take n σ) p = deref σ p.
Proof. destruct p as [|i]; cbn; [done|]. intros. apply lookup_take_lt. lia. Qed.

Lemma store_store {A} (σ : Store A) p a b :
  store (store σ p a) p b = store σ p b.
Proof. destruct p as [|i]; cbn; [done|]. apply list_insert_insert_eq. Qed.

Lemma take_store {A} (σ : Store A) n p a :
  (p <= n)%nat -> take n (store σ p a) = store (take n σ) p a.
Proof. destruct p as [|i]; cbn; [done|]. intros. apply take_insert_lt. lia. Qed.

Lemma on_stream_Ok stream write σ st st' :
  deref σ stream = Some st -> write st = Ok st' ->
  on_stream stream write σ = (Ok tt, store σ stream st').
Proof. intros Hst Hw. unfold on_stream. by rewrite Hst, Hw. Qed.

(** What a block under [WRITE_BYTECOUNT] leaves behind. *)
Lemma WRITE_BYTECOUNT_spec (DEBUG : bool) (σ σ' : Streams) (stream : ptr)
    (enclosing payload : WriteStream) (rest : ptr -> M unit) :
  deref σ stream = Some enclosing ->
  rest (S (length σ)) (σ ++ [WriteStream_new]) = (Ok tt, σ') ->
  take (length σ) σ' = σ ->
  deref σ' (S (length σ)) = Some payload ->
  Z.of_nat (length payload) < 2 ^ 63 ->
  exists prefix,
    WRITE_BYTECOUNT DEBUG stream rest σ =
      (Ok stream, store σ stream (enclosing ++ prefix ++ payload)) /\
    uleb128 (Z.of_nat (length payload)) prefix /\
    Z.of_nat (length (enclosing ++ prefix ++ payload)) =
      Z.of_nat (length enclosing)
      + (uleb_len (Z.of_nat (length payload)) + Z.of_nat (length payload)) /\
    drop (length enclosing + length prefix) (enclosing ++ prefix ++ payload)
      = payload.
Proof.
  intros Hstream Hrest Htake Hpayload Hlen.
  destruct (WriteUnsigned_intptr_t DEBUG (Z.of_nat (length payload)) enclosing)
    as (prefix & Hprefix & Henc); [lia|].
  pose proof (deref_lt_length _ _ _ Hstream) as Hlt.
  assert (deref σ' stream = Some enclosing) as Hstream'.
  { rewrite <- Hstream, <- Htake at 1. symmetry. apply deref_take. lia. }
  exists prefix. split; [|split; [done|split]].
  - unfold WRITE_BYTECOUNT, PushBytecountFrontScope_ctor,
      PushBytecountFrontScope_dtor.
    cbv beta iota delta [mbind M_bind mret M_ret]. rewrite Hstream.
    cbn [alloc]. rewrite Hrest. cbn [new_stream_ old_stream_].
    unfold stream_buffer. rewrite Hpayload.
    unfold WasmTrace. cbv beta iota delta [mbind M_bind mret M_ret].
    unfold bytes_written at 1.
    rewrite (on_stream_Ok _ _ _ _ _ Hstream' Hprefix).
    erewrite on_stream_Ok; [|by apply deref_store_eq|done].
    unfold stream_leaves_stack, WriteBytes, bytes_written. cbn [pred].
    rewrite store_store, take_store, Htake by lia.
    by rewrite Nat2Z.id, take_ge, <- app_assoc by lia.
  - rewrite !length_app, !Nat2Z.inj_add, (uleb128_length _ _ Henc). lia.
  - by rewrite app_assoc, <- length_app, drop_app_length.
Qed.

(** C3.  A scoped length-prefix sub-emission: when the rest of the block
    writes the payload to the sub-stream and leaves the streams that were
    there before as they were, the block leaves the enclosing stream with
    the ULEB128 of the payload's length and the payload appended, so longer
    by [uleb_len n + n] bytes, the last [n] of which are the payload; the
    sub-stream is gone and the variable [stream] is the enclosing stream
    again. *)
Theorem length_prefix_law (DEBUG : bool) (σ σ' : Streams) (stream : ptr)
    (enclosing payload : WriteStream) (rest : ptr -> M unit) :
  deref σ stream = Some enclosing ->
  rest (S (length σ)) (σ ++ [WriteStream_new]) = (Ok tt, σ') ->
  take (length σ) σ' = σ ->
  deref σ' (S (length σ)) = Some payload ->
  Z.of_nat (length payload) < 2 ^ 63 ->
  exists prefix,
    WRITE_BYTECOUNT DEBUG stream rest σ =
      (Ok stream, store σ stream (enclosing ++ prefix ++ payload)) /\
    uleb128 (Z.of_nat (length payload)) prefix /\
    Z.of_nat (length (enclosing ++ prefix ++ payload)) =
      Z.of_nat (length enclosing)
      + (uleb_len (Z.of_nat (length payload)) + Z.of_nat (length payload)) /\
    drop (length enclosing + length prefix) (enclosing ++ prefix ++ payload)
      = payload.
Proof. apply WRITE_BYTECOUNT_spec. Qed.

Lemma length_prefix_law_witness :
  exists prefix,
    WRITE_BYTECOUNT true 1%nat
      (fun stream => WRITE_UNSIGNED true intptr_t stream 23;;
                     WRITE_UNSIGNED true intptr_t stream 98) [[7]] =
      (Ok 1%nat, store [[7]] 1%nat ([7] ++ prefix ++ [23; 98])) /\
    uleb128 (Z.of_nat (length [23; 98])) prefix /\
    Z.of_nat (length ([7] ++ prefix ++ [23; 98])) =
      Z.of_nat (length [7])
      + (uleb_len (Z.of_nat (length [23; 98])) + Z.of_nat (length [23; 98])) /\
    drop (length [7] + length prefix) ([7] ++ prefix ++ [23; 98]) = [23; 98].
Proof.
  apply (length_prefix_law true [[7]] [[7]; [23; 98]] 1%nat [7] [23; 98]);
    [reflexivity|reflexivity|reflexivity|reflexivity|by vm_compute].
Defined.

(** ** Computations that append to a stream *)

Lemma store_same {A} (σ : Store A) p a : deref σ p = Some a -> store σ p a = σ.
Proof. destruct p as [|i]; cbn; [done|]. apply list_insert_id. Qed.

Lemma writes_ret stream : writes (mret tt) stream [].
Proof.
  intros σ st Hst. cbv [mret M_ret]. rewrite app_nil_r.
  by rewrite store_same.
Qed.

Lemma writes_bind m1 m2 stream bs1 bs2 :
  writes m1 stream bs1 -> writes m2 stream bs2 ->
  writes (m1;; m2) stream (bs1 ++ bs2).
Proof.
  intros H1 H2 σ st Hst. cbv beta iota delta [mbind M_bind].
  rewrite (H1 σ st Hst).
  rewrite (H2 _ (st ++ bs1)) by (by apply deref_store_eq).
  by rewrite store_store, app_assoc.
Qed.

Lemma writes_eq m stream bs bs' : bs = bs' -> writes m stream bs -> writes m stream bs'.
Proof. by intros ->. Qed.

Lemma writes_on_stream stream write bs :
  (forall st, write st = Ok (st ++ bs)) -> writes (on_stream stream write) stream bs.
Proof. intros Hw σ st Hst. by apply (on_stream_Ok _ _ _ st). Qed.

Lemma writes_WRITE_BYTE stream m :
  writes (WRITE_BYTE stream m) stream [static_cast_uint8_t m].
Proof. by apply writes_on_stream. Qed.

Lemma writes_for_each_nil {A} (body : A -> M unit) stream :
  writes (for_each [] body) stream [].
Proof. apply writes_ret. Qed.

Lemma uleb128_small v bs : 0 <= v < 128 -> uleb128 v bs -> bs = [v].
Proof. intros Hv. inversion 1; [done|lia]. Qed.

Lemma uleb128_det v bs1 bs2 : uleb128 v bs1 -> uleb128 v bs2 -> bs1 = bs2.
Proof.
  intros H1. revert bs2. induction H1 as [v Hv|v bs Hv Henc IH]; intros bs2 H2.
  - symmetry. by apply uleb128_small.
  - inversion H2 as [|? bs' ? Henc']; subst; [lia|]. f_equal. by apply IH.
Qed.

Lemma writes_WRITE_UNSIGNED_intptr_t DEBUG stream n bs :
  0 <= n < 2 ^ 63 -> uleb128 n bs ->
  writes (WRITE_UNSIGNED DEBUG intptr_t stream n) stream bs.
Proof.
  intros Hn Henc. apply writes_on_stream. intros st.
  destruct (WriteUnsigned_intptr_t DEBUG n st Hn) as (bs' & -> & Henc').
  by rewrite (uleb128_det _ _ _ Henc Henc').
Qed.

Lemma deref_alloc_new {A} (σ : Store A) a : deref (σ ++ [a]) (S (length σ)) = Some a.
Proof. cbn. apply list_lookup_middle. done. Qed.

Lemma store_alloc_new {A} (σ : Store A) a b :
  store (σ ++ [a]) (S (length σ)) b = σ ++ [b].
Proof. cbn. by rewrite insert_app_r_alt, Nat.sub_diag by lia. Qed.

Lemma writes_WRITE_BYTECOUNT DEBUG stream rest payload prefix :
  (forall stream', writes (rest stream') stream' payload) ->
  Z.of_nat (length payload) < 2 ^ 63 ->
  uleb128 (Z.of_nat (length payload)) prefix ->
  writes (WRITE_BYTECOUNT DEBUG stream rest ≫= fun _ => mret tt) stream
         (prefix ++ payload).
Proof.
  intros Hrest Hlen Hpre σ st Hst.
  destruct (WRITE_BYTECOUNT_spec DEBUG σ (σ ++ [payload]) stream st payload rest)
    as (prefix' & Hrun & Hpre' & _); try done.
  - rewrite (Hrest _ _ WriteStream_new) by apply deref_alloc_new.
    by rewrite store_alloc_new.
  - by rewrite take_app_length.
  - apply deref_alloc_new.
  - cbv beta iota delta [mbind M_bind mret M_ret]. rewrite Hrun.
    by rewrite (uleb128_det _ _ _ Hpre Hpre').
Qed.

Lemma writes_empty_section DEBUG stream {A} (body : ptr -> A -> M unit) :
  writes (WRITE_BYTECOUNT DEBUG stream (fun stream =>
            WRITE_UNSIGNED DEBUG intptr_t stream (Z.of_nat (length (@nil A)));;
            for_each [] (body stream)) ≫= fun _ => mret tt) stream [1; 0].
Proof.
  apply (writes_WRITE_BYTECOUNT DEBUG stream _ [0] [1]).
  - intros stream'. apply (writes_bind _ _ _ [0] []).
    + apply writes_WRITE_UNSIGNED_intptr_t; [done|by constructor].
    + apply writes_for_each_nil.
  - done.
  - by constructor.
Qed.

(** C2.  A module builder with no registered type and no function writes
    exactly the 17 bytes of the magic, the version and the type, function and
    code sections (ids 1, 3 and 10), each with the length prefix 1 and the
    single count 0. *)
Theorem empty_module_binary (DEBUG : bool) (B : WasmModuleBuilder)
    (σ : Streams) (stream : ptr) (st : WriteStream) :
  types_ B = [] -> functions_ B = [] ->
  deref σ stream = Some st ->
  WasmModuleBuilder_OutputBinary DEBUG B stream σ =
    (Ok tt, store σ stream
       (st ++ [0x00; 0x61; 0x73; 0x6D; 0x01; 0x00; 0x00; 0x00;
               0x01; 0x01; 0x00; 0x03; 0x01; 0x00; 0x0A; 0x01; 0x00])).
Proof.
  intros Htypes Hfunctions Hst.
  assert (stream ≠ nullptr) as Hnn by (by intros ->).
  unfold WasmModuleBuilder_OutputBinary.
  unfold ASSERT. rewrite (bool_decide_eq_true_2 _ Hnn).
  replace (lift _) with (mret tt : M unit) by (by destruct DEBUG).
  revert σ st Hst. 
  change (writes
    (mret ();; WRITE_BYTE stream 0;; WRITE_BYTE stream 97;;
     WRITE_BYTE stream 115;; WRITE_BYTE stream 109;; WRITE_BYTE stream 1;;
     WRITE_BYTE stream 0;; WRITE_BYTE stream 0;; WRITE_BYTE stream 0;;
     WasmModuleBuilder_OutputTypeSection DEBUG B stream;;
     WasmModuleBuilder_OutputFunctionSection DEBUG B stream;;
     WasmModuleBuilder_OutputCodeSection DEBUG B stream) stream
    ([] ++ [0] ++ [97] ++ [115] ++ [109] ++ [1] ++ [0] ++ [0] ++ [0]
        ++ ([1] ++ [1; 0]) ++ ([3] ++ [1; 0]) ++ ([10] ++ [1; 0]))).
  unfold WasmModuleBuilder_OutputTypeSection,
    WasmModuleBuilder_OutputFunctionSection,
    WasmModuleBuilder_OutputCodeSection.
  rewrite Htypes, Hfunctions.
  repeat first
    [ apply writes_bind
    | apply writes_ret
    | apply writes_WRITE_BYTE
    | apply writes_empty_section ].
Qed.

Lemma empty_module_binary_witness :
  WasmModuleBuilder_OutputBinary true (WasmModuleBuilder_new []) 1%nat
    [WriteStream_new] =
    (Ok tt, store [WriteStream_new] 1%nat
       (WriteStream_new
          ++ [0x00; 0x61; 0x73; 0x6D; 0x01; 0x00; 0x00; 0x00;
              0x01; 0x01; 0x00; 0x03; 0x01; 0x00; 0x0A; 0x01; 0x00])).
Proof.
  apply (empty_module_binary true (WasmModuleBuilder_new []) [WriteStream_new]
           1%nat WriteStream_new); reflexivity.
Defined.

(** ** Heap types and reference types *)

Lemma static_cast_in_range T v : in_range T (static_cast T v).
Proof.
  unfold in_range, static_cast.
  destruct T; cbn [is_signed bit_width]; closed_consts;
    Z.div_mod_to_equations; lia.
Qed.

Lemma static_cast_id T v : in_range T v -> static_cast T v = v.
Proof.
  unfold in_range, static_cast.
  destruct T; cbn [is_signed bit_width]; closed_consts; intros;
    Z.div_mod_to_equations; lia.
Qed.

Lemma sleb128_det v bs1 bs2 : sleb128 v bs1 -> sleb128 v bs2 -> bs1 = bs2.
Proof.
  intros H1. revert bs2. induction H1 as [v Hv|v bs Hv Henc IH]; intros bs2 H2.
  - by inversion H2.
  - inversion H2 as [|? bs' ? Henc']; subst; [done|]. f_equal. by apply IH.
Qed.

Lemma Write_int32_t v st :
  exists bs, Write int32_t v st = Ok (st ++ bs) /\
             sleb128 (static_cast int32_t v) bs.
Proof.
  pose proof (static_cast_in_range int32_t v) as Hr.
  unfold in_range in Hr. cbn [is_signed bit_width] in Hr. closed_consts.
  destruct (WriteInternal_loop_sleb128 int32_t (WriteInternal_fuel int32_t)
              (static_cast int32_t v))
    as (bs & Hbs & Henc);
    [done| |change (WriteInternal_fuel int32_t) with 5%nat; lia|].
  { unfold fits_sleb_groups. change (WriteInternal_fuel int32_t) with 5%nat.
    change (2 ^ (7 * Z.of_nat 5 - 1)) with 17179869184. lia. }
  exists bs. split; [|done].
  unfold Write, WriteInternal. cbn [is_signed].
  by rewrite WriteInternal_loop_app, Hbs.
Qed.

Lemma writes_WRITE_SIGNED_int32_t stream v bs :
  sleb128 (static_cast int32_t v) bs ->
  writes (WRITE_SIGNED int32_t stream v) stream bs.
Proof.
  intros Henc. apply writes_on_stream. intros st.
  destruct (Write_int32_t v st) as (bs' & -> & Henc').
  by rewrite (sleb128_det _ _ _ Henc Henc').
Qed.

Lemma sleb128_one_byte v : -64 <= v < 64 -> sleb128 v [v mod 128].
Proof. by constructor. Qed.

Lemma writes_lift_bind {A} (o : outcome A) (a : A) (k : A -> M unit) stream bs :
  o = Ok a -> writes (k a) stream bs -> writes (lift o ≫= k) stream bs.
Proof. intros -> Hk σ st Hst. cbv beta iota delta [mbind M_bind lift]. by apply Hk. Qed.

(** C8.  Binary emission of the heap type [Any] stops with the fatal error
    and leaves the streams as they were, while its text serialisation is the
    symbol [any]; every other kind of heap type writes the SLEB128 encoding
    of its tag (of the index of its definition type, for a type index) and
    returns. *)
Theorem HeapType_binary_tag (zone : Zone) (this stream : ptr) (h : HeapType)
    (σ : Streams) (st : WriteStream) :
  get_HeapType zone this = Ok h ->
  deref σ stream = Some st ->
  match HeapType_kind_ h with
  | kAny =>
      HeapType_OutputBinary zone this stream σ =
        (Abort (FATAL "any/anyref not implemented by V8"), σ) /\
      HeapType_Serialize zone this = Ok (SExpSymbol "any")
  | kTypeidx =>
      forall d, get_DefType zone (def_type_ h) = Ok d ->
      exists bs, sleb128 (static_cast int32_t (DefType_index d)) bs /\
        HeapType_OutputBinary zone this stream σ =
          (Ok tt, store σ stream (st ++ bs))
  | kind =>
      exists tag bs, abstract_heap_tag kind = Some tag /\ sleb128 tag bs /\
        HeapType_OutputBinary zone this stream σ =
          (Ok tt, store σ stream (st ++ bs))
  end.
Proof.
  intros Hh Hst. unfold HeapType_OutputBinary, HeapType_Serialize. rewrite Hh.
  cbv beta iota delta [mbind M_bind outcome_bind lift].
  destruct (HeapType_kind_ h).
  1, 2, 5, 6:
    eexists _, _; (split; [reflexivity|]);
    (split; [by apply sleb128_one_byte|]);
    (apply writes_WRITE_SIGNED_int32_t; [|done]);
    rewrite static_cast_id by (unfold in_range; cbn; lia);
    by apply sleb128_one_byte.
  - intros d ->. destruct (Write_int32_t (DefType_index d) st) as (bs & Hbs & Henc).
    exists bs. split; [done|]. by apply writes_WRITE_SIGNED_int32_t.
  - done.
Qed.

(** C4, as amended.  A reference type on a shorthand row is rendered in text
    as the symbol of the row; in binary it is the single byte that encodes
    the row's tag, except for the nullable reference to [Any], whose binary
    emission stops with the fatal error of the heap type [Any] and writes
    nothing. *)
Theorem RefType_shorthand_cases (zone : Zone) (nullable : bool) (heap_type : ptr)
    (h : HeapType) (text : string) (tag : Z) :
  get_HeapType zone heap_type = Ok h ->
  shorthand_row nullable (HeapType_kind_ h) = Some (text, tag) ->
  RefType_Serialize zone nullable heap_type = Ok (SExpSymbol text) /\
  (HeapType_kind_ h <> kAny ->
   exists b, sleb128 tag [b] /\
     forall stream,
       writes (RefType_OutputBinary zone nullable heap_type stream) stream [b]) /\
  (HeapType_kind_ h = kAny ->
   forall stream σ st, deref σ stream = Some st ->
     RefType_OutputBinary zone nullable heap_type stream σ =
       (Abort (FATAL "any/anyref not implemented by V8"), σ)).
Proof.
  intros Hh Hrow.
  unfold RefType_Serialize, RefType_OutputBinary, HeapType_OutputBinary.
  rewrite Hh. cbv beta iota delta [mbind M_bind outcome_bind lift].
  destruct nullable, (HeapType_kind_ h); try done; cbn in Hrow;
    injection Hrow as <- <-; cbn [negb andb bool_decide decide_rel];
    (split; [done|]); (split; [intros Hne|intros Heq]); try done.
  all: eexists; (split; [by apply sleb128_one_byte|]); intros stream;
    apply writes_WRITE_SIGNED_int32_t;
    rewrite static_cast_id by (unfold in_range; cbn; lia);
    by apply sleb128_one_byte.
Qed.

(** C4 as stated fails on [anyref]: the binary emission aborts. *)
Lemma anyref_binary_not_shorthand :
  ~ emits_shorthand (zone_ (WasmModuleBuilder_new []))
      true (any_ (WasmModuleBuilder_new [])).
Proof.
  intros H.
  destruct (H (MkHeapType kAny nullptr) "anyref" (-0x12) eq_refl eq_refl)
    as (_ & b & _ & Hw).
  specialize (Hw 1%nat [WriteStream_new] WriteStream_new eq_refl).
  vm_compute in Hw. discriminate Hw.
Qed.

Lemma RefType_shorthand_cases_witness :
  RefType_Serialize (zone_ (WasmModuleBuilder_new [])) true
    (func_ (WasmModuleBuilder_new [])) = Ok (SExpSymbol "funcref") /\
  forall stream,
    writes (RefType_OutputBinary (zone_ (WasmModuleBuilder_new [])) true
              (func_ (WasmModuleBuilder_new [])) stream) stream [0x70].
Proof.
  destruct (RefType_shorthand_cases (zone_ (WasmModuleBuilder_new [])) true
              (func_ (WasmModuleBuilder_new [])) (MkHeapType kFunc nullptr)
              "funcref" (-0x10) eq_refl eq_refl) as (Htext & Hbin & _).
  split; [exact Htext|].
  destruct (Hbin ltac:(discriminate)) as (b & Henc & Hw).
  pose proof (sleb128_det _ _ _ Henc (sleb128_one_byte (-0x10) ltac:(lia)))
    as [= ->].
  exact Hw.
Defined.

Lemma HeapType_binary_tag_witness :
  HeapType_OutputBinary (zone_ (WasmModuleBuilder_new []))
    (any_ (WasmModuleBuilder_new [])) 1%nat [WriteStream_new] =
    (Abort (FATAL "any/anyref not implemented by V8"), [WriteStream_new]) /\
  HeapType_Serialize (zone_ (WasmModuleBuilder_new []))
    (any_ (WasmModuleBuilder_new [])) = Ok (SExpSymbol "any").
Proof.
  apply (HeapType_binary_tag (zone_ (WasmModuleBuilder_new []))
           (any_ (WasmModuleBuilder_new [])) 1%nat (MkHeapType kAny nullptr)
           [WriteStream_new] WriteStream_new); reflexivity.
Defined.

(** ** Functions, instructions and the factories *)

Lemma writes_for_each {A} (l : list A) (body : A -> M unit) stream
    (bss : list (list Z)) :
  Forall2 (fun x bs => writes (body x) stream bs) l bss ->
  writes (for_each l body) stream (concat bss).
Proof.
  induction 1 as [|x bs l bss Hx _ IH]; cbn [for_each concat].
  - apply writes_ret.
  - by apply writes_bind.
Qed.

(** What [Function::OutputBinary] writes: the count of all of [locals_],
    and a group for each of them, of whatever kind. *)
Lemma Function_OutputBinary_all_locals DEBUG zone this f stream
    (count : list Z) (types : list (list Z)) (body : list Z) :
  get_Function zone this = Ok f ->
  Z.of_nat (length (locals_ f)) < 2 ^ 63 ->
  uleb128 (Z.of_nat (length (locals_ f))) count ->
  Forall2 (fun local bs => exists l,
             get_Local zone local = Ok l /\
             writes (ValueType_OutputBinary DEBUG zone (Local_type_ l) stream)
                    stream bs) (locals_ f) types ->
  (if bool_decide (body_ f ≠ nullptr)
   then writes (InstructionList_OutputBinary DEBUG zone (body_ f) stream)
               stream body
   else body = []) ->
  writes (Function_OutputBinary DEBUG zone this stream) stream
    (count ++ concat (map (fun bs => 1 :: bs) types) ++ body ++ [0x0B]).
Proof.
  intros Hf Hlen Hcount Htypes Hbody. unfold Function_OutputBinary.
  eapply writes_lift_bind; [done|].
  apply writes_bind; [by apply writes_WRITE_UNSIGNED_intptr_t; [lia|]|].
  apply writes_bind; [|apply writes_bind; [|apply writes_WRITE_BYTE]].
  - apply writes_for_each. apply Forall2_fmap_r.
    eapply Forall2_impl; [done|]. cbn. intros local bs (l & Hl & Hw).
    apply (writes_bind _ _ _ [1] bs); [apply writes_WRITE_BYTE|].
    by eapply writes_lift_bind.
  - destruct (bool_decide _); [done|]. subst body. apply writes_ret.
Qed.

(** What [If::Serialize] returns: the [else] symbol and the else branch are
    in the list headed by [then], and the third element is an empty list. *)
Lemma If_Serialize_shape zone fuel then_ otherwise_ t e :
  InstructionList_Serialize zone fuel then_ = Ok t ->
  InstructionList_Serialize zone fuel otherwise_ = Ok e ->
  If_Serialize zone fuel then_ otherwise_ =
    Ok (SExpList [SExpSymbol "if";
                  SExpList [SExpSymbol "then"; t; SExpSymbol "else"; e];
                  SExpList []]) /\
  If_Serialize zone fuel then_ otherwise_ <> Ok (If_text_form t e).
Proof.
  intros Ht He. unfold If_Serialize, If_Serialize_with. rewrite Ht, He.
  split; [done|]. cbn. unfold If_text_form. congruence.
Qed.

(** C1.  The function [f] has one parameter and no other local, so its
    encoding would begin with the count 0; the encoding written begins with
    the count 1 and the group [1, i32] of the parameter. *)
Theorem Function_OutputBinary_counts_param :
  ('(f, zone) ← function_with_one_param;
   fn ← get_Function zone f;
   Ok (non_param_locals zone fn,
       Function_OutputBinary true zone f 1%nat [WriteStream_new]))
  = Ok ([], (Ok tt, [[0x01; 0x01; 0x7F; 0x0B]])).
Proof. by vm_compute. Qed.

(** C7.  The text form of an [If] with empty branches is not
    [(if (then ()) (else ()))]: the list headed by [then] holds the [else]
    symbol and the else branch too, and an empty list follows it. *)
Theorem If_Serialize_misplaces_else :
  ('(i, zone) ← if_with_empty_branches; Instruction_Serialize zone 2 i)
  = Ok (SExpList [SExpSymbol "if";
                  SExpList [SExpSymbol "then"; SExpList [];
                            SExpSymbol "else"; SExpList []];
                  SExpList []]) /\
  ('(i, zone) ← if_with_empty_branches; Instruction_Serialize zone 2 i)
  <> Ok (If_text_form (SExpList []) (SExpList [])).
Proof. split; [by vm_compute|]. vm_compute. congruence. Qed.

Lemma deref_fresh_None {A} (σ : Store A) : deref σ (S (length σ)) = None.
Proof. cbn. by apply lookup_ge_None. Qed.

Lemma deref_alloc_old {A} (σ : Store A) a p o :
  deref σ p = Some o -> deref (σ ++ [a]) p = Some o.
Proof. destruct p as [|i]; cbn; [done|]. apply lookup_app_l_Some. Qed.

(** C10.  The factories of field types, heap types and reference types
    allocate one new object and leave [types_] and [functions_] as they
    are; the factories of function, struct and array types add the new
    object at the end of [types_] only, and [AddFunction] at the end of
    [functions_] only. *)
Theorem factories_frame (this : WasmModuleBuilder) (value_type def_type
    heap_type result_type field_type type : ptr) (packed_type : PackedType)
    (mut nullable : bool) (name : string) :
  let fresh (r : ptr * WasmModuleBuilder) :=
    deref (zone_ this) r.1 = None /\ is_Some (deref (zone_ r.2) r.1) /\
    (forall p o, deref (zone_ this) p = Some o -> deref (zone_ r.2) p = Some o) in
  let unchanged (r : ptr * WasmModuleBuilder) :=
    fresh r /\ types_ r.2 = types_ this /\ functions_ r.2 = functions_ this in
  let adds_type (r : ptr * WasmModuleBuilder) :=
    fresh r /\ types_ r.2 = types_ this ++ [r.1] /\
    functions_ r.2 = functions_ this in
  let adds_function (r : ptr * WasmModuleBuilder) :=
    fresh r /\ types_ r.2 = types_ this /\
    functions_ r.2 = functions_ this ++ [r.1] in
  unchanged (WasmModuleBuilder_MakeFieldType_value this value_type mut) /\
  unchanged (WasmModuleBuilder_MakeFieldType_packed this packed_type mut) /\
  unchanged (WasmModuleBuilder_MakeHeapType this def_type) /\
  unchanged (WasmModuleBuilder_MakeRefType this nullable heap_type) /\
  adds_type (WasmModuleBuilder_MakeFuncType this result_type) /\
  adds_type (WasmModuleBuilder_MakeStructType this) /\
  adds_type (WasmModuleBuilder_MakeArrayType this field_type) /\
  adds_type (WasmModuleBuilder_MakeArrayType_value this value_type mut) /\
  adds_type (WasmModuleBuilder_MakeArrayType_packed this packed_type mut) /\
  adds_function (WasmModuleBuilder_AddFunction this name type).
Proof.
  cbv zeta.
  unfold WasmModuleBuilder_MakeArrayType_value,
    WasmModuleBuilder_MakeArrayType_packed, WasmModuleBuilder_MakeArrayType.
  cbn [alloc fst snd zone_ types_ functions_ set_zone_ set_types_
    set_functions_ Add
    WasmModuleBuilder_MakeFieldType_value WasmModuleBuilder_MakeFieldType_packed
    WasmModuleBuilder_MakeHeapType WasmModuleBuilder_MakeRefType
    WasmModuleBuilder_MakeFuncType WasmModuleBuilder_MakeStructType
    WasmModuleBuilder_AddFunction].
  repeat split;
    first [ apply deref_fresh_None
          | rewrite deref_alloc_new; by eexists
          | apply deref_alloc_old
          | cbn; apply lookup_ge_None; rewrite length_app; cbn; lia
          | intros; by do 2 apply deref_alloc_old ].
Qed.

(** ** Parameters and locals *)

Lemma get_Function_deref zone p f :
  get_Function zone p = Ok f <-> deref zone p = Some (OFunction f).
Proof.
  unfold get_Function. destruct (deref zone p) as [[]|]; naive_solver.
Qed.

Lemma get_Local_deref zone p l :
  get_Local zone p = Ok l <-> deref zone p = Some (OLocal l).
Proof.
  unfold get_Local. destruct (deref zone p) as [[]|]; naive_solver.
Qed.

Lemma deref_store_ne {A} (σ : Store A) p q a :
  p <> q -> deref (store σ p a) q = deref σ q.
Proof.
  destruct p as [|i], q as [|j]; cbn; try done. intros.
  apply list_lookup_insert_ne. congruence.
Qed.

Lemma params_first_last_Param kinds :
  params_first (kinds ++ [kParam]) -> kLocal ∉ kinds.
Proof.
  intros Hpf [j Hj]%list_elem_of_lookup.
  pose proof (lookup_lt_Some _ _ _ Hj).
  specialize (Hpf (length kinds) j). rewrite list_lookup_middle in Hpf by done.
  rewrite lookup_app_l in Hpf by done. specialize (Hpf eq_refl Hj). lia.
Qed.

Lemma params_first_snoc kinds kind :
  params_first kinds -> (kind = kParam -> kLocal ∉ kinds) ->
  params_first (kinds ++ [kind]).
Proof.
  intros Hpf Hkind i j Hi Hj.
  apply lookup_app_Some in Hi as [Hi|[Hle Hi]], Hj as [Hj|[Hle' Hj]].
  - by eapply Hpf.
  - apply lookup_lt_Some in Hi. lia.
  - apply list_lookup_singleton_Some in Hi as [_ ->].
    exfalso. apply Hkind; [done|]. by eapply list_elem_of_lookup_2.
  - apply list_lookup_singleton_Some in Hi as [_ ->].
    by apply list_lookup_singleton_Some in Hj as [_ ?].
Qed.

Lemma local_kinds_last zone f kinds kind :
  local_kinds zone f (kinds ++ [kind]) ->
  locals_ f <> [] /\
  exists l, get_Local zone (List.last (locals_ f) nullptr) = Ok l /\
            Local_kind_ l = kind.
Proof.
  unfold local_kinds. intros (ps & ps' & Hps & Hp & ->)%Forall2_app_inv_r.
  apply Forall2_cons_inv_r in Hp as (p & ? & Hl & ->%Forall2_nil_inv_r & ->).
  split; [by destruct ps|]. by rewrite List.last_last.
Qed.

(** A [Param] after a [Local] trips the assertion. *)
Lemma AddLocal_Param_after_Local zone this kinds type name :
  locals_inv zone this kinds -> kLocal ∈ kinds ->
  Function_AddLocal true zone this kParam type name =
    Abort (ASSERT_FAILED AddLocal_assertion).
Proof.
  intros (f & Hf & Hkinds & Hpf) Hin.
  destruct (exists_last (l:=kinds)) as (kinds' & kind & ->).
  { intros ->. by apply elem_of_nil in Hin. }
  assert (kind = kLocal) as ->.
  { destruct kind; [done|]. exfalso.
    apply (params_first_last_Param kinds'); [done|].
    apply elem_of_app in Hin as [?|Hin%list_elem_of_singleton]; done. }
  apply local_kinds_last in Hkinds as (Hne & l & Hl & Hk).
  unfold Function_AddLocal, ASSERT. rewrite Hf.
  cbv beta iota delta [mbind outcome_bind].
  rewrite (bool_decide_eq_false_2 _ Hne), Hl, Hk. done.
Qed.

(** A call of [AddLocal] that returns keeps the order. *)
Lemma AddLocal_keeps_order zone this kinds kind type name local zone' :
  locals_inv zone this kinds ->
  Function_AddLocal true zone this kind type name = Ok (local, zone') ->
  locals_inv zone' this (kinds ++ [kind]).
Proof.
  intros (f & Hf & Hkinds & Hpf) Hadd.
  assert (kind = kParam -> kLocal ∉ kinds) as Hkind.
  { intros -> Hin.
    rewrite (AddLocal_Param_after_Local zone this kinds) in Hadd;
      [done|by exists f|done]. }
  unfold Function_AddLocal in Hadd. rewrite Hf in Hadd.
  cbv beta iota delta [mbind outcome_bind] in Hadd.
  match type of Hadd with
  | match ?a with _ => _ end = _ => destruct a as [u|] eqn:Hassert
  end; [|discriminate Hadd].
  cbn [alloc] in Hadd. injection Hadd as <- <-.
  apply get_Function_deref in Hf.
  pose proof (deref_lt_length _ _ _ Hf) as Hthis.
  eexists. split; [|split].
  - apply get_Function_deref, deref_store_eq.
    erewrite deref_alloc_old; done.
  - unfold local_kinds. cbn [locals_]. unfold Add. apply Forall2_app.
    + eapply Forall2_impl; [done|]. cbn. intros p k (l & Hl & Hk).
      exists l. split; [|done]. apply get_Local_deref in Hl.
      apply get_Local_deref. rewrite deref_store_ne by congruence.
      by apply deref_alloc_old.
    + constructor; [|constructor]. eexists.
      split;
        [apply get_Local_deref; rewrite deref_store_ne by lia;
         by rewrite deref_alloc_new|reflexivity].
  - by apply params_first_snoc.
Qed.

(** ** The arena under the operations *)

Lemma get_DefType_deref zone p d :
  get_DefType zone p = Ok d <-> deref zone p = Some (ODefType d).
Proof.
  unfold get_DefType. destruct (deref zone p) as [[]|]; naive_solver.
Qed.

Lemma get_InstructionList_deref zone p l :
  get_InstructionList zone p = Ok l <-> deref zone p = Some (OInstructionList l).
Proof.
  unfold get_InstructionList. destruct (deref zone p) as [[]|]; naive_solver.
Qed.

Abbreviation zone_steps DEBUG := (rtc (zone_step DEBUG)).

Lemma zone_steps_alloc DEBUG zone zone' o :
  (forall f, o = OFunction f -> locals_ f = []) ->
  zone_steps DEBUG zone zone' -> zone_steps DEBUG zone (zone' ++ [o]).
Proof. intros Ho Hsteps. eapply rtc_r; [done|]. by constructor. Qed.

Lemma zone_steps_store DEBUG zone zone' p o o' :
  zone_steps DEBUG zone zone' ->
  deref zone' p = Some o -> replaces o o' ->
  zone_steps DEBUG zone (store zone' p o').
Proof. intros Hsteps Hp Ho. eapply rtc_r; [done|]. by econstructor. Qed.

(** A pointer to an object that is still where it was allocated. *)
Ltac deref_alloc :=
  first [eassumption|apply deref_alloc_new|apply deref_alloc_old; deref_alloc].

(** The steps of an operation, read off the arena it returns; the two
    arguments are the rules for an allocation and for a write. *)
Ltac zone_steps_by alloc_step store_step :=
  cbn [fst snd alloc];
  repeat first
    [ done
    | eassumption
    | eapply alloc_step; [by intros; simplify_eq|]
    | eapply store_step;
        [|deref_alloc|cbn; by eauto] ].

(** An operation that went through found an object of the right class behind
    each pointer it followed. *)
Ltac zone_deref H z p :=
  let E := fresh "E" in
  destruct (deref z p) as [[]|] eqn:E;
  cbv beta iota delta [mbind outcome_bind] in H; try discriminate H.

Ltac zone_op H :=
  repeat match type of H with
  | context [get_DefType ?z ?p] =>
      unfold get_DefType in H; zone_deref H z p;
      match type of H with
      | context [match ?d with FuncType _ _ _ => _ | _ => _ end] => destruct d
      | _ => idtac
      end;
      try discriminate H
  | context [get_Function ?z ?p] => unfold get_Function in H; zone_deref H z p
  | context [get_InstructionList ?z ?p] =>
      unfold get_InstructionList in H; zone_deref H z p
  end;
  cbn [alloc] in H; injection H as <-.

Lemma FuncType_AddParam_steps DEBUG zone0 zone this param_type zone' :
  zone_steps DEBUG zone0 zone ->
  FuncType_AddParam zone this param_type = Ok zone' ->
  zone_steps DEBUG zone0 zone'.
Proof.
  unfold FuncType_AddParam. intros H0 H. zone_op H.
  zone_steps_by zone_steps_alloc zone_steps_store.
Qed.

Lemma StructType_AddField_steps DEBUG zone0 zone this field_type r :
  zone_steps DEBUG zone0 zone ->
  StructType_AddField zone this field_type = Ok r ->
  zone_steps DEBUG zone0 r.2.
Proof.
  unfold StructType_AddField. intros H0 H. zone_op H.
  zone_steps_by zone_steps_alloc zone_steps_store.
Qed.

Lemma StructType_AddField_value_steps DEBUG zone this value_type mut r :
  StructType_AddField_value zone this value_type mut = Ok r ->
  zone_steps DEBUG zone r.2.
Proof.
  unfold StructType_AddField_value. cbn [alloc].
  apply StructType_AddField_steps.
  zone_steps_by zone_steps_alloc zone_steps_store.
Qed.

Lemma StructType_AddField_packed_steps DEBUG zone this packed_type mut r :
  StructType_AddField_packed zone this packed_type mut = Ok r ->
  zone_steps DEBUG zone r.2.
Proof.
  unfold StructType_AddField_packed. cbn [alloc].
  apply StructType_AddField_steps.
  zone_steps_by zone_steps_alloc zone_steps_store.
Qed.

Lemma InstructionList_add_steps DEBUG zone0 zone this instr r :
  zone_steps DEBUG zone0 zone ->
  InstructionList_add zone this instr = Ok r -> zone_steps DEBUG zone0 r.2.
Proof.
  unfold InstructionList_add. intros H0 H. zone_op H.
  zone_steps_by zone_steps_alloc zone_steps_store.
Qed.

Lemma InstructionList_Add_steps DEBUG zone this local value r :
  InstructionList_AddLocalGet zone this local = Ok r \/
  InstructionList_AddLocalSet zone this local = Ok r \/
  InstructionList_AddInt32Add zone this = Ok r \/
  InstructionList_AddConstant zone this value = Ok r ->
  zone_steps DEBUG zone r.2.
Proof.
  unfold InstructionList_AddLocalGet, InstructionList_AddLocalSet,
    InstructionList_AddInt32Add, InstructionList_AddConstant. cbn [alloc].
  intros [H|[H|[H|H]]]; revert H; apply InstructionList_add_steps;
    zone_steps_by zone_steps_alloc zone_steps_store.
Qed.

Lemma InstructionList_AddIf_steps DEBUG zone this r :
  InstructionList_AddIf zone this = Ok r -> zone_steps DEBUG zone r.2.
Proof.
  unfold InstructionList_AddIf. cbn [alloc].
  apply InstructionList_add_steps.
  zone_steps_by zone_steps_alloc zone_steps_store.
Qed.

Lemma Function_MakeNewBody_steps DEBUG zone this r :
  Function_MakeNewBody zone this = Ok r -> zone_steps DEBUG zone r.2.
Proof.
  unfold Function_MakeNewBody. intros H. zone_op H.
  zone_steps_by zone_steps_alloc zone_steps_store.
Qed.

(** Every operation is a run of steps on the arena. *)
Lemma run_op_steps DEBUG op B B' :
  run_op DEBUG op B = Ok B' -> zone_steps DEBUG (zone_ B) (zone_ B').
Proof.
  destruct op; cbn [run_op]; unfold in_zone_of;
    cbv beta iota delta [mbind outcome_bind].
  1-10: intros [= <-]; cbn; zone_steps_by zone_steps_alloc zone_steps_store.
  all: match goal with
       | |- match ?r with _ => _ end = _ -> _ =>
           destruct r as [x|] eqn:E; [|done]
       end; try destruct x as [p zone']; intros [= <-]; cbn.
  - by eapply FuncType_AddParam_steps.
  - by eapply (StructType_AddField_steps _ _ _ _ _ (_, _)).
  - by eapply (StructType_AddField_value_steps _ _ _ _ _ (_, _)).
  - by eapply (StructType_AddField_packed_steps _ _ _ _ _ (_, _)).
  - apply rtc_once. by eapply (zone_step_AddLocal _ _ _ _ _ _ (_, _)).
  - by eapply (Function_MakeNewBody_steps _ _ _ (_, _)).
  - eapply (InstructionList_Add_steps _ _ _ _ 0 (_, _)); eauto.
  - eapply (InstructionList_Add_steps _ _ _ _ 0 (_, _)); eauto.
  - eapply (InstructionList_Add_steps _ _ _ nullptr 0 (_, _)); eauto.
  - eapply (InstructionList_Add_steps _ _ _ nullptr _ (_, _)); eauto.
  - by eapply (InstructionList_AddIf_steps _ _ _ (_, _)).
Qed.

Lemma run_ops_steps DEBUG ops B B' :
  run_ops DEBUG ops B = Ok B' -> zone_steps DEBUG (zone_ B) (zone_ B').
Proof.
  revert B. induction ops as [|op ops IH]; intros B; cbn [run_ops].
  - by intros [= <-].
  - destruct (run_op DEBUG op B) as [B1|] eqn:Hop; [|done].
    cbv beta iota delta [mbind outcome_bind]. intros Hrun%IH.
    etrans; [|done]. by eapply run_op_steps.
Qed.

(** What a call of [AddLocal] that returns has done. *)
Lemma Function_AddLocal_Ok DEBUG zone this kind type name r :
  Function_AddLocal DEBUG zone this kind type name = Ok r ->
  exists f,
    deref zone this = Some (OFunction f) /\
    r = (S (length zone),
         store (zone ++ [OLocal (MkLocal this kind type name
                                   (Z.of_nat (length (locals_ f))))])
           this
           (OFunction (MkFunction (Function_name_ f) (Function_index_ f)
                         (Function_type_ f)
                         (locals_ f ++ [S (length zone)]) (body_ f)))).
Proof.
  unfold Function_AddLocal. intros H.
  destruct (get_Function zone this) as [f|] eqn:E; [|discriminate H].
  apply get_Function_deref in E.
  cbv beta iota delta [mbind outcome_bind] in H.
  destruct (ASSERT DEBUG _ _); [|discriminate H].
  cbn in H. injection H as <-. by exists f.
Qed.

Lemma deref_alloc_inv {A} (σ : Store A) a p x :
  deref (σ ++ [a]) p = Some x ->
  deref σ p = Some x \/ p = S (length σ) /\ x = a.
Proof.
  destruct p as [|i]; cbn; [done|].
  intros [?|[? Hx]]%lookup_app_Some; [by left|right].
  apply list_lookup_singleton_Some in Hx as [? ->]. split; [lia|done].
Qed.

(** *** The indices *)

Lemma keeps_indices_refl zone : keeps_indices zone zone.
Proof. split; eauto. Qed.

Lemma keeps_indices_trans z1 z2 z3 :
  keeps_indices z1 z2 -> keeps_indices z2 z3 -> keeps_indices z1 z3.
Proof.
  intros [Hd1 Hf1] [Hd2 Hf2]. split.
  - intros p d (d' & Hd' & <-)%Hd1. destruct (Hd2 _ _ Hd') as (d'' & ? & <-).
    eauto.
  - intros p f (f' & Hf' & <-)%Hf1. destruct (Hf2 _ _ Hf') as (f'' & ? & <-).
    eauto.
Qed.

Lemma keeps_indices_alloc zone o : keeps_indices zone (zone ++ [o]).
Proof.
  split.
  - intros p d Hd%get_DefType_deref. exists d. split; [|done].
    by apply get_DefType_deref, deref_alloc_old.
  - intros p f Hf%get_Function_deref. exists f. split; [|done].
    by apply get_Function_deref, deref_alloc_old.
Qed.

Lemma keeps_indices_store zone p o o' :
  deref zone p = Some o ->
  (forall d, o = ODefType d ->
     exists d', o' = ODefType d' /\ DefType_index d' = DefType_index d) ->
  (forall f, o = OFunction f ->
     exists f', o' = OFunction f' /\ Function_index_ f' = Function_index_ f) ->
  keeps_indices zone (store zone p o').
Proof.
  intros Hp Hdef Hfun. split.
  - intros q d Hd%get_DefType_deref. destruct (decide (p = q)) as [->|Hne].
    + rewrite Hp in Hd. injection Hd as ->.
      destruct (Hdef d eq_refl) as (d' & -> & Hi).
      exists d'. split; [|done]. apply get_DefType_deref, deref_store_eq. eauto.
    + exists d. split; [|done].
      by apply get_DefType_deref; rewrite deref_store_ne.
  - intros q f Hf%get_Function_deref. destruct (decide (p = q)) as [->|Hne].
    + rewrite Hp in Hf. injection Hf as ->.
      destruct (Hfun f eq_refl) as (f' & -> & Hi).
      exists f'. split; [|done]. apply get_Function_deref, deref_store_eq. eauto.
    + exists f. split; [|done].
      by apply get_Function_deref; rewrite deref_store_ne.
Qed.

Lemma zone_step_keeps_indices DEBUG zone zone' :
  zone_step DEBUG zone zone' -> keeps_indices zone zone'.
Proof.
  destruct 1 as [zone o Ho|zone p o o' Hp Ho|zone this kind type name r Hadd].
  - apply keeps_indices_alloc.
  - eapply keeps_indices_store; [done|..].
    + intros d ->. exact Ho.
    + intros f ->. destruct Ho as (f' & -> & ? & ?). eauto.
  - apply Function_AddLocal_Ok in Hadd as (f & Hf & ->). cbn [snd].
    eapply keeps_indices_trans; [apply keeps_indices_alloc|].
    eapply keeps_indices_store; [by apply deref_alloc_old|by intros|].
    intros ? [= <-]. eauto.
Qed.

Lemma zone_steps_keeps_indices DEBUG zone zone' :
  zone_steps DEBUG zone zone' -> keeps_indices zone zone'.
Proof.
  induction 1 as [|z1 z2 z3 Hstep _ IH]; [apply keeps_indices_refl|].
  eapply keeps_indices_trans; [|done]. by eapply zone_step_keeps_indices.
Qed.

(** *** The locals *)

Lemma replaces_Local zone p o o' q l :
  deref zone p = Some o -> replaces o o' ->
  get_Local zone q = Ok l -> get_Local (store zone p o') q = Ok l.
Proof.
  intros Hp Ho Hl%get_Local_deref. apply get_Local_deref.
  destruct (decide (p = q)) as [->|Hne]; [|by rewrite deref_store_ne].
  rewrite Hp in Hl. injection Hl as ->. cbn in Ho. subst o'.
  apply deref_store_eq. eauto.
Qed.

Lemma local_kinds_impl zone zone' f f' kinds :
  (forall q l, get_Local zone q = Ok l -> get_Local zone' q = Ok l) ->
  locals_ f' = locals_ f ->
  local_kinds zone f kinds -> local_kinds zone' f' kinds.
Proof.
  unfold local_kinds. intros Hl -> Hkinds. eapply Forall2_impl; [done|].
  intros q k (l & ? & ?). eauto.
Qed.

Lemma zone_step_locals_inv zone zone' :
  zone_step true zone zone' -> zone_locals_inv zone -> zone_locals_inv zone'.
Proof.
  destruct 1 as [zone o Ho|zone p o o' Hp Ho|zone this kind type name r Hadd];
    intros Hinv q g Hg%get_Function_deref.
  - apply deref_alloc_inv in Hg as [Hg|[-> <-]].
    + apply get_Function_deref, Hinv in Hg as (kinds & Hkinds & Hpf).
      exists kinds. split; [|done]. eapply local_kinds_impl; [|done..].
      intros q' l Hl%get_Local_deref. by apply get_Local_deref, deref_alloc_old.
    + exists []. split.
      * unfold local_kinds. rewrite (Ho g eq_refl). constructor.
      * intros i j Hi. by rewrite lookup_nil in Hi.
  - destruct (decide (p = q)) as [->|Hne].
    + rewrite deref_store_eq in Hg by eauto. injection Hg as ->.
      assert (exists f, o = OFunction f /\ locals_ g = locals_ f) as (f & -> & Hloc).
      { destruct o; cbn in Ho; try (by destruct Ho as (? & ? & ?));
          try (by destruct Ho); try done.
        destruct Ho as (f' & [= <-] & _ & ?). eauto. }
      destruct (Hinv q f) as (kinds & Hkinds & Hpf);
        [by apply get_Function_deref|].
      exists kinds. split; [|done]. eapply local_kinds_impl; [|done..].
      intros q' l. by eapply replaces_Local.
    + rewrite deref_store_ne in Hg by done.
      apply get_Function_deref, Hinv in Hg as (kinds & Hkinds & Hpf).
      exists kinds. split; [|done]. eapply local_kinds_impl; [|done..].
      intros q' l. by eapply replaces_Local.
  - pose proof (Function_AddLocal_Ok _ _ _ _ _ _ _ Hadd) as (f & Hf & Hr).
    destruct (Hinv this f) as (kinds & Hkinds & Hpf);
      [by apply get_Function_deref|].
    destruct (decide (q = this)) as [->|Hne].
    + destruct r as [local zone'].
      destruct (AddLocal_keeps_order zone this kinds kind type name local zone')
        as (g' & Hg' & Hkinds' & Hpf');
        [exists f; split; [by apply get_Function_deref|done]|done|].
      apply get_Function_deref in Hg'. cbn [snd] in Hg.
      rewrite Hg in Hg'. injection Hg' as <-. eauto.
    + subst r. cbn [snd] in *. rewrite deref_store_ne in Hg by done.
      apply deref_alloc_inv in Hg as [Hg|[_ [=]]].
      destruct (Hinv q g) as (kinds' & Hkinds'' & Hpf'');
        [by apply get_Function_deref|].
      exists kinds'. split; [|done]. eapply local_kinds_impl; [|done..].
      intros q' l Hl%get_Local_deref. apply get_Local_deref.
      rewrite deref_store_ne by congruence. by apply deref_alloc_old.
Qed.

Lemma zone_steps_locals_inv zone zone' :
  zone_steps true zone zone' -> zone_locals_inv zone -> zone_locals_inv zone'.
Proof.
  induction 1 as [|z1 z2 z3 Hstep _ IH]; [done|].
  intros Hinv. by eapply IH, zone_step_locals_inv.
Qed.

Lemma zone_locals_inv_new zone :
  zone_locals_inv zone -> zone_locals_inv (zone_ (WasmModuleBuilder_new zone)).
Proof.
  apply zone_steps_locals_inv. cbn.
  zone_steps_by zone_steps_alloc zone_steps_store.
Qed.

(** C9.  In a debug build, after any run of operations on a new builder,
    every function of the arena has all its [Param] entries before all its
    [Local] entries; and once a [Local] is among them, a call of [AddLocal]
    that asks for a [Param] trips the assertion of [AddLocal]. *)
Theorem AddLocal_params_precede_locals (zone : Zone) (ops : list BuilderOp)
    (B : WasmModuleBuilder) (this : ptr) (f : Function) :
  zone_locals_inv zone ->
  run_ops true ops (WasmModuleBuilder_new zone) = Ok B ->
  get_Function (zone_ B) this = Ok f ->
  exists kinds,
    local_kinds (zone_ B) f kinds /\
    params_first kinds /\
    (kLocal ∈ kinds ->
     forall type name,
       Function_AddLocal true (zone_ B) this kParam type name =
         Abort (ASSERT_FAILED AddLocal_assertion)).
Proof.
  intros Hzone Hrun Hf.
  assert (zone_locals_inv (zone_ B)) as Hinv.
  { eapply zone_steps_locals_inv; [by eapply run_ops_steps|].
    by apply zone_locals_inv_new. }
  destruct (Hinv this f Hf) as (kinds & Hkinds & Hpf).
  exists kinds. split; [done|]. split; [done|].
  intros Hin type name. eapply AddLocal_Param_after_Local; [|done].
  by exists f.
Qed.


Lemma AddLocal_params_precede_locals_witness :
  exists kinds,
    local_kinds (zone_ sample_builder)
      (MkFunction "main" 0 15%nat [18%nat; 24%nat] nullptr) kinds /\
    params_first kinds /\
    (kLocal ∈ kinds ->
     forall type name,
       Function_AddLocal true (zone_ sample_builder) 16%nat kParam type name =
         Abort (ASSERT_FAILED AddLocal_assertion)).
Proof.
  apply (AddLocal_params_precede_locals [] sample_ops sample_builder 16%nat
           (MkFunction "main" 0 15%nat [18%nat; 24%nat] nullptr));
    [intros [|i] f Hf; discriminate Hf|reflexivity|reflexivity].
Defined.

(** ** The index spaces of the builder *)

Lemma builder_inv_set_zone_ B zone :
  builder_inv B -> keeps_indices (zone_ B) zone -> builder_inv (set_zone_ B zone).
Proof.
  intros [Ht Hf] [Hkd Hkf]. split; cbn.
  - intros i t (d & Hd & <-)%Ht. destruct (Hkd _ _ Hd) as (d' & ? & <-). eauto.
  - intros i f (fn & Hfn & <-)%Hf. destruct (Hkf _ _ Hfn) as (f' & ? & <-). eauto.
Qed.

Lemma builder_inv_add_type B d :
  builder_inv B ->
  DefType_index d = Z.of_nat (length (types_ B)) ->
  builder_inv (set_types_ (set_zone_ B (zone_ B ++ [ODefType d]))
                 (types_ B ++ [S (length (zone_ B))])).
Proof.
  intros [Ht Hf] Hd. split; cbn.
  - intros i t [Hi|[Hle Hi]]%lookup_app_Some.
    + destruct (Ht _ _ Hi) as (d0 & Hd0%get_DefType_deref & <-).
      exists d0. split; [|done]. by apply get_DefType_deref, deref_alloc_old.
    + apply list_lookup_singleton_Some in Hi as [Hi <-].
      exists d. split; [apply get_DefType_deref, deref_alloc_new|]. lia.
  - intros i f Hi. destruct (Hf _ _ Hi) as (fn & Hfn%get_Function_deref & <-).
    exists fn. split; [|done]. by apply get_Function_deref, deref_alloc_old.
Qed.

Lemma builder_inv_add_function B fn :
  builder_inv B ->
  Function_index_ fn = Z.of_nat (length (functions_ B)) ->
  builder_inv (set_functions_ (set_zone_ B (zone_ B ++ [OFunction fn]))
                 (functions_ B ++ [S (length (zone_ B))])).
Proof.
  intros [Ht Hf] Hfn. split; cbn.
  - intros i t Hi. destruct (Ht _ _ Hi) as (d & Hd%get_DefType_deref & <-).
    exists d. split; [|done]. by apply get_DefType_deref, deref_alloc_old.
  - intros i f [Hi|[Hle Hi]]%lookup_app_Some.
    + destruct (Hf _ _ Hi) as (f0 & Hf0%get_Function_deref & <-).
      exists f0. split; [|done]. by apply get_Function_deref, deref_alloc_old.
    + apply list_lookup_singleton_Some in Hi as [Hi <-].
      exists fn. split; [apply get_Function_deref, deref_alloc_new|]. lia.
Qed.

Lemma static_cast_int32_t_length {A} (l : list A) :
  Z.of_nat (length l) < 2 ^ 31 ->
  static_cast int32_t (Z.of_nat (length l)) = Z.of_nat (length l).
Proof.
  intros. apply static_cast_id. unfold in_range. cbn [is_signed bit_width].
  closed_consts. lia.
Qed.

Lemma static_cast_uint32_t_length {A} (l : list A) :
  Z.of_nat (length l) < 2 ^ 32 ->
  static_cast uint32_t (Z.of_nat (length l)) = Z.of_nat (length l).
Proof.
  intros. apply static_cast_id. unfold in_range. cbn [is_signed bit_width].
  closed_consts. lia.
Qed.

(** An operation leaves the entries of the lists in place and adds at the
    end. *)
Lemma run_op_appends DEBUG op B B' :
  run_op DEBUG op B = Ok B' ->
  types_ B `prefix_of` types_ B' /\ functions_ B `prefix_of` functions_ B'.
Proof.
  destruct op; cbn [run_op]; unfold in_zone_of;
    cbv beta iota delta [mbind outcome_bind];
    try (intros [= <-]; cbn; unfold Add; split;
         first [done|by apply prefix_app_r]).
  all: match goal with
       | |- match ?r with _ => _ end = _ -> _ =>
           destruct r as [[]|]; [|done]
       | |- match ?r with _ => _ end = _ -> _ =>
           destruct r as [|]; [|done]
       end; by intros [= <-].
Qed.

Lemma run_op_inv DEBUG op B B' :
  builder_inv B -> run_op DEBUG op B = Ok B' ->
  Z.of_nat (length (types_ B')) <= 2 ^ 31 ->
  Z.of_nat (length (functions_ B')) <= 2 ^ 32 ->
  builder_inv B'.
Proof.
  intros Hinv Hrun Ht Hf.
  pose proof (zone_steps_keeps_indices _ _ _ (run_op_steps _ _ _ _ Hrun))
    as Hkeeps.
  assert (types_ B' = types_ B -> functions_ B' = functions_ B ->
          builder_inv B') as Hsame.
  { intros Hts Hfs.
    destruct (builder_inv_set_zone_ B (zone_ B') Hinv Hkeeps) as [H1 H2].
    cbn in H1, H2. split; [by rewrite Hts|by rewrite Hfs]. }
  destruct op; cbn [run_op] in Hrun; unfold in_zone_of in Hrun;
    cbv beta iota delta [mbind outcome_bind] in Hrun;
    try (apply Hsame;
         match type of Hrun with
         | match ?r with _ => _ end = _ =>
             destruct r as [[]|]; [|done]
         | match ?r with _ => _ end = _ =>
             destruct r as [|]; [|done]
         | _ => idtac
         end; by injection Hrun as <-);
    clear Hsame Hkeeps; injection Hrun as <-.
  1, 4, 5:
    apply builder_inv_add_type; [done|]; cbn;
    apply static_cast_int32_t_length;
    cbn in Ht; unfold Add in Ht; rewrite length_app in Ht; cbn in Ht; lia.
  1, 2:
    apply (builder_inv_add_type (set_zone_ B (zone_ B ++ [_])));
    [apply builder_inv_set_zone_; [done|apply keeps_indices_alloc]|]; cbn;
    apply static_cast_int32_t_length;
    cbn in Ht; unfold Add in Ht; rewrite length_app in Ht; cbn in Ht; lia.
  apply builder_inv_add_function; [done|]. cbn.
  apply static_cast_uint32_t_length.
  cbn in Hf. unfold Add in Hf. rewrite length_app in Hf. cbn in Hf. lia.
Qed.

Lemma run_ops_appends DEBUG ops B B' :
  run_ops DEBUG ops B = Ok B' ->
  types_ B `prefix_of` types_ B' /\ functions_ B `prefix_of` functions_ B'.
Proof.
  revert B. induction ops as [|op ops IH]; intros B; cbn [run_ops].
  - by intros [= <-].
  - destruct (run_op DEBUG op B) as [B1|] eqn:Hop; [|done].
    cbv beta iota delta [mbind outcome_bind]. intros [? ?]%IH.
    apply run_op_appends in Hop as [? ?]. split; by etrans.
Qed.

Lemma run_ops_inv DEBUG ops B B' :
  builder_inv B -> run_ops DEBUG ops B = Ok B' ->
  Z.of_nat (length (types_ B')) <= 2 ^ 31 ->
  Z.of_nat (length (functions_ B')) <= 2 ^ 32 ->
  builder_inv B'.
Proof.
  revert B. induction ops as [|op ops IH]; intros B Hinv; cbn [run_ops].
  - by intros [= <-].
  - destruct (run_op DEBUG op B) as [B1|] eqn:Hop; [|done].
    cbv beta iota delta [mbind outcome_bind]. intros Hrun Ht Hf.
    pose proof (run_ops_appends _ _ _ _ Hrun) as [Ht1%prefix_length Hf1%prefix_length].
    apply (IH B1); [|done..]. eapply run_op_inv; [done..|lia|lia].
Qed.

(** C6.  After any run of operations on a new builder (while the type list
    has at most [2^31] entries and the function list at most [2^32], the
    ranges of the index types), the type at position [i] of [types_] has
    index [i] and the function at position [i] of [functions_] has index
    [i]; so every registered type [t] is [types_[t.index]] and every
    registered function [f] is [functions_[f.index]].  A further operation
    keeps the entries of both lists in place and adds at the end only, and
    keeps the invariant.  [MakeFuncType], [MakeStructType] and
    [MakeArrayType] register the type they return as the new last entry of
    [types_], with the former length of the list as its index, and
    [AddFunction] does the same with [functions_]: the indices are given
    from [0] on in the order of registration. *)
Theorem builder_indices (DEBUG : bool) (zone : Zone) (ops : list BuilderOp)
    (B : WasmModuleBuilder) :
  run_ops DEBUG ops (WasmModuleBuilder_new zone) = Ok B ->
  Z.of_nat (length (types_ B)) <= 2 ^ 31 ->
  Z.of_nat (length (functions_ B)) <= 2 ^ 32 ->
  builder_inv B /\
  (forall t, t ∈ types_ B ->
     exists d, get_DefType (zone_ B) t = Ok d /\
               types_ B !! Z.to_nat (DefType_index d) = Some t) /\
  (forall f, f ∈ functions_ B ->
     exists fn, get_Function (zone_ B) f = Ok fn /\
                functions_ B !! Z.to_nat (Function_index_ fn) = Some f) /\
  (forall op B', run_op DEBUG op B = Ok B' ->
     types_ B `prefix_of` types_ B' /\
     functions_ B `prefix_of` functions_ B') /\
  (forall op B', run_op DEBUG op B = Ok B' ->
     Z.of_nat (length (types_ B')) <= 2 ^ 31 ->
     Z.of_nat (length (functions_ B')) <= 2 ^ 32 ->
     builder_inv B') /\
  (Z.of_nat (length (types_ B)) < 2 ^ 31 ->
   forall result_type field_type value_type packed_type mut,
     registers_type B (WasmModuleBuilder_MakeFuncType B result_type) /\
     registers_type B (WasmModuleBuilder_MakeStructType B) /\
     registers_type B (WasmModuleBuilder_MakeArrayType B field_type) /\
     registers_type B
       (WasmModuleBuilder_MakeArrayType_value B value_type mut) /\
     registers_type B
       (WasmModuleBuilder_MakeArrayType_packed B packed_type mut)) /\
  (Z.of_nat (length (functions_ B)) < 2 ^ 32 ->
   forall name type,
     registers_function B (WasmModuleBuilder_AddFunction B name type)).
Proof.
  intros Hrun Ht Hf.
  assert (builder_inv B) as Hinv.
  { eapply run_ops_inv; [|done..]. split; intros i x Hx; by cbn in Hx. }
  split; [done|]. pose proof Hinv as [Hts Hfs].
  split; [|split; [|split; [|split; [|split]]]].
  - intros t [i Hi]%list_elem_of_lookup. destruct (Hts _ _ Hi) as (d & Hd & Hidx).
    exists d. split; [done|]. by rewrite Hidx, Nat2Z.id.
  - intros f [i Hi]%list_elem_of_lookup. destruct (Hfs _ _ Hi) as (fn & Hfn & Hidx).
    exists fn. split; [done|]. by rewrite Hidx, Nat2Z.id.
  - intros op B'. apply run_op_appends.
  - intros op B' Hop. by apply (run_op_inv DEBUG op B).
  - intros Hlt result_type field_type value_type packed_type mut.
    unfold registers_type, WasmModuleBuilder_MakeArrayType_value,
      WasmModuleBuilder_MakeArrayType_packed, WasmModuleBuilder_MakeArrayType,
      WasmModuleBuilder_MakeFieldType_value,
      WasmModuleBuilder_MakeFieldType_packed, WasmModuleBuilder_MakeFuncType,
      WasmModuleBuilder_MakeStructType.
    cbn [alloc fst snd zone_ types_ functions_ set_zone_ set_types_ Add].
    rewrite (static_cast_int32_t_length (types_ B)) by done.
    repeat split; try done;
      (eexists; split;
       [apply get_DefType_deref, deref_alloc_new || 
        (apply get_DefType_deref; rewrite <- (length_app (zone_ B) [_]);
         apply deref_alloc_new)|done]).
  - intros Hlt name type.
    unfold registers_function, WasmModuleBuilder_AddFunction.
    cbn [alloc fst snd zone_ types_ functions_ set_zone_ set_functions_ Add].
    rewrite (static_cast_uint32_t_length (functions_ B)) by done.
    split; [done|]. eexists. split; [apply get_Function_deref, deref_alloc_new|done].
Qed.

Lemma builder_indices_witness :
  builder_inv sample_builder /\
  (forall t, t ∈ types_ sample_builder ->
     exists d, get_DefType (zone_ sample_builder) t = Ok d /\
               types_ sample_builder !! Z.to_nat (DefType_index d) = Some t) /\
  (forall f, f ∈ functions_ sample_builder ->
     exists fn, get_Function (zone_ sample_builder) f = Ok fn /\
                functions_ sample_builder !! Z.to_nat (Function_index_ fn)
                = Some f) /\
  (forall op B', run_op true op sample_builder = Ok B' ->
     types_ sample_builder `prefix_of` types_ B' /\
     functions_ sample_builder `prefix_of` functions_ B') /\
  (forall op B', run_op true op sample_builder = Ok B' ->
     Z.of_nat (length (types_ B')) <= 2 ^ 31 ->
     Z.of_nat (length (functions_ B')) <= 2 ^ 32 ->
     builder_inv B') /\
  (Z.of_nat (length (types_ sample_builder)) < 2 ^ 31 ->
   forall result_type field_type value_type packed_type mut,
     registers_type sample_builder
       (WasmModuleBuilder_MakeFuncType sample_builder result_type) /\
     registers_type sample_builder
       (WasmModuleBuilder_MakeStructType sample_builder) /\
     registers_type sample_builder
       (WasmModuleBuilder_MakeArrayType sample_builder field_type) /\
     registers_type sample_builder
       (WasmModuleBuilder_MakeArrayType_value sample_builder value_type mut) /\
     registers_type sample_builder
       (WasmModuleBuilder_MakeArrayType_packed sample_builder packed_type
          mut)) /\
  (Z.of_nat (length (functions_ sample_builder)) < 2 ^ 32 ->
   forall name type,
     registers_function sample_builder
       (WasmModuleBuilder_AddFunction sample_builder name type)).
Proof.
  apply (builder_indices true [] sample_ops sample_builder);
    [reflexivity|cbn; lia|cbn; lia].
Defined.

(** * Further properties

    ** The streams: what is written is read back *)

Lemma sleb128_bytes v bs : sleb128 v bs -> leb128_bytes v bs.
Proof. induction 1; by constructor. Qed.

Lemma uleb128_bytes v bs : uleb128 v bs -> leb128_bytes v bs.
Proof.
  induction 1 as [v Hv|]; [|by constructor].
  rewrite <- (Z.mod_small v 128) at 2 by done. constructor.
Qed.

Lemma mod_pow2_low r v s k :
  0 <= s -> 0 <= k -> 0 <= r < 2 ^ s ->
  (r + v * 2 ^ s) mod 2 ^ (s + k) = r + (v mod 2 ^ k) * 2 ^ s.
Proof.
  intros Hs Hk Hr. rewrite Z.pow_add_r by done.
  assert (0 < 2 ^ s) by (apply Z.pow_pos_nonneg; lia).
  assert (0 < 2 ^ k) by (apply Z.pow_pos_nonneg; lia).
  symmetry. apply (Z.mod_unique_pos _ _ (v / 2 ^ k)).
  - pose proof (Z.mod_pos_bound v (2 ^ k)). nia.
  - pose proof (Z.div_mod v (2 ^ k)). nia.
Qed.

Lemma mod_mod_pow2 v a b :
  0 <= a -> 0 <= b -> (v mod 2 ^ a) mod 2 ^ b = v mod 2 ^ (Z.min a b).
Proof.
  intros Ha Hb. destruct (Z.min_spec a b) as [[Hlt ->]|[Hle ->]].
  - apply Z.mod_small. pose proof (Z.mod_pos_bound v (2 ^ a)).
    assert (2 ^ a <= 2 ^ b) by (apply Z.pow_le_mono_r; lia).
    assert (0 < 2 ^ a) by (apply Z.pow_pos_nonneg; lia). lia.
  - apply Z.mod_mod_divide.
    exists (2 ^ (a - b)). rewrite <- Z.pow_add_r by lia. f_equal. lia.
Qed.

Lemma read_group T r v s :
  0 <= s < bit_width T -> 0 <= r < 2 ^ s ->
  Z.lor r (static_cast (make_unsigned T) (Z.shiftl (v mod 128) s)) =
  (r + v * 2 ^ s) mod 2 ^ (Z.min (s + 7) (bit_width T)).
Proof.
  intros Hs Hr. set (w := bit_width T) in *.
  assert (static_cast (make_unsigned T) (Z.shiftl (v mod 128) s)
          = (v mod 128 * 2 ^ s) mod 2 ^ w) as ->.
  { rewrite Z.shiftl_mul_pow2 by lia. unfold static_cast, w. by destruct T. }
  replace (2 ^ w) with (2 ^ (w - s) * 2 ^ s)
    by (rewrite <- Z.pow_add_r by lia; f_equal; lia).
  rewrite Z.mul_mod_distr_r by (apply Z.pow_nonzero; lia).
  change 128 with (2 ^ 7). rewrite mod_mod_pow2 by lia.
  rewrite lor_disjoint.
  - replace (Z.min (s + 7) w) with (s + Z.min 7 (w - s)) by lia.
    by rewrite mod_pow2_low by lia.
  - lia.
  - done.
Qed.

Lemma leb128_bytes_length v bs : leb128_bytes v bs -> (0 < length bs)%nat.
Proof. destruct 1; cbn; lia. Qed.

Lemma ReadInternal_loop_bytes DEBUG T v bs rest c r s :
  leb128_bytes v bs ->
  0 <= s -> s + 7 * (Z.of_nat (length bs) - 1) < bit_width T ->
  0 <= r < 2 ^ s ->
  exists b,
    last bs = Some b /\
    ReadInternal_loop DEBUG T (bs ++ rest) c r s =
      Ok (c + Z.of_nat (length bs), b,
          (r + v * 2 ^ s)
            mod 2 ^ (Z.min (s + 7 * Z.of_nat (length bs)) (bit_width T)),
          s + 7 * Z.of_nat (length bs)).
Proof.
  intros Henc. revert c r s.
  assert (bit_width T <= 64) as Hw by (destruct T; cbn; lia).
  induction Henc as [v|v bs Henc IH]; intros c r s Hs Hlen Hr.
  - assert (0 <= v mod 128 < 128) as Hp by (apply Z.mod_pos_bound; lia).
    cbn [length] in *. exists (v mod 128). split; [done|].
    cbn [app ReadInternal_loop].
    destruct (more_data_mask_of_last _ Hp) as [-> ->].
    rewrite shift_left_small by lia.
    cbn [Z.eqb negb]. unfold static_cast_uint8_t, kDataBitsPerByte.
    rewrite (Z.mod_small (s + 7)) by lia.
    rewrite read_group by lia.
    change (Z.of_nat 1) with 1.
    by rewrite Z.mul_1_r.
  - assert (0 <= v mod 128 < 128) as Hp by (apply Z.mod_pos_bound; lia).
    pose proof (leb128_bytes_length _ _ Henc) as Hpos.
    cbn [length] in *.
    destruct (IH (c + 1) (r + v mod 128 * 2 ^ s) (s + 7)) as (b & Hb & Hloop);
      [lia|lia| |].
    { rewrite Z.pow_add_r by lia. change (2 ^ 7) with 128.
      assert (0 < 2 ^ s) by (apply Z.pow_pos_nonneg; lia). nia. }
    exists b. split; [by destruct bs|].
    cbn [app ReadInternal_loop].
    destruct (more_data_mask_of_more _ Hp) as [Hmore ->].
    rewrite shift_left_small by lia.
    apply Z.eqb_neq in Hmore. rewrite Hmore. cbn [negb].
    unfold static_cast_uint8_t, kDataBitsPerByte.
    rewrite (Z.mod_small (s + 7)) by lia.
    rewrite read_group by lia.
    rewrite Z.min_l by lia.
    rewrite mod_pow2_low by lia.
    change (2 ^ 7) with 128.
    rewrite Hloop.
    replace (c + Z.of_nat (S (length bs))) with (c + 1 + Z.of_nat (length bs))
      by lia.
    replace (s + 7 * Z.of_nat (S (length bs)))
      with (s + 7 + 7 * Z.of_nat (length bs)) by lia.
    replace (r + v `mod` 128 * 2 ^ s + v `div` 128 * 2 ^ (s + 7))
      with (r + v * 2 ^ s); [done|].
    rewrite Z.pow_add_r by lia. change (2 ^ 7) with 128.
    pose proof (Z.div_mod v 128). nia.
Qed.

Lemma static_cast_signed T x :
  is_signed T = true ->
  static_cast T x = (x + 2 ^ (bit_width T - 1)) mod 2 ^ bit_width T
                    - 2 ^ (bit_width T - 1).
Proof. unfold static_cast. by intros ->. Qed.

Lemma static_cast_unsigned T x :
  is_signed T = false -> static_cast T x = x mod 2 ^ bit_width T.
Proof. unfold static_cast. by intros ->. Qed.

Lemma static_cast_wrap T v :
  in_range T v -> is_signed T = true ->
  static_cast T (v mod 2 ^ bit_width T) = v.
Proof.
  intros Hv HT. rewrite static_cast_signed by done.
  unfold in_range in Hv. rewrite HT in Hv.
  rewrite Zplus_mod_idemp_l.
  assert (2 ^ bit_width T = 2 * 2 ^ (bit_width T - 1)) as Hw.
  { rewrite <- Z.pow_succ_r by (destruct T; cbn; lia). f_equal. lia. }
  rewrite Z.mod_small; lia.
Qed.

(** The sign extension, for a negative value of which [s] bits are read. *)
Lemma sign_bits_negative T b s :
  is_signed T = true -> 64 <= b < 128 -> 0 <= s < bit_width T ->
  ReadInternal_sign_bits T b s = (2 ^ (bit_width T - s) - 1) * 2 ^ s.
Proof.
  intros HT Hb Hs. unfold ReadInternal_sign_bits. rewrite HT.
  rewrite sign_mask_clear by lia.
  replace (b <? 64) with false by (symmetry; apply Z.ltb_ge; lia).
  replace (s <? bit_width T) with true by (symmetry; apply Z.ltb_lt; lia).
  cbn [negb andb]. rewrite Z.shiftl_1_l.
  assert (is_signed (make_unsigned T) = false) as HU by (by destruct T).
  assert (bit_width (make_unsigned T) = bit_width T) as HwU by (by destruct T).
  rewrite !static_cast_unsigned, HwU by done.
  assert (0 < 2 ^ s) by (apply Z.pow_pos_nonneg; lia).
  assert (2 ^ bit_width T = 2 ^ (bit_width T - s) * 2 ^ s) as Hw.
  { rewrite <- Z.pow_add_r by lia. f_equal. lia. }
  assert (1 < 2 ^ (bit_width T - s)) by (apply Z.pow_gt_1; lia).
  rewrite (Z.mod_small (2 ^ s)) by nia.
  replace (Z.lnot (2 ^ s - 1)) with (- 2 ^ s) by (unfold Z.lnot; lia).
  symmetry. apply (Z.mod_unique_pos _ _ (-1)); nia.
Qed.

Lemma sign_bits_none T b s :
  b < 64 \/ bit_width T <= s -> 0 <= b < 128 ->
  ReadInternal_sign_bits T b s = 0.
Proof.
  intros Hbs Hb. unfold ReadInternal_sign_bits.
  rewrite sign_mask_clear by lia.
  destruct (is_signed T); [|done]. cbn [andb].
  destruct (Z.ltb_spec b 64); [done|]. cbn [negb andb].
  replace (s <? bit_width T) with false; [done|].
  symmetry. apply Z.ltb_ge. lia.
Qed.

Lemma WriteInternal_fuel_bound T :
  7 * (Z.of_nat (WriteInternal_fuel T) - 1) < bit_width T
  <= 7 * Z.of_nat (WriteInternal_fuel T).
Proof. destruct T; vm_compute; split; congruence. Qed.

(** An encoding of a value of [T] has at most [ceil (w / 7)] bytes. *)
Lemma sleb128_length_bound T v bs :
  is_signed T = true -> in_range T v -> sleb128 v bs ->
  (length bs <= WriteInternal_fuel T)%nat.
Proof.
  intros HT Hv Henc. unfold in_range in Hv. rewrite HT in Hv.
  destruct (sleb128_groups v bs Henc) as [_ Hmin].
  destruct (decide (length bs <= WriteInternal_fuel T)%nat); [done|].
  exfalso. apply (Hmin (Z.of_nat (WriteInternal_fuel T))).
  - pose proof (WriteInternal_fuel_bound T). destruct T; cbn [bit_width] in *; lia.
  - unfold fits_sleb_groups.
    assert (2 ^ (bit_width T - 1)
            <= 2 ^ (7 * Z.of_nat (WriteInternal_fuel T) - 1)).
    { apply Z.pow_le_mono_r; [lia|]. pose proof (WriteInternal_fuel_bound T). lia. }
    lia.
Qed.

Lemma uleb128_range v bs :
  uleb128 v bs -> 0 <= v < 2 ^ (7 * Z.of_nat (length bs)).
Proof.
  induction 1 as [v Hv|v bs Hv Henc IH]; cbn [length].
  - change (2 ^ (7 * Z.of_nat 1)) with 128. lia.
  - replace (7 * Z.of_nat (S (length bs))) with (7 * Z.of_nat (length bs) + 7) by lia.
    rewrite Z.pow_add_r by lia. change (2 ^ 7) with 128.
    Z.div_mod_to_equations. lia.
Qed.

Lemma uleb128_length_bound T v bs :
  in_range (make_unsigned T) v -> uleb128 v bs ->
  (length bs <= WriteInternal_fuel T)%nat.
Proof.
  intros Hv Henc.
  assert (0 <= v < 2 ^ bit_width T) as Hv'.
  { unfold in_range in Hv. by destruct T. }
  pose proof (uleb128_length _ _ Henc) as Hlen. unfold uleb_len in Hlen.
  destruct (decide (v = 0)) as [->|Hne].
  { change (Z.log2 0 / 7 + 1) with 1 in Hlen.
    pose proof (WriteInternal_fuel_bound T). destruct T; cbn [bit_width] in *; lia. }
  assert (Z.log2 v < bit_width T) by (apply Z.log2_lt_pow2; lia).
  pose proof (Z.log2_nonneg v).
  pose proof (WriteInternal_fuel_bound T).
  destruct T; cbn [bit_width] in *; Z.div_mod_to_equations; lia.
Qed.

Lemma ReadInternal_sleb128 DEBUG T v bs st rest :
  is_signed T = true -> in_range T v -> sleb128 v bs ->
  ReadInternal DEBUG T (MkReadStream (st ++ bs ++ rest) (length st)) =
    Ok (v, MkReadStream (st ++ bs ++ rest) (length st + length bs)).
Proof.
  intros HT Hv Henc.
  pose proof (sleb128_length_bound T v bs HT Hv Henc) as Hlen.
  pose proof (WriteInternal_fuel_bound T) as Hfuel.
  destruct (sleb128_shape v bs Henc) as (init & b & Hbs & _ & Hb & Hsign).
  destruct (sleb128_groups v bs Henc) as [Hfit _]. unfold fits_sleb_groups in Hfit.
  destruct (ReadInternal_loop_bytes DEBUG T v bs rest (length st) 0 0
              (sleb128_bytes _ _ Henc)) as (b' & Hlast & Hloop); [lia|lia|lia|].
  rewrite Hbs, last_snoc in Hlast. injection Hlast as <-.
  rewrite ReadInternal_at, drop_app_length, Hloop.
  cbv beta iota delta [mbind outcome_bind]. f_equal. f_equal.
  rewrite Z.add_0_l, Z.mul_1_r, Z.add_0_l.
  set (L := 7 * Z.of_nat (length bs)) in *.
  assert (0 < L) as HL by (subst L; destruct Henc; cbn [length]; lia).
  unfold in_range in Hv. rewrite HT in Hv.
  assert (2 ^ bit_width T = 2 * 2 ^ (bit_width T - 1)) as Hw.
  { rewrite <- Z.pow_succ_r by (destruct T; cbn; lia). f_equal. lia. }
  assert (2 ^ L = 2 * 2 ^ (L - 1)) as HP.
  { rewrite <- Z.pow_succ_r by lia. f_equal. lia. }
  assert (0 < 2 ^ (L - 1)) by (apply Z.pow_pos_nonneg; lia).
  assert (0 < 2 ^ (bit_width T - 1))
    by (apply Z.pow_pos_nonneg; destruct T; cbn; lia).
  rewrite sign_bit_of_part in Hsign by done.
  destruct (Z.ltb_spec v 0) as [Hneg|Hpos], (Z.ltb_spec b 64) as [Hb64|Hb64];
    try discriminate Hsign.
  - (* negative *)
    destruct (Z.min_spec L (bit_width T)) as [[Hlt ->]|[Hle ->]].
    + rewrite sign_bits_negative by (done || lia).
      assert (v mod 2 ^ L = v + 2 ^ L) as ->.
      { symmetry. apply (Z.mod_unique_pos _ _ (-1)); lia. }
      rewrite lor_disjoint by lia.
      replace (v + 2 ^ L + (2 ^ (bit_width T - L) - 1) * 2 ^ L)
        with (v + 1 * 2 ^ bit_width T).
      * rewrite static_cast_signed, <- Z.add_assoc, (Z.add_comm (1 * _)),
          Z.add_assoc, Z_mod_plus_full by done.
        rewrite Z.mod_small; lia.
      * replace (2 ^ bit_width T) with (2 ^ (bit_width T - L) * 2 ^ L); [lia|].
        rewrite <- Z.pow_add_r by lia. f_equal. lia.
    + rewrite sign_bits_none by lia. rewrite Z.lor_0_r.
      apply static_cast_wrap; [unfold in_range; rewrite HT; lia|done].
  - (* non-negative *)
    rewrite sign_bits_none by lia. rewrite Z.lor_0_r.
    rewrite Z.mod_small.
    + apply static_cast_id. unfold in_range. rewrite HT. lia.
    + destruct (Z.min_spec L (bit_width T)) as [[Hlt ->]|[Hle ->]]; lia.
Qed.

Lemma ReadInternal_uleb128 DEBUG T v bs st rest :
  is_signed T = false -> in_range T v -> uleb128 v bs ->
  ReadInternal DEBUG T (MkReadStream (st ++ bs ++ rest) (length st)) =
    Ok (v, MkReadStream (st ++ bs ++ rest) (length st + length bs)).
Proof.
  intros HT Hv Henc.
  assert (make_unsigned T = T) as HU by (by destruct T).
  pose proof (uleb128_length_bound T v bs) as Hlen.
  rewrite HU in Hlen. specialize (Hlen Hv Henc).
  pose proof (WriteInternal_fuel_bound T) as Hfuel.
  pose proof (uleb128_range v bs Henc) as Hrange.
  destruct (ReadInternal_loop_bytes DEBUG T v bs rest (length st) 0 0
              (uleb128_bytes _ _ Henc)) as (b & Hlast & Hloop); [lia|lia|lia|].
  assert (0 <= b < 128) as Hb.
  { clear -Henc Hlast. induction Henc as [v Hv|v bs Hv Henc IH].
    - cbn in Hlast. by injection Hlast as <-.
    - apply IH. by destruct Henc. }
  rewrite ReadInternal_at, drop_app_length, Hloop.
  cbv beta iota delta [mbind outcome_bind]. f_equal. f_equal.
  rewrite Z.add_0_l, Z.mul_1_r, Z.add_0_l.
  unfold ReadInternal_sign_bits. rewrite HT. cbn [andb]. rewrite Z.lor_0_r.
  unfold in_range in Hv. rewrite HT in Hv.
  rewrite Z.mod_small.
  - apply static_cast_id. unfold in_range. by rewrite HT.
  - destruct (Z.min_spec (7 * Z.of_nat (length bs)) (bit_width T))
      as [[Hlt ->]|[Hle ->]]; lia.
Qed.

Lemma static_cast_there_and_back T T' v :
  bit_width T' = bit_width T -> in_range T v ->
  static_cast T (static_cast T' v) = v.
Proof.
  unfold in_range, static_cast.
  destruct T, T'; cbn [is_signed bit_width]; try discriminate; intros _;
    closed_consts; intros; Z.div_mod_to_equations; lia.
Qed.

Lemma WriteInternal_sleb128 T v st :
  is_signed T = true -> in_range T v ->
  exists bs, WriteInternal T v st = Ok (st ++ bs) /\ sleb128 v bs.
Proof.
  intros HT Hv. pose proof (WriteInternal_fuel_bound T) as Hfuel.
  unfold in_range in Hv. rewrite HT in Hv.
  destruct (WriteInternal_loop_sleb128 T (WriteInternal_fuel T) v)
    as (bs & Hbs & Henc).
  - unfold is_unsigned. by rewrite HT.
  - unfold fits_sleb_groups.
    assert (2 ^ (bit_width T - 1)
            <= 2 ^ (7 * Z.of_nat (WriteInternal_fuel T) - 1))
      by (apply Z.pow_le_mono_r; lia).
    lia.
  - destruct T; vm_compute; lia.
  - exists bs. split; [|done].
    unfold WriteInternal. by rewrite WriteInternal_loop_app, Hbs.
Qed.

Lemma WriteInternal_uleb128 T v st :
  is_signed T = false -> in_range T v ->
  exists bs, WriteInternal T v st = Ok (st ++ bs) /\ uleb128 v bs.
Proof.
  intros HT Hv. pose proof (WriteInternal_fuel_bound T) as Hfuel.
  unfold in_range in Hv. rewrite HT in Hv.
  destruct (WriteInternal_loop_uleb128 T (WriteInternal_fuel T) v)
    as (bs & Hbs & Henc).
  - unfold is_unsigned. by rewrite HT.
  - assert (2 ^ bit_width T <= 2 ^ (7 * Z.of_nat (WriteInternal_fuel T)))
      by (apply Z.pow_le_mono_r; lia).
    lia.
  - destruct T; vm_compute; lia.
  - exists bs. split; [|done].
    unfold WriteInternal. by rewrite WriteInternal_loop_app, Hbs.
Qed.

Lemma fuel_ceil T : Z.of_nat (WriteInternal_fuel T) = (bit_width T + 6) / 7.
Proof. by destruct T. Qed.

Lemma make_signed_spec T :
  is_signed (make_signed T) = true /\ bit_width (make_signed T) = bit_width T /\
  WriteInternal_fuel (make_signed T) = WriteInternal_fuel T.
Proof. by destruct T. Qed.

Lemma make_unsigned_spec T :
  is_signed (make_unsigned T) = false /\
  bit_width (make_unsigned T) = bit_width T /\
  WriteInternal_fuel (make_unsigned T) = WriteInternal_fuel T.
Proof. by destruct T. Qed.

Lemma sleb128_nonempty v bs : sleb128 v bs -> (0 < length bs)%nat.
Proof. destruct 1; cbn; lia. Qed.

Lemma uleb128_nonempty v bs : uleb128 v bs -> (0 < length bs)%nat.
Proof. destruct 1; cbn; lia. Qed.

(** X1.  For each of the four integer types and every value [v] of the
    type, [Write<T>] appends an encoding of at most [ceil (w / 7)] bytes, and
    [Read<T>] at the start of these bytes returns [v] and leaves the stream
    right behind them, whatever follows. *)
Theorem Write_Read_round_trip (DEBUG : bool) (T : IntType) (v : Z)
    (st rest : list Z) :
  in_range T v ->
  exists bs,
    Write T v st = Ok (st ++ bs) /\
    Read DEBUG T (MkReadStream (st ++ bs ++ rest) (length st)) =
      Ok (v, MkReadStream (st ++ bs ++ rest) (length st + length bs)) /\
    0 < Z.of_nat (length bs) <= (bit_width T + 6) / 7.
Proof.
  intros Hv. rewrite <- fuel_ceil. unfold Write, Read.
  rewrite (static_cast_id T v Hv).
  destruct (is_signed T) eqn:HT.
  - destruct (WriteInternal_sleb128 T v st HT Hv) as (bs & Hw & Henc).
    exists bs. split; [done|]. split; [by apply ReadInternal_sleb128|].
    pose proof (sleb128_nonempty _ _ Henc).
    pose proof (sleb128_length_bound T v bs HT Hv Henc). lia.
  - destruct (make_signed_spec T) as (HS & HwS & HfS).
    pose proof (static_cast_in_range (make_signed T) v) as Hv'.
    destruct (WriteInternal_sleb128 _ _ st HS Hv') as (bs & Hw & Henc).
    exists bs. split; [done|]. split.
    + rewrite (ReadInternal_sleb128 DEBUG _ _ _ _ _ HS Hv' Henc).
      cbv beta iota delta [mbind outcome_bind]. unfold bit_cast.
      by rewrite static_cast_there_and_back.
    + pose proof (sleb128_nonempty _ _ Henc).
      pose proof (sleb128_length_bound _ _ bs HS Hv' Henc). lia.
Qed.

Lemma Write_Read_round_trip_witness :
  in_range uint32_t 4294967295 /\
  exists bs,
    Write uint32_t 4294967295 [7] = Ok ([7] ++ bs) /\
    Read true uint32_t (MkReadStream ([7] ++ bs ++ [9]) (length [7])) =
      Ok (4294967295,
          MkReadStream ([7] ++ bs ++ [9]) (length [7] + length bs)) /\
    0 < Z.of_nat (length bs) <= (bit_width uint32_t + 6) / 7.
Proof.
  split; [by vm_compute|].
  apply (Write_Read_round_trip true uint32_t 4294967295 [7] [9]).
  by vm_compute.
Defined.

(** X2.  For each of the four integer types, [WriteUnsigned<T>] followed by
    [ReadUnsigned<T>] returns the value written, and the encoding has at most
    [ceil (w / 7)] bytes: for every value that is not negative, and in a
    release build for the negative values of a signed type too.  In a debug
    build a negative value trips the assertion [value >= 0] instead. *)
Theorem WriteUnsigned_ReadUnsigned_round_trip (DEBUG : bool) (T : IntType)
    (v : Z) (st rest : list Z) :
  in_range T v ->
  (0 <= v \/ DEBUG = false ->
   exists bs,
     WriteUnsigned DEBUG T v st = Ok (st ++ bs) /\
     ReadUnsigned DEBUG T (MkReadStream (st ++ bs ++ rest) (length st)) =
       Ok (v, MkReadStream (st ++ bs ++ rest) (length st + length bs)) /\
     0 < Z.of_nat (length bs) <= (bit_width T + 6) / 7) /\
  (v < 0 -> DEBUG = true ->
   WriteUnsigned DEBUG T v st = Abort (ASSERT_FAILED "value >= 0")).
Proof.
  intros Hv. unfold WriteUnsigned, ReadUnsigned, ASSERT.
  rewrite (static_cast_id T v Hv). split.
  - intros Hok.
    assert ((if DEBUG
             then c ← Ok (0 <=? v);
                  if (c : bool) then Ok () else Abort (ASSERT_FAILED "value >= 0")
             else Ok ()) = Ok ()) as ->.
    { destruct Hok as [Hpos| ->]; [|done]. destruct DEBUG; [|done].
      cbv beta iota delta [mbind outcome_bind].
      by replace (0 <=? v) with true by (symmetry; apply Z.leb_le; lia). }
    cbv beta iota delta [mbind outcome_bind]. rewrite <- fuel_ceil.
    unfold is_unsigned. destruct (is_signed T) eqn:HT; cbn [negb].
    + destruct (make_unsigned_spec T) as (HU & HwU & HfU).
      pose proof (static_cast_in_range (make_unsigned T) v) as Hv'.
      unfold bit_cast.
      destruct (WriteInternal_uleb128 _ _ st HU Hv') as (bs & Hw & Henc).
      exists bs. split; [done|]. split.
      * rewrite (ReadInternal_uleb128 DEBUG _ _ _ _ _ HU Hv' Henc).
        cbv beta iota delta [mbind outcome_bind]. unfold bit_cast.
        by rewrite static_cast_there_and_back.
      * pose proof (uleb128_nonempty _ _ Henc).
        pose proof (uleb128_length_bound T _ bs Hv' Henc). lia.
    + destruct (WriteInternal_uleb128 T v st HT Hv) as (bs & Hw & Henc).
      exists bs. split; [done|]. split; [by apply ReadInternal_uleb128|].
      pose proof (uleb128_nonempty _ _ Henc).
      assert (make_unsigned T = T) as HU by (by destruct T).
      pose proof (uleb128_length_bound T v bs) as Hlen. rewrite HU in Hlen.
      specialize (Hlen Hv Henc). lia.
  - intros Hneg ->. cbv beta iota delta [mbind outcome_bind].
    by replace (0 <=? v) with false by (symmetry; apply Z.leb_gt; lia).
Qed.

Lemma WriteUnsigned_ReadUnsigned_round_trip_witness :
  in_range int32_t (-1) /\
  (exists bs,
     WriteUnsigned false int32_t (-1) [7] = Ok ([7] ++ bs) /\
     ReadUnsigned false int32_t (MkReadStream ([7] ++ bs ++ [9]) (length [7])) =
       Ok (-1, MkReadStream ([7] ++ bs ++ [9]) (length [7] + length bs)) /\
     0 < Z.of_nat (length bs) <= (bit_width int32_t + 6) / 7) /\
  WriteUnsigned true int32_t (-1) [7] = Abort (ASSERT_FAILED "value >= 0").
Proof.
  assert (in_range int32_t (-1)) as Hv by (by vm_compute).
  split; [exact Hv|]. split.
  - apply (proj1 (WriteUnsigned_ReadUnsigned_round_trip false int32_t (-1)
                    [7] [9] Hv)).
    by right.
  - apply (proj2 (WriteUnsigned_ReadUnsigned_round_trip true int32_t (-1)
                    [7] [9] Hv)); [lia|reflexivity].
Defined.

Lemma bytes_from_cons rs c b :
  0 <= c -> buffer_ rs !! Z.to_nat c = Some b ->
  bytes_from rs c = b :: bytes_from rs (c + 1).
Proof.
  intros Hc Hb. unfold bytes_from.
  replace (Z.to_nat (c + 1)) with (S (Z.to_nat c)) by lia.
  by apply drop_S.
Qed.

Lemma bytes_from_nil rs c :
  buffer_ rs !! Z.to_nat c = None -> bytes_from rs c = [].
Proof. intros Hb. apply drop_ge. by apply lookup_ge_None. Qed.

Lemma bytes_from_lookup rs c (i : nat) :
  0 <= c -> bytes_from rs c !! i = buffer_ rs !! Z.to_nat (c + i).
Proof.
  intros Hc. unfold bytes_from. rewrite lookup_drop. f_equal. lia.
Qed.

Lemma read_at_lookup rs c b :
  0 <= c -> buffer_ rs !! Z.to_nat c = Some b -> read_at rs c = Ok b.
Proof.
  intros Hc Hb. unfold read_at.
  replace (c <? 0) with false by (symmetry; apply Z.ltb_ge; lia).
  by rewrite Hb.
Qed.

Lemma ReadInternal_from_start DEBUG T rs res :
  ReadInternal DEBUG T rs = Ok res ->
  0 <= current_ rs /\ ReadInternal_from DEBUG T rs (current_ rs) 0 0 = Ok res.
Proof.
  unfold ReadInternal, ReadInternal_from.
  by destruct (Z.ltb_spec (current_ rs) 0).
Qed.

Lemma ASSERT_in_bounds DEBUG {A} (l : list A) c x text :
  0 <= c -> l !! Z.to_nat c = Some x ->
  ASSERT DEBUG (Ok (c <? Z.of_nat (length l))) text = Ok tt.
Proof.
  intros Hc Hx%lookup_lt_Some. unfold ASSERT. destruct DEBUG; [|done].
  cbv beta iota delta [mbind outcome_bind].
  by replace (c <? Z.of_nat (length l)) with true
    by (symmetry; apply Z.ltb_lt; lia).
Qed.

Lemma bind_Ok {A B} (m : outcome A) (k : A -> outcome B) b :
  m ≫= k = Ok b -> exists a, m = Ok a /\ k a = Ok b.
Proof. destruct m as [a|]; [|done]. intros. by exists a. Qed.

(** The loop of [ReadInternal] reads one byte at least and stays in the
    bytes it is given; the bytes ahead of the last one it reads have the
    bit for more data. *)
Lemma ReadInternal_loop_cursor DEBUG T pending c r s c' b r' s' :
  ReadInternal_loop DEBUG T pending c r s = Ok (c', b, r', s') ->
  c < c' <= c + Z.of_nat (length pending) /\
  forall i : nat, c + Z.of_nat i + 1 < c' ->
    exists x, pending !! i = Some x /\ Z.land x kMoreDataMask <> 0.
Proof.
  revert c r s. induction pending as [|x pending IH]; intros c r s;
    cbn [ReadInternal_loop length].
  - by destruct DEBUG.
  - destruct (Z.eqb_spec (Z.land x kMoreDataMask) 0) as [Hx|Hx]; cbn [negb].
    + intros [= <- _ _ _]. split; [lia|]. intros i Hi. lia.
    + intros [Hc Hmore]%IH. split; [lia|]. intros [|i] Hi.
      * by exists x.
      * cbn [lookup list_lookup]. apply Hmore. lia.
Qed.

Lemma ReadInternal_from_cursor DEBUG T rs c r s v rs' :
  0 <= c -> ReadInternal_from DEBUG T rs c r s = Ok (v, rs') ->
  buffer_ rs' = buffer_ rs /\
  c < current_ rs' /\
  forall i : nat, c + Z.of_nat i + 1 < current_ rs' ->
    exists x, buffer_ rs !! Z.to_nat (c + Z.of_nat i) = Some x /\
              Z.land x kMoreDataMask <> 0.
Proof.
  intros Hc. unfold ReadInternal_from.
  intros ([[[c' b] r'] s'] & Hloop & [= _ <-])%bind_Ok.
  apply ReadInternal_loop_cursor in Hloop as [Hc' Hmore].
  cbn [buffer_ current_]. split; [done|]. split; [lia|].
  intros i Hi. destruct (Hmore i Hi) as (x & Hx & Hmx). exists x.
  by rewrite <- bytes_from_lookup.
Qed.

Lemma UNROLLED_BODY_step DEBUG T rs rest c r s res :
  0 <= s -> s + 7 < bit_width T -> 0 <= c ->
  (forall r', ReadInternal_from DEBUG T rs (c + 1) r' (s + 7) = Ok res ->
              rest (c + 1) r' = Ok res) ->
  ReadInternal_from DEBUG T rs c r s = Ok res ->
  UNROLLED_BODY DEBUG T s rs rest c r = Ok res.
Proof.
  intros Hs Hw Hc Hrest. unfold ReadInternal_from, UNROLLED_BODY.
  destruct (buffer_ rs !! Z.to_nat c) as [b|] eqn:Hb.
  - rewrite (bytes_from_cons _ _ _ Hc Hb). unfold end_.
    rewrite (ASSERT_in_bounds _ _ _ _ _ Hc Hb), (read_at_lookup _ _ _ Hc Hb).
    cbv beta iota delta [mbind outcome_bind]. cbn [ReadInternal_loop].
    rewrite shift_left_small by lia.
    unfold static_cast_uint8_t, kDataBitsPerByte.
    assert (bit_width T <= 64) by (destruct T; cbn; lia).
    rewrite (Z.mod_small (s + 7)) by lia.
    destruct (Z.land b kMoreDataMask =? 0); cbn [negb].
    + unfold ReadInternal_sign_bits.
      replace (s + 7 <? bit_width T) with true by (symmetry; apply Z.ltb_lt; lia).
      by rewrite andb_true_r.
    + apply Hrest.
  - rewrite (bytes_from_nil _ _ Hb). cbn [ReadInternal_loop].
    by destruct DEBUG.
Qed.

Lemma UNROLLED_END_step DEBUG T rs c r s v rs' :
  0 <= s < bit_width T -> bit_width T <= s + 7 -> 0 <= c ->
  current_ rs' <= c + 1 ->
  ReadInternal_from DEBUG T rs c r s = Ok (v, rs') ->
  UNROLLED_END DEBUG T s rs c r = Ok (v, rs').
Proof.
  intros Hs Hw Hc Hlast Hread.
  destruct (ReadInternal_from_cursor _ _ _ _ _ _ _ _ Hc Hread) as (_ & _ & Hmore).
  revert Hread. unfold ReadInternal_from, UNROLLED_END.
  destruct (buffer_ rs !! Z.to_nat c) as [b|] eqn:Hb.
  - rewrite (bytes_from_cons _ _ _ Hc Hb). unfold end_.
    rewrite (ASSERT_in_bounds _ _ _ _ _ Hc Hb), (read_at_lookup _ _ _ Hc Hb).
    cbv beta iota delta [mbind outcome_bind]. cbn [ReadInternal_loop].
    rewrite shift_left_small by lia.
    unfold static_cast_uint8_t, kDataBitsPerByte.
    assert (bit_width T <= 64) by (destruct T; cbn; lia).
    rewrite (Z.mod_small (s + 7)) by lia.
    destruct (Z.eqb_spec (Z.land b kMoreDataMask) 0) as [Hlastb|Hmoreb];
      cbn [negb].
    + unfold ReadInternal_sign_bits, ASSERT.
      replace (s + 7 <? bit_width T) with false by (symmetry; apply Z.ltb_ge; lia).
      rewrite andb_false_r, Z.lor_0_r. by destruct DEBUG.
    + intros ([[[c' b'] r'] s'] & Hloop & [= _ <-])%bind_Ok.
      apply ReadInternal_loop_cursor in Hloop as [Hc' _].
      cbn [current_] in Hlast. lia.
  - rewrite (bytes_from_nil _ _ Hb). cbn [ReadInternal_loop].
    by destruct DEBUG.
Qed.

Lemma Read32_ReadInternal DEBUG T rs v rs' :
  bit_width T = 32 ->
  ReadInternal DEBUG T rs = Ok (v, rs') -> current_ rs' - current_ rs <= 5 ->
  Read32 DEBUG T rs = Ok (v, rs').
Proof.
  intros Hw [Hc Hread]%ReadInternal_from_start Hlen. revert Hread.
  unfold Read32.
  repeat (apply UNROLLED_BODY_step; [lia|lia|lia|intros ?]).
  apply UNROLLED_END_step; lia.
Qed.

Lemma Read64_ReadInternal DEBUG T rs v rs' :
  bit_width T = 64 ->
  ReadInternal DEBUG T rs = Ok (v, rs') -> current_ rs' - current_ rs <= 10 ->
  Read64 DEBUG T rs = Ok (v, rs').
Proof.
  intros Hw [Hc Hread]%ReadInternal_from_start Hlen. revert Hread.
  unfold Read64.
  repeat (apply UNROLLED_BODY_step; [lia|lia|lia|intros ?]).
  apply UNROLLED_END_step; lia.
Qed.

(** The unrolled readers on a byte with the bit for more data. *)
Lemma UNROLLED_BODY_more DEBUG T bit_start rs rest c r b :
  0 <= c -> buffer_ rs !! Z.to_nat c = Some b ->
  Z.land b kMoreDataMask <> 0 ->
  exists r', UNROLLED_BODY DEBUG T bit_start rs rest c r = rest (c + 1) r'.
Proof.
  intros Hc Hb Hmore. unfold UNROLLED_BODY, end_.
  rewrite (ASSERT_in_bounds _ _ _ _ _ Hc Hb), (read_at_lookup _ _ _ Hc Hb).
  cbv beta iota delta [mbind outcome_bind].
  apply Z.eqb_neq in Hmore. rewrite Hmore. by eexists.
Qed.

Lemma UNROLLED_END_more DEBUG T bit_start rs c r b :
  0 <= c -> buffer_ rs !! Z.to_nat c = Some b ->
  Z.land b kMoreDataMask <> 0 ->
  exists v,
    UNROLLED_END DEBUG T bit_start rs c r =
      if DEBUG then Abort (ASSERT_FAILED "(b & kMoreDataMask) == 0")
      else Ok (v, MkReadStream (buffer_ rs) (c + 1)).
Proof.
  intros Hc Hb Hmore. unfold UNROLLED_END, end_.
  rewrite (ASSERT_in_bounds _ _ _ _ _ Hc Hb), (read_at_lookup _ _ _ Hc Hb).
  cbv beta iota delta [mbind outcome_bind]. unfold ASSERT.
  apply Z.eqb_neq in Hmore. rewrite Hmore. eexists. by destruct DEBUG.
Qed.

(** The unrolled readers on an encoding that goes on behind the bytes that
    hold a value of the type. *)
Ltac unrolled_more DEBUG T rs Hat :=
  repeat match goal with
  | |- context [UNROLLED_BODY DEBUG T ?s rs ?rest ?c ?r] =>
      let x := fresh "x" in
      let Hx := fresh "Hx" in
      let Hm := fresh "Hm" in
      let H := fresh "H" in
      destruct (Hat c) as (x & Hx & Hm); [lia|];
      destruct (UNROLLED_BODY_more DEBUG T s rs rest c r x) as [? H];
      [lia|exact Hx|exact Hm|]; rewrite H; clear H
  end;
  match goal with
  | |- context [UNROLLED_END DEBUG T ?s rs ?c ?r] =>
      let x := fresh "x" in
      let Hx := fresh "Hx" in
      let Hm := fresh "Hm" in
      let v := fresh "v" in
      let H := fresh "H" in
      destruct (Hat c) as (x & Hx & Hm); [lia|];
      destruct (UNROLLED_END_more DEBUG T s rs c r x) as [v H];
      [lia|exact Hx|exact Hm|];
      exists v; rewrite H; destruct DEBUG; [done|]; do 3 f_equal; lia
  end.

Lemma Read32_overlong DEBUG T rs :
  0 <= current_ rs ->
  (forall c, current_ rs <= c < current_ rs + 5 ->
     exists x, buffer_ rs !! Z.to_nat c = Some x /\
               Z.land x kMoreDataMask <> 0) ->
  exists v,
    Read32 DEBUG T rs =
      if DEBUG then Abort (ASSERT_FAILED "(b & kMoreDataMask) == 0")
      else Ok (v, MkReadStream (buffer_ rs) (current_ rs + 5)).
Proof. intros Hc Hat. unfold Read32. unrolled_more DEBUG T rs Hat. Qed.

Lemma Read64_overlong DEBUG T rs :
  0 <= current_ rs ->
  (forall c, current_ rs <= c < current_ rs + 10 ->
     exists x, buffer_ rs !! Z.to_nat c = Some x /\
               Z.land x kMoreDataMask <> 0) ->
  exists v,
    Read64 DEBUG T rs =
      if DEBUG then Abort (ASSERT_FAILED "(b & kMoreDataMask) == 0")
      else Ok (v, MkReadStream (buffer_ rs) (current_ rs + 10)).
Proof. intros Hc Hat. unfold Read64. unrolled_more DEBUG T rs Hat. Qed.

(** X3.  When [ReadInternal<T>] returns having read at most [ceil (w / 7)]
    bytes, the bytes that hold a value of the [w] bits of [T], the unrolled
    reader of that width ([Read32] or [Read64]) returns the same value and
    leaves the stream at the same place.  When [ReadInternal<T>] has read
    more bytes than that, the unrolled reader stops at byte [ceil (w / 7)]:
    in a debug build its assertion on that byte fails, in a release build
    it returns with the stream right behind that byte. *)
Theorem unrolled_readers_agree (DEBUG : bool) (T : IntType) (v : Z)
    (rs rs' : ReadStream) :
  ReadInternal DEBUG T rs = Ok (v, rs') ->
  (Position rs' - Position rs <= (bit_width T + 6) / 7 ->
   (bit_width T = 32 -> Read32 DEBUG T rs = Ok (v, rs')) /\
   (bit_width T = 64 -> Read64 DEBUG T rs = Ok (v, rs'))) /\
  ((bit_width T + 6) / 7 < Position rs' - Position rs ->
   (bit_width T = 32 ->
    Read32 true T rs = Abort (ASSERT_FAILED "(b & kMoreDataMask) == 0") /\
    exists v', Read32 false T rs =
                 Ok (v', MkReadStream (buffer_ rs) (Position rs + 5))) /\
   (bit_width T = 64 ->
    Read64 true T rs = Abort (ASSERT_FAILED "(b & kMoreDataMask) == 0") /\
    exists v', Read64 false T rs =
                 Ok (v', MkReadStream (buffer_ rs) (Position rs + 10)))).
Proof.
  intros Hread. unfold Position. split.
  - intros Hlen. split; intros Hw; rewrite Hw in Hlen;
      [apply Read32_ReadInternal|apply Read64_ReadInternal]; try done;
      revert Hlen; by vm_compute.
  - intros Hlen.
    destruct (ReadInternal_from_start _ _ _ _ Hread) as [Hc Hfrom].
    destruct (ReadInternal_from_cursor _ _ _ _ _ _ _ _ Hc Hfrom)
      as (_ & _ & Hmore).
    assert (forall c, current_ rs <= c < current_ rs + (bit_width T + 6) / 7 ->
              exists x, buffer_ rs !! Z.to_nat c = Some x /\
                        Z.land x kMoreDataMask <> 0) as Hat.
    { intros c Hcc. destruct (Hmore (Z.to_nat (c - current_ rs))) as (x & Hx & Hm).
      - lia.
      - exists x. split; [|done]. rewrite <- Hx. f_equal. lia. }
    split; intros Hw; rewrite Hw in Hat;
      change ((32 + 6) / 7) with 5 in Hat; change ((64 + 6) / 7) with 10 in Hat.
    + destruct (Read32_overlong true T rs Hc Hat) as [v1 H1].
      destruct (Read32_overlong false T rs Hc Hat) as [v2 H2].
      split; [done|]. by exists v2.
    + destruct (Read64_overlong true T rs Hc Hat) as [v1 H1].
      destruct (Read64_overlong false T rs Hc Hat) as [v2 H2].
      split; [done|]. by exists v2.
Qed.

Lemma unrolled_readers_agree_witness :
  (ReadInternal true int32_t (MkReadStream [7; 0xE5; 0x8E; 0x26; 9] 1) =
     Ok (624485, MkReadStream [7; 0xE5; 0x8E; 0x26; 9] 4) /\
   Read32 true int32_t (MkReadStream [7; 0xE5; 0x8E; 0x26; 9] 1) =
     Ok (624485, MkReadStream [7; 0xE5; 0x8E; 0x26; 9] 4)) /\
  (ReadInternal true int32_t
     (MkReadStream [0x81; 0x80; 0x80; 0x80; 0x80; 0x01] 0) =
     Ok (9, MkReadStream [0x81; 0x80; 0x80; 0x80; 0x80; 0x01] 6) /\
   Read32 true int32_t (MkReadStream [0x81; 0x80; 0x80; 0x80; 0x80; 0x01] 0) =
     Abort (ASSERT_FAILED "(b & kMoreDataMask) == 0") /\
   exists v',
     Read32 false int32_t (MkReadStream [0x81; 0x80; 0x80; 0x80; 0x80; 0x01] 0)
     = Ok (v', MkReadStream [0x81; 0x80; 0x80; 0x80; 0x80; 0x01] 5)).
Proof.
  split.
  - split; [reflexivity|].
    refine (proj1 (proj1 (unrolled_readers_agree true int32_t 624485
                            (MkReadStream [7; 0xE5; 0x8E; 0x26; 9] 1)
                            (MkReadStream [7; 0xE5; 0x8E; 0x26; 9] 4) eq_refl)
                     _) eq_refl).
    by vm_compute.
  - split; [reflexivity|].
    refine (proj1 (proj2 (unrolled_readers_agree true int32_t 9
                            (MkReadStream [0x81; 0x80; 0x80; 0x80; 0x80; 0x01] 0)
                            (MkReadStream [0x81; 0x80; 0x80; 0x80; 0x80; 0x01] 6)
                            eq_refl)
                     _) eq_refl).
    by vm_compute.
Defined.

(** [Raw<4, T>] and [Raw<8, T>]: what is written is read back. *)
Lemma Raw4_round_trip DEBUG T v st rest :
  bit_width T = 32 -> in_range T v ->
  exists bs,
    Raw4_Write T v st = Ok (st ++ bs) /\
    Raw4_Read DEBUG T (MkReadStream (st ++ bs ++ rest) (length st)) =
      Ok (v, MkReadStream (st ++ bs ++ rest) (length st + length bs)).
Proof.
  intros Hw Hv. unfold Raw4_Write, Raw4_Read, bit_cast.
  rewrite (static_cast_id T v Hv).
  pose proof (static_cast_in_range int32_t v) as Hv'.
  destruct (WriteInternal_sleb128 int32_t _ st eq_refl Hv') as (bs & Hwr & Henc).
  exists bs. split.
  { unfold Write. cbn [is_signed].
    by rewrite (static_cast_id int32_t _ Hv'). }
  pose proof (sleb128_length_bound int32_t _ _ eq_refl Hv' Henc) as Hlen.
  change (WriteInternal_fuel int32_t) with 5%nat in Hlen.
  rewrite (Read32_ReadInternal DEBUG int32_t _ _ _ eq_refl
             (ReadInternal_sleb128 DEBUG int32_t _ _ st rest eq_refl Hv' Henc))
    by (cbn [current_]; lia).
  cbv beta iota delta [mbind outcome_bind].
  by rewrite static_cast_there_and_back.
Qed.

Lemma Raw8_round_trip DEBUG T v st rest :
  bit_width T = 64 -> in_range T v ->
  exists bs,
    Raw8_Write T v st = Ok (st ++ bs) /\
    Raw8_Read DEBUG T (MkReadStream (st ++ bs ++ rest) (length st)) =
      Ok (v, MkReadStream (st ++ bs ++ rest) (length st + length bs)).
Proof.
  intros Hw Hv. unfold Raw8_Write, Raw8_Read, bit_cast.
  rewrite (static_cast_id T v Hv).
  pose proof (static_cast_in_range int64_t v) as Hv'.
  destruct (WriteInternal_sleb128 int64_t _ st eq_refl Hv') as (bs & Hwr & Henc).
  exists bs. split.
  { unfold Write. cbn [is_signed].
    by rewrite (static_cast_id int64_t _ Hv'). }
  pose proof (sleb128_length_bound int64_t _ _ eq_refl Hv' Henc) as Hlen.
  change (WriteInternal_fuel int64_t) with 10%nat in Hlen.
  rewrite (Read64_ReadInternal DEBUG int64_t _ _ _ eq_refl
             (ReadInternal_sleb128 DEBUG int64_t _ _ st rest eq_refl Hv' Henc))
    by (cbn [current_]; lia).
  cbv beta iota delta [mbind outcome_bind].
  by rewrite static_cast_there_and_back.
Qed.

(** X4.  A value written with [Raw<N, T>::Write] is read back by
    [Raw<N, T>::Read], for [N] = 4 and [N] = 8 and both the signed and the
    unsigned type of that size; the stream is left right behind the bytes
    written. *)
Theorem Raw_round_trip (DEBUG : bool) (T : IntType) (v : Z)
    (st rest : list Z) :
  in_range T v ->
  (bit_width T = 32 ->
   exists bs,
     Raw4_Write T v st = Ok (st ++ bs) /\
     Raw4_Read DEBUG T (MkReadStream (st ++ bs ++ rest) (length st)) =
       Ok (v, MkReadStream (st ++ bs ++ rest) (length st + length bs))) /\
  (bit_width T = 64 ->
   exists bs,
     Raw8_Write T v st = Ok (st ++ bs) /\
     Raw8_Read DEBUG T (MkReadStream (st ++ bs ++ rest) (length st)) =
       Ok (v, MkReadStream (st ++ bs ++ rest) (length st + length bs))).
Proof.
  intros Hv. split; intros Hw.
  - by apply Raw4_round_trip.
  - by apply Raw8_round_trip.
Qed.

Lemma Raw_round_trip_witness :
  in_range uint64_t 18446744073709551615 /\
  exists bs,
    Raw8_Write uint64_t 18446744073709551615 [7] = Ok ([7] ++ bs) /\
    Raw8_Read true uint64_t (MkReadStream ([7] ++ bs ++ [9]) (length [7])) =
      Ok (18446744073709551615,
          MkReadStream ([7] ++ bs ++ [9]) (length [7] + length bs)).
Proof.
  assert (in_range uint64_t 18446744073709551615) as Hv by (by vm_compute).
  split; [exact Hv|].
  apply (proj2 (Raw_round_trip true uint64_t 18446744073709551615 [7] [9] Hv)).
  reflexivity.
Defined.

Lemma word_parts v :
  0 <= v < 2 ^ 64 ->
  Z.lor
    (Z.lor 0
       (static_cast uintptr_t
          (Z.shiftl (static_cast uintptr_t (v mod 2 ^ 32)) (0 * kNumBitsPer32))))
    (static_cast uintptr_t
       (Z.shiftl (static_cast uintptr_t (v / 2 ^ 32)) ((0 + 1) * kNumBitsPer32)))
  = v.
Proof.
  intros Hv. unfold kNumBitsPer32. change (0 * 32) with 0.
  change ((0 + 1) * 32) with 32. rewrite Z.shiftl_0_r, Z.lor_0_l.
  assert (0 <= v mod 2 ^ 32 < 2 ^ 32) by (apply Z.mod_pos_bound; lia).
  assert (0 <= v / 2 ^ 32 < 2 ^ 32).
  { split; [apply Z.div_pos; lia|]. apply Z.div_lt_upper_bound; lia. }
  rewrite Z.shiftl_mul_pow2 by lia.
  assert (forall x, 0 <= x < 2 ^ 64 -> static_cast uintptr_t x = x) as Hid.
  { intros x Hx. by apply static_cast_id. }
  rewrite !(Hid (v mod 2 ^ 32)), (Hid (v / 2 ^ 32)), Hid by lia.
  rewrite lor_disjoint by lia. pose proof (Z.div_mod v (2 ^ 32)). lia.
Qed.

(** X5.  A word written with [WriteWordWith32BitWrites] is read back by
    [ReadWordWith32BitReads], given that [Utils::NBitMask(32)] is the mask
    of 32 ones. *)
Theorem word_round_trip (NBitMask : Z -> Z) (DEBUG : bool) (value : Z)
    (st rest : list Z) :
  static_cast uint32_t (NBitMask 32) = 2 ^ 32 - 1 ->
  in_range uintptr_t value ->
  exists bs,
    WriteWordWith32BitWrites NBitMask value st = Ok (st ++ bs) /\
    ReadWordWith32BitReads DEBUG (MkReadStream (st ++ bs ++ rest) (length st)) =
      Ok (value, MkReadStream (st ++ bs ++ rest) (length st + length bs)).
Proof.
  intros Hmask Hv. unfold WriteWordWith32BitWrites, ReadWordWith32BitReads.
  rewrite (static_cast_id _ _ Hv). unfold kNumBitsPer32 at 1, kNum32PerWord.
  rewrite Hmask. cbn [WriteWordWith32BitWrites_loop ReadWordWith32BitReads_loop].
  unfold in_range in Hv. cbn [uintptr_t is_signed bit_width] in Hv.
  assert (forall x, Z.land (static_cast uint32_t x) (2 ^ 32 - 1) = x mod 2 ^ 32)
    as Hland.
  { intros x. change (2 ^ 32 - 1) with (Z.ones 32).
    rewrite Z.land_ones by lia. unfold static_cast. cbn [is_signed bit_width].
    by rewrite Z.mod_mod. }
  rewrite !Hland. unfold kNumBitsPer32 at 1 2.
  change (0 * 32) with 0. change ((0 + 1) * 32) with 32.
  rewrite Z.shiftr_0_r, Z.shiftr_div_pow2 by lia.
  assert (0 <= value / 2 ^ 32 < 2 ^ 32) as Hhi.
  { split; [apply Z.div_pos; lia|]. apply Z.div_lt_upper_bound; lia. }
  rewrite (Z.mod_small (value / 2 ^ 32)) by done.
  assert (in_range uint32_t (value mod 2 ^ 32)) as Hlo'.
  { unfold in_range. cbn [is_signed bit_width]. apply Z.mod_pos_bound. lia. }
  assert (in_range uint32_t (value / 2 ^ 32)) as Hhi' by done.
  destruct (Raw4_round_trip DEBUG uint32_t _ st [] eq_refl Hlo')
    as (bs0 & Hw0 & _).
  destruct (Raw4_round_trip DEBUG uint32_t _ (st ++ bs0) rest eq_refl Hhi')
    as (bs1 & Hw1 & Hr1).
  destruct (Raw4_round_trip DEBUG uint32_t _ st (bs1 ++ rest) eq_refl Hlo')
    as (bs0' & Hw0' & Hr0).
  assert (bs0' = bs0) as -> by (rewrite Hw0 in Hw0'; by simplify_list_eq).
  exists (bs0 ++ bs1). rewrite Hw0. cbv beta iota delta [mbind outcome_bind].
  rewrite Hw1. split; [by rewrite app_assoc|].
  rewrite <- !app_assoc, Hr0. cbv beta iota delta [mbind outcome_bind].
  rewrite length_app, Nat2Z.inj_add in Hr1. rewrite <- !app_assoc in Hr1.
  rewrite Hr1. cbv beta iota delta [mbind outcome_bind].
  rewrite word_parts by done. do 3 f_equal. rewrite length_app. lia.
Qed.

Lemma word_round_trip_witness :
  static_cast uint32_t ((fun n => 2 ^ n - 1) 32) = 2 ^ 32 - 1 /\
  in_range uintptr_t 0x1122334455667788 /\
  exists bs,
    WriteWordWith32BitWrites (fun n => 2 ^ n - 1) 0x1122334455667788 [7] =
      Ok ([7] ++ bs) /\
    ReadWordWith32BitReads true (MkReadStream ([7] ++ bs ++ [9]) (length [7])) =
      Ok (0x1122334455667788,
          MkReadStream ([7] ++ bs ++ [9]) (length [7] + length bs)).
Proof.
  split; [reflexivity|]. split; [by vm_compute|].
  apply (word_round_trip (fun n => 2 ^ n - 1) true 0x1122334455667788 [7] [9]);
    [reflexivity|by vm_compute].
Defined.












Lemma ASSERT_true DEBUG text : ASSERT DEBUG (Ok true) text = Ok tt.
Proof. by destruct DEBUG. Qed.

Lemma ReadBytes_app DEBUG pre bs rest :
  ReadBytes DEBUG (Z.of_nat (length bs))
    (MkReadStream (pre ++ bs ++ rest) (length pre)) =
    Ok (bs, MkReadStream (pre ++ bs ++ rest) (length pre + length bs)).
Proof.
  unfold ReadBytes, end_, bytes_from. cbn [buffer_ current_].
  rewrite !length_app, !Nat2Z.inj_add.
  replace (Z.of_nat (length bs) <=? _) with true
    by (symmetry; apply Z.leb_le; lia).
  rewrite ASSERT_true. cbv beta iota delta [mbind outcome_bind].
  destruct (Z.eqb_spec (Z.of_nat (length bs)) 0) as [Hz|Hnz].
  - assert (bs = []) as -> by (destruct bs; [done|cbn in *; lia]).
    cbn [length]. by rewrite Z.add_0_r.
  - replace (Z.of_nat (length bs) <? 0) with false
      by (symmetry; apply Z.ltb_ge; lia).
    replace (Z.of_nat (length pre) <? 0) with false
      by (symmetry; apply Z.ltb_ge; lia).
    replace (_ <? Z.of_nat (length bs)) with false
      by (symmetry; apply Z.ltb_ge; lia).
    by rewrite !Nat2Z.id, drop_app_length, take_app_length.
Qed.

Lemma PendingBytes_app DEBUG pre rest :
  PendingBytes DEBUG (MkReadStream (pre ++ rest) (length pre)) =
    Ok (Z.of_nat (length rest)).
Proof.
  unfold PendingBytes, end_. cbn [buffer_ current_].
  rewrite length_app, Nat2Z.inj_add.
  replace (_ <=? _) with true by (symmetry; apply Z.leb_le; lia).
  rewrite ASSERT_true. cbv beta iota delta [mbind outcome_bind].
  f_equal. lia.
Qed.

(** X7.  A block written as [PushBytecountFrontScope] writes it, with
    [WriteUnsigned] of the length and [WriteBytes] of the payload, is read
    back by [ReadUnsigned], which returns the length, and [ReadBytes] of
    that length, which returns the payload and leaves the stream right
    behind the block. *)
Theorem length_prefixed_block_read_back (DEBUG : bool)
    (payload st rest : list Z) :
  let n := Z.of_nat (length payload) in
  n < 2 ^ 63 ->
  exists prefix rs1 rs2,
    WriteUnsigned DEBUG intptr_t n st = Ok (st ++ prefix) /\
    WriteBytes payload n (st ++ prefix) = st ++ prefix ++ payload /\
    ReadUnsigned DEBUG intptr_t
      (MkReadStream (st ++ prefix ++ payload ++ rest) (length st)) =
      Ok (n, rs1) /\
    ReadBytes DEBUG n rs1 = Ok (payload, rs2) /\
    Position rs2 = Z.of_nat (length (st ++ prefix ++ payload)) /\
    PendingBytes DEBUG rs2 = Ok (Z.of_nat (length rest)).
Proof.
  intros n Hn.
  assert (in_range intptr_t n) as Hr.
  { unfold in_range. cbn [intptr_t is_signed bit_width]. lia. }
  destruct (WriteUnsigned_intptr_t DEBUG n st) as (prefix & Hw & Henc); [lia|].
  assert (in_range uint64_t n) as Hr'.
  { unfold in_range. cbn [is_signed bit_width]. closed_consts. lia. }
  set (buffer := st ++ prefix ++ payload ++ rest).
  exists prefix, (MkReadStream buffer (length st + length prefix)),
    (MkReadStream buffer (length (st ++ prefix) + length payload)).
  split; [done|]. split.
  { unfold WriteBytes, n. by rewrite Nat2Z.id, firstn_all, <- app_assoc. }
  split.
  { unfold ReadUnsigned. cbn [intptr_t is_unsigned is_signed negb make_unsigned].
    subst buffer.
    rewrite (ReadInternal_uleb128 DEBUG uint64_t n prefix st (payload ++ rest)
               eq_refl Hr' Henc).
    cbv beta iota delta [mbind outcome_bind]. unfold bit_cast.
    by rewrite (static_cast_id intptr_t n Hr). }
  split.
  { subst buffer n. rewrite <- Nat2Z.inj_add, <- length_app, (app_assoc st prefix).
    apply ReadBytes_app. }
  split.
  { unfold Position. cbn [current_]. rewrite (app_assoc st), !length_app. lia. }
  subst buffer. rewrite <- Nat2Z.inj_add, <- length_app, !app_assoc.
  apply PendingBytes_app.
Qed.

Lemma length_prefixed_block_read_back_witness :
  let n := Z.of_nat (length [0x60; 0x00; 0x01; 0x7F]) in
  n < 2 ^ 63 /\
  exists prefix rs1 rs2,
    WriteUnsigned true intptr_t n [0x01] = Ok ([0x01] ++ prefix) /\
    WriteBytes [0x60; 0x00; 0x01; 0x7F] n ([0x01] ++ prefix) =
      [0x01] ++ prefix ++ [0x60; 0x00; 0x01; 0x7F] /\
    ReadUnsigned true intptr_t
      (MkReadStream ([0x01] ++ prefix ++ [0x60; 0x00; 0x01; 0x7F] ++ [0x03])
         (length [0x01])) = Ok (n, rs1) /\
    ReadBytes true n rs1 = Ok ([0x60; 0x00; 0x01; 0x7F], rs2) /\
    Position rs2 =
      Z.of_nat (length ([0x01] ++ prefix ++ [0x60; 0x00; 0x01; 0x7F])) /\
    PendingBytes true rs2 = Ok (Z.of_nat (length [0x03])).
Proof.
  split; [by vm_compute|].
  apply (length_prefixed_block_read_back true [0x60; 0x00; 0x01; 0x7F]
           [0x01] [0x03]).
  by vm_compute.
Defined.

(** The loop of [ReadInternal] on bytes with the bit for more data
    followed by one without it, and on bytes that all have it. *)
Lemma ReadInternal_loop_last DEBUG T body last rest c r s :
  Forall (fun b => Z.land b kMoreDataMask <> 0) body ->
  Z.land last kMoreDataMask = 0 ->
  exists r' s',
    ReadInternal_loop DEBUG T (body ++ last :: rest) c r s =
      Ok (c + Z.of_nat (length body) + 1, last, r', s').
Proof.
  intros Hbody Hlast. revert c r s.
  induction Hbody as [|b body Hb _ IH]; intros c r s;
    cbn [app length ReadInternal_loop].
  - rewrite Hlast. cbn [Z.eqb negb]. do 2 eexists. do 4 f_equal. lia.
  - apply Z.eqb_neq in Hb. rewrite Hb. cbn [negb].
    edestruct IH as (r' & s' & ->). do 2 eexists. do 4 f_equal. lia.
Qed.

Lemma ReadInternal_loop_no_last T pending c r s :
  Forall (fun b => Z.land b kMoreDataMask <> 0) pending ->
  ReadInternal_loop true T pending c r s = Abort (ASSERT_FAILED "c < end_").
Proof.
  intros Hpending. revert c r s.
  induction Hpending as [|b pending Hb _ IH]; intros c r s;
    cbn [ReadInternal_loop]; [done|].
  apply Z.eqb_neq in Hb. rewrite Hb. cbn [negb]. apply IH.
Qed.

(** X8.  A reader stops at the first byte without the bit for more data,
    however many bytes with that bit come before it: it returns a value of
    the type and leaves the stream right behind that byte, also when the
    bytes are more than the [ceil (w / 7)] that hold a value of the type.
    When every byte from the cursor to the end of the buffer has the bit, a
    debug build fails the assertion [c < end_]. *)
Theorem reader_stops_at_last_byte (DEBUG : bool) (T : IntType)
    (rs : ReadStream) :
  0 <= Position rs ->
  let stops_at_last_byte
      (reader : bool -> IntType -> ReadStream -> outcome (Z * ReadStream)) :=
    (forall body last rest,
       bytes_from rs (Position rs) = body ++ last :: rest ->
       Forall (fun b => Z.land b kMoreDataMask <> 0) body ->
       Z.land last kMoreDataMask = 0 ->
       exists v,
         in_range T v /\
         reader DEBUG T rs =
           Ok (v, MkReadStream (buffer_ rs)
                    (Position rs + Z.of_nat (length body) + 1))) /\
    (Forall (fun b => Z.land b kMoreDataMask <> 0)
       (bytes_from rs (Position rs)) ->
     reader true T rs = Abort (ASSERT_FAILED "c < end_")) in
  stops_at_last_byte ReadInternal /\
  stops_at_last_byte Read /\
  stops_at_last_byte ReadUnsigned.
Proof.
  unfold Position. intros Hc. cbv zeta.
  assert (forall DEBUG' T' body last rest,
            bytes_from rs (current_ rs) = body ++ last :: rest ->
            Forall (fun b => Z.land b kMoreDataMask <> 0) body ->
            Z.land last kMoreDataMask = 0 ->
            exists v,
              in_range T' v /\
              ReadInternal DEBUG' T' rs =
                Ok (v, MkReadStream (buffer_ rs)
                         (current_ rs + Z.of_nat (length body) + 1)))
    as Hlast.
  { intros DEBUG' T' body last rest Hbytes Hbody Hl. unfold ReadInternal.
    replace (current_ rs <? 0) with false by (symmetry; apply Z.ltb_ge; lia).
    rewrite Hbytes.
    destruct (ReadInternal_loop_last DEBUG' T' body last rest (current_ rs) 0 0
                Hbody Hl) as (r' & s' & ->).
    cbv beta iota delta [mbind outcome_bind].
    eexists. split; [apply static_cast_in_range|done]. }
  assert (forall T',
            Forall (fun b => Z.land b kMoreDataMask <> 0)
              (bytes_from rs (current_ rs)) ->
            ReadInternal true T' rs = Abort (ASSERT_FAILED "c < end_"))
    as Hnone.
  { intros T' Hall. unfold ReadInternal.
    replace (current_ rs <? 0) with false by (symmetry; apply Z.ltb_ge; lia).
    by rewrite ReadInternal_loop_no_last. }
  split; [|split].
  - split; [by apply Hlast|by apply Hnone].
  - unfold Read. split.
    + intros body last rest Hbytes Hbody Hl.
      destruct (is_signed T); [by eapply Hlast|].
      destruct (Hlast DEBUG (make_signed T) body last rest Hbytes Hbody Hl)
        as (v & _ & ->).
      cbv beta iota delta [mbind outcome_bind].
      eexists. split; [apply static_cast_in_range|done].
    + intros Hall. destruct (is_signed T); [by apply Hnone|].
      by rewrite Hnone.
  - unfold ReadUnsigned. split.
    + intros body last rest Hbytes Hbody Hl.
      destruct (is_unsigned T); [by eapply Hlast|].
      destruct (Hlast DEBUG (make_unsigned T) body last rest Hbytes Hbody Hl)
        as (v & _ & ->).
      cbv beta iota delta [mbind outcome_bind].
      eexists. split; [apply static_cast_in_range|done].
    + intros Hall. destruct (is_unsigned T); [by apply Hnone|].
      by rewrite Hnone.
Qed.

Lemma reader_stops_at_last_byte_witness :
  0 <= Position (MkReadStream [7; 0x80; 0x80; 0x80; 0x80; 0x80; 0x00] 1) /\
  (exists v,
     in_range int32_t v /\
     Read true int32_t
       (MkReadStream [7; 0x80; 0x80; 0x80; 0x80; 0x80; 0x00] 1) =
       Ok (v, MkReadStream [7; 0x80; 0x80; 0x80; 0x80; 0x80; 0x00] 7)) /\
  Read true int32_t (MkReadStream [7; 0x80; 0x80; 0x80] 1) =
    Abort (ASSERT_FAILED "c < end_").
Proof.
  split; [by vm_compute|]. split.
  - assert (0 <= Position (MkReadStream [7; 0x80; 0x80; 0x80; 0x80; 0x80; 0x00] 1))
      as Hc by (by vm_compute).
    destruct (reader_stops_at_last_byte true int32_t _ Hc) as (_ & [H _] & _).
    apply (H [0x80; 0x80; 0x80; 0x80; 0x80] 0 []);
      [reflexivity|repeat constructor; by vm_compute|reflexivity].
  - assert (0 <= Position (MkReadStream [7; 0x80; 0x80; 0x80] 1))
      as Hc by (by vm_compute).
    destruct (reader_stops_at_last_byte true int32_t _ Hc) as (_ & [_ H] & _).
    apply H. repeat constructor; by vm_compute.
Defined.

(** X9.  A position taken with [Position] is restored by [SetPosition],
    except the position at the end of the buffer: [Advance] by the pending
    bytes reaches it, and so does [SetPosition] in a release build, but in a
    debug build [SetPosition] trips its assertion there. *)
Theorem SetPosition_of_Position (DEBUG : bool) (rs rs' : ReadStream) :
  in_buffer rs -> buffer_ rs' = buffer_ rs ->
  (Position rs < Z.of_nat (end_ rs) ->
   SetPosition DEBUG (Position rs) rs' = Ok rs) /\
  (Position rs = Z.of_nat (end_ rs) ->
   Advance DEBUG (Z.of_nat (end_ rs) - Position rs') rs' = Ok rs /\
   SetPosition false (Position rs) rs' = Ok rs /\
   SetPosition true (Position rs) rs' =
     Abort (ASSERT_FAILED "(end_ - buffer_) > value")).
Proof.
  destruct rs as [buffer c], rs' as [buffer' c'].
  unfold SetPosition, Advance, Position, ASSERT, in_buffer, end_.
  cbn [buffer_ current_]. intros Hc ->. split.
  - intros Hlt.
    replace (c <? _) with true by (symmetry; apply Z.ltb_lt; lia).
    by destruct DEBUG.
  - intros Heq. rewrite Z.leb_refl.
    replace (c' + (Z.of_nat (length buffer) - c')) with c by lia.
    rewrite Heq, Z.ltb_irrefl. split; [by destruct DEBUG|done].
Qed.

Lemma SetPosition_of_Position_witness :
  in_buffer (MkReadStream [1; 2; 3] 3) /\
  buffer_ (MkReadStream [1; 2; 3] 1) = buffer_ (MkReadStream [1; 2; 3] 3) /\
  Advance true 2 (MkReadStream [1; 2; 3] 1) = Ok (MkReadStream [1; 2; 3] 3) /\
  SetPosition false 3 (MkReadStream [1; 2; 3] 1) =
    Ok (MkReadStream [1; 2; 3] 3) /\
  SetPosition true 3 (MkReadStream [1; 2; 3] 1) =
    Abort (ASSERT_FAILED "(end_ - buffer_) > value").
Proof.
  assert (in_buffer (MkReadStream [1; 2; 3] 3)) as Hin
    by (unfold in_buffer, end_; cbn; lia).
  split; [exact Hin|]. split; [reflexivity|].
  apply (proj2 (SetPosition_of_Position true (MkReadStream [1; 2; 3] 3)
                  (MkReadStream [1; 2; 3] 1) Hin eq_refl)).
  reflexivity.
Defined.

(** ** The binary form of a list of instructions *)

Lemma writes_WRITE_UNSIGNED_uint32_t DEBUG stream v bs :
  uleb128 (static_cast uint32_t v) bs ->
  writes (WRITE_UNSIGNED DEBUG uint32_t stream v) stream bs.
Proof.
  intros Henc. apply writes_on_stream. intros st.
  pose proof (static_cast_in_range uint32_t v) as Hr.
  destruct (WriteInternal_uleb128 uint32_t _ st eq_refl Hr) as (bs' & Hw & Henc').
  rewrite (uleb128_det _ _ _ Henc Henc').
  unfold WriteUnsigned, ASSERT. cbn [is_unsigned is_signed negb].
  replace (0 <=? static_cast uint32_t v) with true.
  - by destruct DEBUG.
  - symmetry. apply Z.leb_le. unfold in_range in Hr. cbn [is_signed bit_width] in Hr. lia.
Qed.

Lemma writes_Instruction DEBUG zone this i bs stream :
  get_Instruction zone this = Ok i -> instruction_bytes i bs ->
  writes (Instruction_OutputBinary DEBUG zone this stream) stream bs.
Proof.
  intros Hi Hbs. unfold Instruction_OutputBinary.
  eapply writes_lift_bind; [done|].
  destruct i; cbn in Hbs; try done.
  - subst bs. apply writes_WRITE_BYTE.
  - destruct Hbs as (e & He & ->). unfold Constant_OutputBinary.
    apply (writes_bind _ _ _ [0x41] e); [apply writes_WRITE_BYTE|].
    by apply writes_WRITE_UNSIGNED_uint32_t.
Qed.

Lemma Instruction_UNIMPLEMENTED DEBUG zone this i stream σ :
  get_Instruction zone this = Ok i -> has_binary_form i = false ->
  Instruction_OutputBinary DEBUG zone this stream σ = (Abort UNIMPLEMENTED, σ).
Proof.
  intros Hi Hb. unfold Instruction_OutputBinary. rewrite Hi.
  by destruct i.
Qed.

Lemma has_binary_form_bytes i :
  has_binary_form i = true -> exists bs, instruction_bytes i bs.
Proof.
  destruct i; try done; intros _; cbn.
  - by eexists.
  - destruct (WriteInternal_uleb128 uint32_t _ [] eq_refl
                (static_cast_in_range uint32_t value_)) as (e & _ & He).
    eauto.
Qed.

(** X10.  [InstructionList::OutputBinary] writes the instructions in order,
    [0x6A] for [i32.add] and [0x41] with the unsigned LEB128 of the value
    for [i32.const], up to the first [local.get], [local.set] or [if]: there
    it stops with UNIMPLEMENTED, the bytes of the instructions ahead of it
    written and nothing after them.  Without such an instruction it returns
    with all of them written. *)
Theorem InstructionList_OutputBinary_cases (DEBUG : bool) (zone : Zone)
    (this stream : ptr) (il : InstructionList) (instrs : list Instruction) :
  get_InstructionList zone this = Ok il ->
  Forall2 (fun p i => get_Instruction zone p = Ok i) (instructions_ il) instrs ->
  exists bss,
    Forall2 instruction_bytes (binary_prefix instrs) bss /\
    forall σ st, deref σ stream = Some st ->
      InstructionList_OutputBinary DEBUG zone this stream σ =
        (if forallb has_binary_form instrs then Ok tt else Abort UNIMPLEMENTED,
         store σ stream (st ++ concat bss)).
Proof.
  intros Hil Hinstrs. unfold InstructionList_OutputBinary. rewrite Hil.
  cbv beta iota delta [mbind M_bind lift].
  induction Hinstrs as [|p i ps instrs Hi _ (bss & Hbss & IH)].
  - exists []. split; [constructor|]. intros σ st Hst. cbn.
    by rewrite app_nil_r, store_same.
  - cbn [binary_prefix forallb for_each].
    destruct (has_binary_form i) eqn:Hb.
    + destruct (has_binary_form_bytes i Hb) as [bs Hbs].
      exists (bs :: bss). split; [by constructor|]. intros σ st Hst.
      cbv beta iota delta [mbind M_bind].
      rewrite (writes_Instruction DEBUG zone p i bs stream Hi Hbs σ st Hst).
      rewrite (IH _ (st ++ bs)) by (apply deref_store_eq; eauto).
      cbn [andb concat]. by rewrite store_store, app_assoc.
    + exists []. split; [constructor|]. intros σ st Hst.
      cbv beta iota delta [mbind M_bind].
      rewrite (Instruction_UNIMPLEMENTED _ _ _ _ _ _ Hi Hb).
      cbn [andb concat]. by rewrite app_nil_r, store_same.
Qed.

(** ** Reference types without a shorthand *)

(** X11.  A reference type that has no shorthand is rendered in the general
    form: as text [(ref null? <heap type>)], with [null] exactly when it is
    nullable; as binary, the byte [0x6C] when nullable and [0x6B] when not,
    then the bytes of the heap type.  For the heap type [any] (which without
    a shorthand is the one that is not nullable) the binary output aborts
    after the byte [0x6B] is written. *)
Theorem RefType_general_form (zone : Zone) (nullable : bool) (heap_type : ptr)
    (h : HeapType) :
  get_HeapType zone heap_type = Ok h ->
  shorthand_row nullable (HeapType_kind_ h) = None ->
  (forall s, HeapType_Serialize zone heap_type = Ok s ->
     RefType_Serialize zone nullable heap_type =
       Ok (SExpList ([SExpSymbol "ref"]
                       ++ (if nullable then [SExpSymbol "null"] else [])
                       ++ [s]))) /\
  (forall stream bs,
     writes (HeapType_OutputBinary zone heap_type stream) stream bs ->
     writes (RefType_OutputBinary zone nullable heap_type stream) stream
       ((if nullable then 0x6C else 0x6B) :: bs)) /\
  (HeapType_kind_ h = kAny ->
   forall stream σ st, deref σ stream = Some st ->
     RefType_OutputBinary zone nullable heap_type stream σ =
       (Abort (FATAL "any/anyref not implemented by V8"),
        store σ stream (st ++ [0x6B]))).
Proof.
  intros Hh Hrow.
  assert (forall stream, writes (WRITE_SIGNED int32_t stream (-0x14)) stream [0x6C])
    as H6C.
  { intros stream. apply writes_WRITE_SIGNED_int32_t.
    rewrite static_cast_id by (unfold in_range; cbn; lia).
    by apply (sleb128_one_byte (-0x14)). }
  assert (forall stream, writes (WRITE_SIGNED int32_t stream (-0x15)) stream [0x6B])
    as H6B.
  { intros stream. apply writes_WRITE_SIGNED_int32_t.
    rewrite static_cast_id by (unfold in_range; cbn; lia).
    by apply (sleb128_one_byte (-0x15)). }
  unfold RefType_Serialize, RefType_OutputBinary. rewrite Hh.
  cbv beta iota delta [mbind M_bind outcome_bind lift].
  split; [|split].
  - intros s Hs. rewrite Hs.
    destruct nullable, (HeapType_kind_ h); by try discriminate Hrow.
  - intros stream bs Hbs.
    destruct nullable, (HeapType_kind_ h); try discriminate Hrow;
      cbn [negb andb bool_decide decide_rel];
      first [by apply (writes_bind _ _ _ [0x6C] bs)
            |by apply (writes_bind _ _ _ [0x6B] bs)].
  - intros Hany stream σ st Hst. rewrite Hany in *.
    destruct nullable; [discriminate Hrow|].
    rewrite bool_decide_eq_false_2 by done.
    cbv beta iota delta [mbind M_bind negb andb].
    rewrite (H6B stream σ st Hst). unfold HeapType_OutputBinary. rewrite Hh.
    cbv beta iota delta [mbind M_bind lift]. by rewrite Hany.
Qed.

Lemma RefType_general_form_witness :
  let zone := zone_ (WasmModuleBuilder_new []) in
  let heap_type := func_ (WasmModuleBuilder_new []) in
  (forall s, HeapType_Serialize zone heap_type = Ok s ->
     RefType_Serialize zone false heap_type =
       Ok (SExpList ([SExpSymbol "ref"] ++ [] ++ [s]))) /\
  (forall stream bs,
     writes (HeapType_OutputBinary zone heap_type stream) stream bs ->
     writes (RefType_OutputBinary zone false heap_type stream) stream
       (0x6B :: bs)) /\
  (kFunc = kAny ->
   forall stream σ st, deref σ stream = Some st ->
     RefType_OutputBinary zone false heap_type stream σ =
       (Abort (FATAL "any/anyref not implemented by V8"),
        store σ stream (st ++ [0x6B]))).
Proof.
  exact (RefType_general_form (zone_ (WasmModuleBuilder_new [])) false
           (func_ (WasmModuleBuilder_new [])) (MkHeapType kFunc nullptr)
           eq_refl eq_refl).
Defined.

(** ** The text form of a function *)

Lemma for_sexp_locals zone locals texts sexp :
  Forall (fun p => exists l, get_Local zone p = Ok l) locals ->
  Forall2 (fun p s => Local_Serialize zone p = Ok s)
    (List.filter (fun local =>
                    match get_Local zone local with
                    | Ok l => bool_decide (Local_kind_ l = kLocal)
                    | Abort _ => false
                    end) locals) texts ->
  for_sexp locals (fun it sexp =>
      l ← get_Local zone it;
      if bool_decide (Local_kind_ l = kLocal)
      then s ← Local_Serialize zone it; Ok (Add sexp s)
      else Ok sexp) sexp = Ok (sexp ++ texts).
Proof.
  intros Hvalid. revert texts sexp.
  induction Hvalid as [|p locals [l Hl] _ IH]; intros texts sexp Htexts;
    cbn [for_sexp List.filter] in *.
  - apply Forall2_nil_inv_l in Htexts as ->. by rewrite app_nil_r.
  - rewrite Hl in *. cbv beta iota delta [mbind outcome_bind].
    destruct (bool_decide (Local_kind_ l = kLocal)).
    + apply Forall2_cons_inv_l in Htexts as (s & texts' & Hs & Htexts & ->).
      rewrite Hs. cbv beta iota delta [mbind outcome_bind].
      rewrite (IH texts') by done. unfold Add. by rewrite <- app_assoc.
    + by apply IH.
Qed.

(** X12.  The text form of a function is
    [(func $name (type <index>) <locals> <body>)]: the name only when it is
    not empty, the index of the type of the function, the locals that are
    not parameters in their order (the parameters are left out), and the
    body, or the symbol [<missing body>] when there is none. *)
Theorem Function_Serialize_lists_locals (zone : Zone) (fuel : nat) (this : ptr)
    (f : Function) (type : DefType) (texts : list SExpression)
    (body : SExpression) :
  get_Function zone this = Ok f ->
  get_DefType zone (Function_type_ f) = Ok type ->
  Forall (fun p => exists l, get_Local zone p = Ok l) (locals_ f) ->
  Forall2 (fun p s => Local_Serialize zone p = Ok s)
    (non_param_locals zone f) texts ->
  (if bool_decide (body_ f ≠ nullptr)
   then InstructionList_Serialize zone fuel (body_ f) = Ok body
   else body = SExpSymbol "<missing body>") ->
  Function_Serialize zone fuel this =
    Ok (SExpList
          ([SExpSymbol "func"]
             ++ (if bool_decide (Function_name_ f ≠ "")
                 then [SExpSymbol ("$" +:+ Function_name_ f)] else [])
             ++ [SExpList [SExpSymbol "type"; SExpInteger (DefType_index type)]]
             ++ texts ++ [body])).
Proof.
  intros Hf Htype Hvalid Htexts Hbody. unfold Function_Serialize.
  rewrite Hf. cbv beta iota delta [mbind outcome_bind]. rewrite Htype.
  cbv beta iota delta [mbind outcome_bind].
  rewrite (for_sexp_locals zone (locals_ f) texts) by done.
  cbv beta iota delta [mbind outcome_bind]. unfold Add.
  destruct (bool_decide (body_ f ≠ nullptr)).
  - rewrite Hbody. cbv beta iota delta [mbind outcome_bind].
    destruct (bool_decide (Function_name_ f ≠ "")); cbn [app];
      by rewrite <- ?app_assoc.
  - subst body.
    destruct (bool_decide (Function_name_ f ≠ "")); cbn [app];
      by rewrite <- ?app_assoc.
Qed.

(** ** Looking up the locals of a function *)

Lemma locals_indexed_impl zone zone' this f f' :
  (forall q l, get_Local zone q = Ok l -> get_Local zone' q = Ok l) ->
  locals_ f' = locals_ f ->
  locals_indexed zone this f -> locals_indexed zone' this f'.
Proof.
  intros Hl Hloc Hinv i p Hp. rewrite Hloc in Hp.
  destruct (Hinv i p Hp) as (l & ? & ?). eauto.
Qed.

Lemma get_Local_alloc zone o q l :
  get_Local zone q = Ok l -> get_Local (zone ++ [o]) q = Ok l.
Proof. intros Hl%get_Local_deref. by apply get_Local_deref, deref_alloc_old. Qed.

Lemma zone_step_locals_indexed DEBUG zone zone' :
  zone_step DEBUG zone zone' ->
  zone_locals_indexed zone -> zone_locals_indexed zone'.
Proof.
  destruct 1 as [zone o Ho|zone p o o' Hp Ho|zone this kind type name r Hadd];
    intros Hinv q g Hg%get_Function_deref.
  - apply deref_alloc_inv in Hg as [Hg|[-> <-]].
    + eapply locals_indexed_impl; [apply get_Local_alloc|done|].
      by apply Hinv, get_Function_deref.
    + intros i p' Hp'. by rewrite (Ho g eq_refl) in Hp'.
  - destruct (decide (p = q)) as [->|Hne].
    + rewrite deref_store_eq in Hg by eauto. injection Hg as ->.
      assert (exists f, o = OFunction f /\ locals_ g = locals_ f) as (f & -> & Hloc).
      { destruct o; cbn in Ho; try (by destruct Ho as (? & ? & ?));
          try (by destruct Ho); try done.
        destruct Ho as (f' & [= <-] & _ & ?). eauto. }
      eapply locals_indexed_impl; [|done|by apply Hinv, get_Function_deref].
      intros q' l. by eapply replaces_Local.
    + rewrite deref_store_ne in Hg by done.
      eapply locals_indexed_impl; [|done|by apply Hinv, get_Function_deref].
      intros q' l. by eapply replaces_Local.
  - pose proof (Function_AddLocal_Ok _ _ _ _ _ _ _ Hadd) as (f & Hf & ->).
    cbn [snd] in Hg |- *.
    assert (forall q' l, get_Local zone q' = Ok l ->
              get_Local (store (zone ++ [OLocal (MkLocal this kind type name
                                   (Z.of_nat (length (locals_ f))))]) this
                           (OFunction (MkFunction (Function_name_ f)
                              (Function_index_ f) (Function_type_ f)
                              (locals_ f ++ [S (length zone)]) (body_ f)))) q'
              = Ok l) as Hold.
    { intros q' l Hl%get_Local_deref. apply get_Local_deref.
      rewrite deref_store_ne by congruence. by apply deref_alloc_old. }
    destruct (decide (q = this)) as [->|Hne].
    + rewrite deref_store_eq in Hg by (erewrite deref_alloc_old; eauto).
      injection Hg as <-. cbn [locals_].
      intros i p' [Hi|[Hle Hi]]%lookup_app_Some.
      * destruct (Hinv this f (proj2 (get_Function_deref _ _ _) Hf) i p' Hi)
          as (l & Hl & ?). eauto.
      * apply list_lookup_singleton_Some in Hi as [Hi <-].
        exists (MkLocal this kind type name (Z.of_nat (length (locals_ f)))).
        split; [|split; [|reflexivity]].
        -- apply get_Local_deref.
           rewrite deref_store_ne by (apply deref_lt_length in Hf; lia).
           apply deref_alloc_new.
        -- cbn. lia.
    + rewrite deref_store_ne in Hg by done.
      apply deref_alloc_inv in Hg as [Hg|[_ [=]]].
      eapply locals_indexed_impl; [exact Hold|done|].
      by apply Hinv, get_Function_deref.
Qed.

Lemma zone_steps_locals_indexed (DEBUG : bool) zone zone' :
  zone_steps DEBUG zone zone' ->
  zone_locals_indexed zone -> zone_locals_indexed zone'.
Proof.
  induction 1 as [|z1 z2 z3 Hstep _ IH]; [done|].
  intros Hinv. by eapply IH, zone_step_locals_indexed.
Qed.

Lemma zone_locals_indexed_new (DEBUG : bool) zone :
  zone_locals_indexed zone ->
  zone_locals_indexed (zone_ (WasmModuleBuilder_new zone)).
Proof.
  apply (zone_steps_locals_indexed DEBUG). cbn.
  zone_steps_by zone_steps_alloc zone_steps_store.
Qed.

(** X13.  After any operations on a builder (set up in an arena in which
    the locals are indexed, an empty one for instance), [GetLocalByIndex]
    with an index within the locals of a function returns the local at that
    position, which carries that very index and belongs to that function;
    with any other index a debug build trips the assertion. *)
Theorem GetLocalByIndex_after_run (DEBUG DEBUG' : bool) (zone : Zone)
    (ops : list BuilderOp) (B : WasmModuleBuilder) (this : ptr) (f : Function)
    (id : Z) :
  zone_locals_indexed zone ->
  run_ops DEBUG ops (WasmModuleBuilder_new zone) = Ok B ->
  get_Function (zone_ B) this = Ok f ->
  if decide (0 <= id < Z.of_nat (length (locals_ f)))
  then exists p l,
         Function_GetLocalByIndex DEBUG' (zone_ B) this id = Ok p /\
         locals_ f !! Z.to_nat id = Some p /\
         get_Local (zone_ B) p = Ok l /\
         Local_index_ l = id /\ Local_function_ l = this
  else Function_GetLocalByIndex true (zone_ B) this id =
         Abort (ASSERT_FAILED "0 <= id && id < locals_.length()").
Proof.
  intros Hzone Hrun Hf.
  assert (zone_locals_indexed (zone_ B)) as Hinv.
  { eapply zone_steps_locals_indexed; [by eapply run_ops_steps|].
    by apply (zone_locals_indexed_new DEBUG). }
  unfold Function_GetLocalByIndex, ASSERT. rewrite Hf.
  cbv beta iota delta [mbind outcome_bind].
  destruct (decide _) as [Hid|Hid].
  - replace (0 <=? id) with true by (symmetry; apply Z.leb_le; lia).
    replace (id <? _) with true by (symmetry; apply Z.ltb_lt; lia).
    destruct (lookup_lt_is_Some_2 (locals_ f) (Z.to_nat id)) as [p Hp]; [lia|].
    destruct (Hinv this f Hf _ _ Hp) as (l & Hl & Hi & Hfn).
    exists p, l. rewrite Hp. split; [by destruct DEBUG'|].
    split; [done|]. split; [done|]. split; [lia|done].
  - destruct (Z.leb_spec 0 id), (Z.ltb_spec id (Z.of_nat (length (locals_ f))));
      try done; lia.
Qed.

Lemma GetLocalByName_loop_spec zone locals name :
  Forall (fun p => exists l, get_Local zone p = Ok l) locals ->
  match Function_GetLocalByName_loop zone locals name with
  | Ok p => first_named zone locals name p
  | Abort failure =>
      failure = no_matching_local /\ none_named zone locals name
  end.
Proof.
  induction 1 as [|p locals [l Hl] _ IH]; cbn [Function_GetLocalByName_loop].
  - split; [done|]. intros q l' Hq. by apply elem_of_nil in Hq.
  - rewrite Hl. cbv beta iota delta [mbind outcome_bind].
    destruct (bool_decide_reflect (Local_name_ l = name)) as [Hname|Hname].
    + exists 0%nat, l. split; [done|]. split; [done|]. split; [done|]. lia.
    + destruct (Function_GetLocalByName_loop zone locals name) as [q|failure].
      * destruct IH as (i & l' & Hi & Hl' & Hn & Hfirst).
        exists (S i), l'. split; [done|]. split; [done|]. split; [done|].
        intros [|j] q' l'' Hj Hq' Hl''.
        -- cbn in Hq'. injection Hq' as <-. rewrite Hl in Hl''. by injection Hl'' as <-.
        -- eapply (Hfirst j); [lia|done..].
      * destruct IH as [-> Hnone]. split; [done|].
        intros q l' [->|Hq]%elem_of_cons Hl'.
        -- rewrite Hl in Hl'. by injection Hl' as <-.
        -- by eapply Hnone.
Qed.

(** X14.  After any operations on a builder (set up in an arena in which
    the locals are indexed, an empty one for instance), [GetLocalByName]
    returns the first local of the function that has the name; when no
    local has it, the lookup is fatal with the message of the code. *)
Theorem GetLocalByName_after_run (DEBUG : bool) (zone : Zone)
    (ops : list BuilderOp) (B : WasmModuleBuilder) (this : ptr) (f : Function)
    (name : string) :
  zone_locals_indexed zone ->
  run_ops DEBUG ops (WasmModuleBuilder_new zone) = Ok B ->
  get_Function (zone_ B) this = Ok f ->
  match Function_GetLocalByName (zone_ B) this name with
  | Ok p => first_named (zone_ B) (locals_ f) name p
  | Abort failure =>
      failure = no_matching_local /\ none_named (zone_ B) (locals_ f) name
  end.
Proof.
  intros Hzone Hrun Hf.
  assert (zone_locals_indexed (zone_ B)) as Hinv.
  { eapply zone_steps_locals_indexed; [by eapply run_ops_steps|].
    by apply (zone_locals_indexed_new DEBUG). }
  unfold Function_GetLocalByName. rewrite Hf.
  cbv beta iota delta [mbind outcome_bind].
  apply GetLocalByName_loop_spec. apply Forall_lookup. intros i p Hp.
  destruct (Hinv this f Hf i p Hp) as (l & Hl & _). eauto.
Qed.

Lemma GetLocalByName_loop_app zone locals p name :
  Function_GetLocalByName_loop zone (locals ++ [p]) name =
    match Function_GetLocalByName_loop zone locals name with
    | Ok q => Ok q
    | Abort (FATAL _) => Function_GetLocalByName_loop zone [p] name
    | Abort failure => Abort failure
    end.
Proof.
  induction locals as [|q locals IH]; cbn [app Function_GetLocalByName_loop].
  - done.
  - unfold get_Local.
    destruct (deref zone q) as [[?|?|?|?|?|l|?|?|?]|];
      cbv beta iota delta [mbind outcome_bind]; try done.
    by destruct (bool_decide (Local_name_ l = name)).
Qed.

Lemma GetLocalByName_loop_ext zone zone' locals name :
  Forall (fun p => exists l, get_Local zone p = Ok l /\
                             get_Local zone' p = Ok l) locals ->
  Function_GetLocalByName_loop zone' locals name =
  Function_GetLocalByName_loop zone locals name.
Proof.
  induction 1 as [|p locals (l & Hl & Hl') _ IH];
    cbn [Function_GetLocalByName_loop]; [done|].
  by rewrite Hl, Hl', IH.
Qed.

(** X15.  A local added with [AddLocal] is found by [GetLocalByIndex] at
    the index it was given, the former number of locals.  [GetLocalByName]
    finds it under its name unless an earlier local has that name, which
    then still wins; the lookups of the other names are as before. *)
Theorem AddLocal_then_lookup (DEBUG : bool) (zone zone' : Zone)
    (this local type : ptr) (kind : Local_Kind) (name : string) (f : Function) :
  get_Function zone this = Ok f ->
  Forall (fun p => exists l, get_Local zone p = Ok l) (locals_ f) ->
  Function_AddLocal DEBUG zone this kind type name = Ok (local, zone') ->
  Function_GetLocalByIndex DEBUG zone' this (Z.of_nat (length (locals_ f)))
    = Ok local /\
  forall name',
    Function_GetLocalByName zone' this name' =
      match Function_GetLocalByName zone this name' with
      | Ok earlier => Ok earlier
      | Abort _ =>
          if bool_decide (name = name') then Ok local
          else Abort no_matching_local
      end.
Proof.
  intros Hf Hvalid Hadd.
  apply Function_AddLocal_Ok in Hadd as (f' & Hf' & [= -> ->]).
  apply get_Function_deref in Hf. rewrite Hf in Hf'. injection Hf' as <-.
  pose proof (deref_lt_length _ _ _ Hf) as Hthis.
  set (l := MkLocal this kind type name (Z.of_nat (length (locals_ f)))).
  set (zone' := store (zone ++ [OLocal l]) this _).
  assert (get_Function zone' this =
          Ok (MkFunction (Function_name_ f) (Function_index_ f)
                (Function_type_ f) (locals_ f ++ [S (length zone)]) (body_ f)))
    as Hf'.
  { apply get_Function_deref, deref_store_eq.
    erewrite deref_alloc_old; eauto. }
  assert (get_Local zone' (S (length zone)) = Ok l) as Hl.
  { apply get_Local_deref. subst zone'. rewrite deref_store_ne by lia.
    apply deref_alloc_new. }
  assert (forall q l', get_Local zone q = Ok l' -> get_Local zone' q = Ok l')
    as Hold.
  { intros q l' Hl'%get_Local_deref. apply get_Local_deref. subst zone'.
    rewrite deref_store_ne by congruence. by apply deref_alloc_old. }
  split.
  - unfold Function_GetLocalByIndex, ASSERT. rewrite Hf'.
    cbv beta iota delta [mbind outcome_bind]. cbn [locals_].
    rewrite length_app. cbn [length].
    replace (0 <=? _) with true by (symmetry; apply Z.leb_le; lia).
    replace (_ <? _) with true by (symmetry; apply Z.ltb_lt; lia).
    rewrite Nat2Z.id, list_lookup_middle by done. by destruct DEBUG.
  - intros name'. unfold Function_GetLocalByName.
    rewrite Hf'. apply get_Function_deref in Hf. rewrite Hf.
    cbv beta iota delta [mbind outcome_bind]. cbn [locals_].
    rewrite GetLocalByName_loop_app.
    rewrite (GetLocalByName_loop_ext zone zone' (locals_ f)).
    + pose proof (GetLocalByName_loop_spec zone (locals_ f) name' Hvalid) as Hspec.
      destruct (Function_GetLocalByName_loop zone (locals_ f) name')
        as [q|failure]; [done|].
      destruct Hspec as [-> _]. unfold no_matching_local.
      cbn [Function_GetLocalByName_loop]. rewrite Hl.
      cbv beta iota delta [mbind outcome_bind]. cbn [Local_name_ l].
      by destruct (bool_decide (name = name')).
    + eapply Forall_impl; [done|]. intros q [l' Hl']. eauto.
Qed.

(** ** The types of the arena are never written to *)

Lemma zone_step_immutable DEBUG zone zone' p o :
  zone_step DEBUG zone zone' ->
  deref zone p = Some o -> immutable o -> deref zone' p = Some o.
Proof.
  destruct 1 as [zone o1 Ho|zone q o1 o1' Hq Ho|zone this kind type name r Hadd];
    intros Hp Himm.
  - by apply deref_alloc_old.
  - destruct (decide (q = p)) as [->|Hne]; [|by rewrite deref_store_ne].
    rewrite Hp in Hq. injection Hq as <-.
    assert (o1' = o) as -> by (by destruct o).
    apply deref_store_eq. eauto.
  - apply Function_AddLocal_Ok in Hadd as (f & Hf & ->). cbn [snd].
    rewrite deref_store_ne; [by apply deref_alloc_old|].
    intros ->. rewrite Hf in Hp. by injection Hp as <-.
Qed.

Lemma zone_steps_preserves (DEBUG : bool) zone zone' :
  zone_steps DEBUG zone zone' -> preserves zone zone'.
Proof.
  intros Hsteps. split; [|by eapply zone_steps_keeps_indices].
  induction Hsteps as [|z1 z2 z3 Hstep _ IH]; [done|].
  intros p o Hp Himm. apply IH; [|done]. by eapply zone_step_immutable.
Qed.

Lemma preserves_HeapType zone zone' p h :
  preserves zone zone' -> get_HeapType zone p = Ok h ->
  get_HeapType zone' p = Ok h.
Proof.
  intros [Himm _]. unfold get_HeapType.
  destruct (deref zone p) as [[h'| | | | | | | |]|] eqn:Hp; try done.
  intros [= ->]. by rewrite (Himm _ _ Hp).
Qed.

Lemma preserves_ValueType zone zone' p v :
  preserves zone zone' -> get_ValueType zone p = Ok v ->
  get_ValueType zone' p = Ok v.
Proof.
  intros [Himm _]. unfold get_ValueType.
  destruct (deref zone p) as [[|v'| | | | | | |]|] eqn:Hp; try done.
  intros [= ->]. by rewrite (Himm _ _ Hp).
Qed.

Lemma preserves_FieldType zone zone' p v :
  preserves zone zone' -> get_FieldType zone p = Ok v ->
  get_FieldType zone' p = Ok v.
Proof.
  intros [Himm _]. unfold get_FieldType.
  destruct (deref zone p) as [[| |v'| | | | | |]|] eqn:Hp; try done.
  intros [= ->]. by rewrite (Himm _ _ Hp).
Qed.

(** What the renderings of a type read from the arena is the same in
    [zone'] as in [zone]. *)
Lemma preserves_HeapType_renderings zone zone' p s :
  preserves zone zone' -> HeapType_Serialize zone p = Ok s ->
  HeapType_Serialize zone' p = Ok s /\
  forall stream σ,
    HeapType_OutputBinary zone' p stream σ = HeapType_OutputBinary zone p stream σ.
Proof.
  intros Hpres. unfold HeapType_Serialize, HeapType_OutputBinary.
  destruct (get_HeapType zone p) as [h|] eqn:Hh; [|done].
  rewrite (preserves_HeapType _ _ _ _ Hpres Hh).
  cbv beta iota delta [mbind M_bind outcome_bind lift].
  destruct (HeapType_kind_ h); try done.
  destruct (get_DefType zone (def_type_ h)) as [d|] eqn:Hd; [|done].
  destruct Hpres as [_ [Hkeeps _]].
  destruct (Hkeeps _ _ Hd) as (d' & -> & Hidx).
  cbv beta iota delta [mbind M_bind outcome_bind lift]. rewrite Hidx.
  by intros [= <-].
Qed.

Lemma RefType_Serialize_heap zone nullable heap_type s :
  RefType_Serialize zone nullable heap_type = Ok s ->
  exists s', HeapType_Serialize zone heap_type = Ok s'.
Proof.
  unfold RefType_Serialize, HeapType_Serialize.
  destruct (get_HeapType zone heap_type) as [h|]; [|done].
  cbv beta iota delta [mbind outcome_bind].
  destruct (HeapType_kind_ h); try (by eexists).
  destruct (get_DefType zone (def_type_ h)); [by eexists|].
  by destruct nullable.
Qed.

Lemma Rtt_Serialize_heap zone depth heap_type s :
  Rtt_Serialize zone depth heap_type = Ok s ->
  exists s', HeapType_Serialize zone heap_type = Ok s'.
Proof.
  unfold Rtt_Serialize.
  destruct (HeapType_Serialize zone heap_type); [by eexists|done].
Qed.

Lemma preserves_ValueType_renderings DEBUG zone zone' p s :
  preserves zone zone' -> ValueType_Serialize zone p = Ok s ->
  ValueType_Serialize zone' p = Ok s /\
  forall stream σ,
    ValueType_OutputBinary DEBUG zone' p stream σ =
    ValueType_OutputBinary DEBUG zone p stream σ.
Proof.
  intros Hpres. unfold ValueType_Serialize, ValueType_OutputBinary.
  destruct (get_ValueType zone p) as [v|] eqn:Hv; [|done].
  rewrite (preserves_ValueType _ _ _ _ Hpres Hv).
  cbv beta iota delta [mbind M_bind outcome_bind lift].
  destruct v as [kind|nullable heap_type|depth heap_type]; [done|..].
  - intros Hs. destruct (RefType_Serialize_heap _ _ _ _ Hs) as [s' Hs'].
    destruct (preserves_HeapType_renderings _ _ _ _ Hpres Hs') as [Htext Hbin].
    revert Hs. unfold RefType_Serialize, RefType_OutputBinary.
    rewrite Hs', Htext.
    destruct (get_HeapType zone heap_type) as [h|] eqn:Hh; [|done].
    rewrite (preserves_HeapType _ _ _ _ Hpres Hh).
    cbv beta iota delta [mbind M_bind outcome_bind lift].
    intros Hs. split; [done|]. intros stream σ.
    destruct (_ && _); [done|].
    destruct nullable, (HeapType_kind_ h); try apply Hbin;
      destruct (WRITE_SIGNED int32_t stream _ σ) as [[] ?]; by try apply Hbin.
  - intros Hs. destruct (Rtt_Serialize_heap _ _ _ _ Hs) as [s' Hs'].
    destruct (preserves_HeapType_renderings _ _ _ _ Hpres Hs') as [Htext Hbin].
    revert Hs. unfold Rtt_Serialize, Rtt_OutputBinary. rewrite Hs', Htext.
    intros Hs. split; [done|]. intros stream σ.
    cbv beta iota delta [mbind M_bind].
    destruct (WRITE_SIGNED int32_t stream _ σ) as [[] ?]; [|done].
    destruct (WRITE_UNSIGNED DEBUG uint32_t stream _ _) as [[] ?]; [|done].
    apply Hbin.
Qed.

Lemma preserves_FieldType_renderings DEBUG zone zone' p s :
  preserves zone zone' -> FieldType_Serialize zone p = Ok s ->
  FieldType_Serialize zone' p = Ok s /\
  forall stream σ,
    FieldType_OutputBinary DEBUG zone' p stream σ =
    FieldType_OutputBinary DEBUG zone p stream σ.
Proof.
  intros Hpres. unfold FieldType_Serialize, FieldType_OutputBinary.
  destruct (get_FieldType zone p) as [f|] eqn:Hf; [|done].
  rewrite (preserves_FieldType _ _ _ _ Hpres Hf).
  cbv beta iota delta [mbind M_bind outcome_bind lift].
  destruct (packed_type_ f); [|done..].
  destruct (ValueType_Serialize zone (value_type_ f)) as [s'|] eqn:Hs'; [|done].
  destruct (preserves_ValueType_renderings DEBUG _ _ _ _ Hpres Hs')
    as [Htext Hbin].
  rewrite Htext. cbv beta iota delta [mbind M_bind outcome_bind lift].
  intros Hs. split; [done|]. intros stream σ. by rewrite Hbin.
Qed.

(** X16.  No operation of the builder changes a type that exists: a value
    type or field type that has a text form keeps it, and its binary output
    stays the same, whatever is built afterwards. *)
Theorem types_keep_their_renderings (DEBUG DEBUG' : bool)
    (ops : list BuilderOp) (B B' : WasmModuleBuilder) (p : ptr)
    (s : SExpression) :
  run_ops DEBUG ops B = Ok B' ->
  (ValueType_Serialize (zone_ B) p = Ok s ->
   ValueType_Serialize (zone_ B') p = Ok s /\
   forall stream σ,
     ValueType_OutputBinary DEBUG' (zone_ B') p stream σ =
     ValueType_OutputBinary DEBUG' (zone_ B) p stream σ) /\
  (FieldType_Serialize (zone_ B) p = Ok s ->
   FieldType_Serialize (zone_ B') p = Ok s /\
   forall stream σ,
     FieldType_OutputBinary DEBUG' (zone_ B') p stream σ =
     FieldType_OutputBinary DEBUG' (zone_ B) p stream σ).
Proof.
  intros Hrun.
  pose proof (zone_steps_preserves _ _ _ (run_ops_steps _ _ _ _ Hrun)) as Hpres.
  split.
  - by apply preserves_ValueType_renderings.
  - by apply preserves_FieldType_renderings.
Qed.

(** ** The predefined types of a builder *)

Lemma run_op_members DEBUG op B B' :
  run_op DEBUG op B = Ok B' ->
  predefined_value_types B' = predefined_value_types B /\
  anyref_ B' = anyref_ B.
Proof.
  destruct op; cbn [run_op]; unfold in_zone_of;
    cbv beta iota delta [mbind outcome_bind];
    try (by intros [= <-]).
  all: match goal with
       | |- match ?r with _ => _ end = _ -> _ =>
           destruct r as [[]|]; [|done]
       | |- match ?r with _ => _ end = _ -> _ =>
           destruct r as [|]; [|done]
       end; by intros [= <-].
Qed.

Lemma run_ops_members DEBUG ops B B' :
  run_ops DEBUG ops B = Ok B' ->
  predefined_value_types B' = predefined_value_types B /\
  anyref_ B' = anyref_ B.
Proof.
  revert B. induction ops as [|op ops IH]; intros B; cbn [run_ops].
  - by intros [= <-].
  - destruct (run_op DEBUG op B) as [B1|] eqn:Hop; [|done].
    cbv beta iota delta [mbind outcome_bind]. intros [-> ->]%IH.
    by eapply run_op_members.
Qed.

Lemma deref_app_nth {A} (σ τ : Store A) n a :
  τ !! n = Some a -> deref (σ ++ τ) (S (length σ + n)) = Some a.
Proof. intros H. cbn. by rewrite lookup_app_r, Nat.add_comm, Nat.add_sub by lia. Qed.

Lemma WasmModuleBuilder_new_zone zone :
  let B := WasmModuleBuilder_new zone in
  zone_ B =
    zone ++ [OValueType (NumType kI32); OValueType (NumType kI64);
             OValueType (NumType kF32); OValueType (NumType kF64);
             OHeapType (MkHeapType kFunc nullptr);
             OHeapType (MkHeapType kExtern nullptr);
             OHeapType (MkHeapType kAny nullptr);
             OHeapType (MkHeapType kEq nullptr);
             OHeapType (MkHeapType kI31 nullptr);
             OValueType (RefType true (S (length zone + 4)));
             OValueType (RefType true (S (length zone + 5)));
             OValueType (RefType true (S (length zone + 6)));
             OValueType (RefType true (S (length zone + 7)));
             OValueType (RefType false (S (length zone + 8)))] /\
  predefined_value_types B =
    [(S (length zone + 0), "i32", 0x7F); (S (length zone + 1), "i64", 0x7E);
     (S (length zone + 2), "f32", 0x7D); (S (length zone + 3), "f64", 0x7C);
     (S (length zone + 9), "funcref", 0x70);
     (S (length zone + 10), "externref", 0x6F);
     (S (length zone + 12), "eqref", 0x6D);
     (S (length zone + 13), "i31ref", 0x6A)] /\
  anyref_ B = S (length zone + 11).
Proof.
  unfold predefined_value_types. cbn. rewrite <- !app_assoc. cbn [app].
  rewrite !length_app. cbn [length].
  repeat split; repeat first [reflexivity|lia|progress f_equal].
Qed.

Lemma writes_NumType kind stream :
  writes (NumType_OutputBinary kind stream) stream
    [match kind with
     | kI32 => 0x7F | kI64 => 0x7E | kF32 => 0x7D | kF64 => 0x7C | kV128 => 0x7B
     end].
Proof. destruct kind; apply writes_WRITE_BYTE. Qed.

(** The predefined types, right after the constructor. *)
Lemma WasmModuleBuilder_new_predefined DEBUG zone :
  let B := WasmModuleBuilder_new zone in
  Forall (fun '(p, text, byte) =>
            ValueType_Serialize (zone_ B) p = Ok (SExpSymbol text) /\
            forall stream,
              writes (ValueType_OutputBinary DEBUG (zone_ B) p stream) stream
                     [byte])
         (predefined_value_types B) /\
  ValueType_Serialize (zone_ B) (anyref_ B) = Ok (SExpSymbol "anyref") /\
  forall stream σ st, deref σ stream = Some st ->
    ValueType_OutputBinary DEBUG (zone_ B) (anyref_ B) stream σ =
      (Abort (FATAL "any/anyref not implemented by V8"), σ).
Proof.
  destruct (WasmModuleBuilder_new_zone zone) as (Hzone & Hmembers & Hany).
  cbv zeta. rewrite Hzone, Hmembers, Hany.
  split; [|split].
  - repeat (apply List.Forall_cons;
              [lazy beta iota; split; [|intros stream]|]);
      try apply List.Forall_nil.
    all: unfold ValueType_Serialize, ValueType_OutputBinary, get_ValueType,
           RefType_Serialize, RefType_OutputBinary, HeapType_OutputBinary,
           get_HeapType.
    all: repeat (erewrite deref_app_nth by reflexivity;
                 cbv beta iota delta [mbind M_bind outcome_bind lift]).
    all: try reflexivity.
    all: intros σ st Hst; lazy beta.
    all: try (by apply writes_NumType).
    all: cbn [HeapType_kind_ negb andb bool_decide decide_rel].
    all: apply writes_WRITE_SIGNED_int32_t; [|done].
    all: rewrite static_cast_id by (unfold in_range; cbn; lia).
    all: by apply sleb128_one_byte.
  - unfold ValueType_Serialize, get_ValueType, RefType_Serialize, get_HeapType.
    by repeat (erewrite deref_app_nth by reflexivity;
               cbv beta iota delta [mbind M_bind outcome_bind lift]).
  - intros stream σ st Hst.
    unfold ValueType_OutputBinary, get_ValueType, RefType_OutputBinary,
      HeapType_OutputBinary, get_HeapType.
    by repeat (erewrite deref_app_nth by reflexivity;
               cbv beta iota delta [mbind M_bind outcome_bind lift]).
Qed.

(** X17.  The members [i32], [i64], [f32], [f64], [funcref], [externref],
    [eqref] and [i31ref] that the constructor of the builder sets up are
    rendered, after any operations, as the symbol of their name and as the
    one byte 0x7F, 0x7E, 0x7D, 0x7C, 0x70, 0x6F, 0x6D, 0x6A.  The member
    [anyref] has the text form [anyref], and its binary output is fatal
    with nothing written. *)
Theorem predefined_types_after_run (DEBUG DEBUG' : bool) (zone : Zone)
    (ops : list BuilderOp) (B : WasmModuleBuilder) :
  run_ops DEBUG ops (WasmModuleBuilder_new zone) = Ok B ->
  Forall (fun '(p, text, byte) =>
            ValueType_Serialize (zone_ B) p = Ok (SExpSymbol text) /\
            forall stream,
              writes (ValueType_OutputBinary DEBUG' (zone_ B) p stream) stream
                     [byte])
         (predefined_value_types B) /\
  ValueType_Serialize (zone_ B) (anyref_ B) = Ok (SExpSymbol "anyref") /\
  forall stream σ st, deref σ stream = Some st ->
    ValueType_OutputBinary DEBUG' (zone_ B) (anyref_ B) stream σ =
      (Abort (FATAL "any/anyref not implemented by V8"), σ).
Proof.
  intros Hrun.
  pose proof (zone_steps_preserves _ _ _ (run_ops_steps _ _ _ _ Hrun)) as Hpres.
  destruct (run_ops_members _ _ _ _ Hrun) as [-> ->].
  destruct (WasmModuleBuilder_new_predefined DEBUG' zone) as (Hall & Htext & Hbin).
  split; [|split].
  - eapply Forall_impl; [exact Hall|]. intros [[p text] byte] [Hp Hw].
    destruct (preserves_ValueType_renderings DEBUG' _ _ _ _ Hpres Hp) as [Hp' Heq].
    split; [done|]. intros stream σ st Hst. rewrite Heq. by apply Hw.
  - by apply (preserves_ValueType_renderings DEBUG' _ _ _ _ Hpres Htext).
  - intros stream σ st Hst.
    destruct (preserves_ValueType_renderings DEBUG' _ _ _ _ Hpres Htext) as [_ Heq].
    rewrite Heq. by eapply Hbin.
Qed.

(** ** The layout of the module *)

Lemma uleb128_of_nat (n : nat) :
  Z.of_nat n < 2 ^ 63 ->
  exists bs, uleb128 (Z.of_nat n) bs /\ (length bs <= 10)%nat.
Proof.
  intros Hn.
  destruct (WriteUnsigned_intptr_t false (Z.of_nat n) []) as (bs & _ & Henc);
    [lia|].
  exists bs. split; [done|].
  change 10%nat with (WriteInternal_fuel uint64_t).
  apply (uleb128_length_bound uint64_t (Z.of_nat n)); [|done].
  unfold in_range. cbn [make_unsigned is_signed bit_width]. closed_consts. lia.
Qed.

Lemma length_prefixed_exists payload :
  Z.of_nat (length payload) < 2 ^ 63 ->
  exists block, length_prefixed payload block /\
                (length block <= 10 + length payload)%nat.
Proof.
  intros (prefix & Henc & Hlen)%uleb128_of_nat.
  exists (prefix ++ payload). split; [by exists prefix|].
  rewrite length_app. lia.
Qed.

Lemma counted_exists items :
  Z.of_nat (length items) < 2 ^ 63 ->
  exists bytes, counted items bytes /\
                (length bytes <= 10 + length (concat items))%nat.
Proof.
  intros (count & Henc & Hlen)%uleb128_of_nat.
  exists (count ++ concat items). split; [by exists count|].
  rewrite length_app. lia.
Qed.

Lemma writes_length_prefixed DEBUG stream rest payload block :
  (forall stream', writes (rest stream') stream' payload) ->
  Z.of_nat (length payload) < 2 ^ 63 ->
  length_prefixed payload block ->
  writes (WRITE_BYTECOUNT DEBUG stream rest ≫= fun _ => mret tt) stream block.
Proof.
  intros Hrest Hlen (prefix & Henc & ->). by apply writes_WRITE_BYTECOUNT.
Qed.

Lemma writes_counted DEBUG {A} (l : list A) (body : A -> M unit) stream
    (items : list (list Z)) bytes :
  Z.of_nat (length l) < 2 ^ 63 ->
  Forall2 (fun x bs => writes (body x) stream bs) l items ->
  counted items bytes ->
  writes (WRITE_UNSIGNED DEBUG intptr_t stream (Z.of_nat (length l));;
          for_each l body) stream bytes.
Proof.
  intros Hlen Hitems (count & Henc & ->).
  rewrite <- (Forall2_length _ _ _ Hitems) in Henc.
  apply writes_bind; [by apply writes_WRITE_UNSIGNED_intptr_t; [lia|]|].
  by apply writes_for_each.
Qed.

Lemma writes_WRITE_UNSIGNED_int32_t DEBUG stream v bs :
  0 <= v < 2 ^ 31 -> uleb128 v bs ->
  writes (WRITE_UNSIGNED DEBUG int32_t stream v) stream bs.
Proof.
  intros Hv Henc. apply writes_on_stream. intros st.
  assert (in_range int32_t v) as Hr
    by (unfold in_range; cbn [is_signed bit_width]; lia).
  assert (in_range uint32_t v) as Hr'
    by (unfold in_range; cbn [is_signed bit_width]; closed_consts; lia).
  destruct (WriteInternal_uleb128 uint32_t v st eq_refl Hr') as (bs' & Hw & Henc').
  rewrite (uleb128_det _ _ _ Henc Henc').
  unfold WriteUnsigned, ASSERT, bit_cast.
  cbn [is_unsigned is_signed negb make_unsigned].
  rewrite (static_cast_id _ _ Hr), (static_cast_id _ _ Hr').
  replace (0 <=? v) with true by (symmetry; apply Z.leb_le; lia).
  by destruct DEBUG.
Qed.

(** X18.  The binary module is the magic and the version, then the type
    section (id 1), the function section (id 3) and the code section
    (id 10), in this order; each section is its id, the length of its
    payload in bytes, and the payload: the number of entries and the
    entries.  The entries are the types in their order, the type indices of
    the functions in their order, and the bodies of the functions, each
    behind its own length in bytes. *)
Theorem module_layout (DEBUG : bool) (B : WasmModuleBuilder)
    (types entries codes : list (list Z)) :
  Forall2 (fun t bs => forall stream,
             writes (DefType_OutputBinary DEBUG (zone_ B) t stream) stream bs)
          (types_ B) types ->
  Forall2 (function_entry (zone_ B)) (functions_ B) entries ->
  Forall2 (fun f bs => forall stream,
             writes (Function_OutputBinary DEBUG (zone_ B) f stream) stream bs)
          (functions_ B) codes ->
  Z.of_nat (length (types_ B) + length (concat types)
            + length (concat entries)
            + 11 * length (functions_ B) + length (concat codes)) + 10
    < 2 ^ 63 ->
  exists type_payload type_section function_payload function_section
         bodies code_payload code_section,
    counted types type_payload /\
    length_prefixed type_payload type_section /\
    counted entries function_payload /\
    length_prefixed function_payload function_section /\
    Forall2 length_prefixed codes bodies /\
    counted bodies code_payload /\
    length_prefixed code_payload code_section /\
    forall stream,
      writes (WasmModuleBuilder_OutputBinary DEBUG B stream) stream
        (module_header ++ [1] ++ type_section ++ [3] ++ function_section
           ++ [10] ++ code_section).
Proof.
  intros Htypes Hentries Hcodes Hsize.
  pose proof (Forall2_length _ _ _ Htypes) as Hlt.
  pose proof (Forall2_length _ _ _ Hentries) as Hle.
  pose proof (Forall2_length _ _ _ Hcodes) as Hlc.
  destruct (counted_exists types) as (P1 & HP1 & HP1len); [lia|].
  destruct (length_prefixed_exists P1) as (S1 & HS1 & _); [lia|].
  destruct (counted_exists entries) as (P3 & HP3 & HP3len); [lia|].
  destruct (length_prefixed_exists P3) as (S3 & HS3 & _); [lia|].
  assert (exists bodies, Forall2 length_prefixed codes bodies /\
            (length (concat bodies) <= 10 * length codes + length (concat codes))%nat)
    as (bodies & Hbodies & Hblen).
  { assert (Z.of_nat (length (concat codes)) < 2 ^ 63) as Hc by lia.
    clear -Hc. induction codes as [|code codes IH].
    - exists []. split; [constructor|cbn; lia].
    - cbn [concat] in Hc. rewrite length_app in Hc.
      destruct IH as (bodies & Hbodies & Hlen); [lia|].
      destruct (length_prefixed_exists code) as (body & Hbody & Hblen); [lia|].
      exists (body :: bodies). split; [by constructor|].
      cbn [concat length]. rewrite !length_app. lia. }
  pose proof (Forall2_length _ _ _ Hbodies) as Hlb.
  destruct (counted_exists bodies) as (P10 & HP10 & HP10len); [lia|].
  destruct (length_prefixed_exists P10) as (S10 & HS10 & _); [lia|].
  exists P1, S1, P3, S3, bodies, P10, S10.
  do 7 (split; [done|]). intros stream σ st Hst.
  assert (stream ≠ nullptr) as Hnn by (by intros ->).
  revert σ st Hst. unfold WasmModuleBuilder_OutputBinary, ASSERT.
  rewrite (bool_decide_eq_true_2 _ Hnn).
  replace (lift _) with (mret tt : M unit) by (by destruct DEBUG).
  change (writes
    (mret ();; WRITE_BYTE stream 0;; WRITE_BYTE stream 97;;
     WRITE_BYTE stream 115;; WRITE_BYTE stream 109;; WRITE_BYTE stream 1;;
     WRITE_BYTE stream 0;; WRITE_BYTE stream 0;; WRITE_BYTE stream 0;;
     WasmModuleBuilder_OutputTypeSection DEBUG B stream;;
     WasmModuleBuilder_OutputFunctionSection DEBUG B stream;;
     WasmModuleBuilder_OutputCodeSection DEBUG B stream) stream
    ([] ++ [0] ++ [97] ++ [115] ++ [109] ++ [1] ++ [0] ++ [0] ++ [0]
        ++ ([1] ++ S1) ++ ([3] ++ S3) ++ ([10] ++ S10))).
  unfold WasmModuleBuilder_OutputTypeSection,
    WasmModuleBuilder_OutputFunctionSection,
    WasmModuleBuilder_OutputCodeSection.
  repeat first
    [ apply writes_ret
    | apply writes_WRITE_BYTE
    | apply writes_bind ].
  - apply (writes_length_prefixed _ _ _ P1); [|lia|done].
    intros stream'. apply (writes_counted _ _ _ _ types); [lia| |done].
    eapply Forall2_impl; [done|]. eauto.
  - apply (writes_length_prefixed _ _ _ P3); [|lia|done].
    intros stream'. apply (writes_counted _ _ _ _ entries); [lia| |done].
    eapply Forall2_impl; [done|].
    intros f bs (fn & type & Hfn & Htype & Hidx & Henc).
    eapply writes_lift_bind; [done|]. eapply writes_lift_bind; [done|].
    by apply writes_WRITE_UNSIGNED_int32_t.
  - apply (writes_length_prefixed _ _ _ P10); [|lia|done].
    intros stream'. apply (writes_counted _ _ _ _ bodies); [lia| |done].
    assert (Z.of_nat (length (concat codes)) < 2 ^ 63) as Hc by lia.
    clear -Hcodes Hbodies Hc.
    revert bodies Hbodies.
    induction Hcodes as [|f code fs codes Hf _ IH]; intros bodies Hbodies.
    + apply Forall2_nil_inv_l in Hbodies as ->. constructor.
    + apply Forall2_cons_inv_l in Hbodies as (body & bodies' & Hbody & Hbodies & ->).
      cbn [concat] in Hc. rewrite length_app in Hc.
      constructor; [|apply IH; [lia|done]].
      apply (writes_length_prefixed _ _ _ code); [|lia|done].
      intros stream''. apply Hf.
Qed.

Lemma writes_ValueType_NumType DEBUG zone p kind stream :
  get_ValueType zone p = Ok (NumType kind) ->
  writes (ValueType_OutputBinary DEBUG zone p stream) stream
    [match kind with
     | kI32 => 0x7F | kI64 => 0x7E | kF32 => 0x7D | kF64 => 0x7C | kV128 => 0x7B
     end].
Proof.
  intros Hp. unfold ValueType_OutputBinary.
  eapply writes_lift_bind; [done|]. apply writes_NumType.
Qed.

Lemma writes_FuncType DEBUG zone this index params result stream
    (count : list Z) (param_bytes : list (list Z)) (result_bytes : list Z) :
  get_DefType zone this = Ok (FuncType index params result) ->
  Z.of_nat (length params) < 2 ^ 63 ->
  uleb128 (Z.of_nat (length params)) count ->
  Forall2 (fun p bs => writes (ValueType_OutputBinary DEBUG zone p stream)
                              stream bs) params param_bytes ->
  writes (ValueType_OutputBinary DEBUG zone result stream) stream result_bytes ->
  writes (DefType_OutputBinary DEBUG zone this stream) stream
    ([0x60] ++ count ++ concat param_bytes ++ [1] ++ result_bytes).
Proof.
  intros Hthis Hlen Hcount Hparams Hresult. unfold DefType_OutputBinary.
  eapply writes_lift_bind; [done|]. unfold FuncType_OutputBinary.
  repeat apply writes_bind; try apply writes_WRITE_BYTE; try done.
  - apply writes_WRITE_UNSIGNED_intptr_t; [lia|done].
  - by apply writes_for_each.
Qed.

Lemma writes_InstructionList DEBUG zone this il stream instrs bss :
  get_InstructionList zone this = Ok il ->
  Forall2 (fun p i => get_Instruction zone p = Ok i) (instructions_ il) instrs ->
  Forall2 instruction_bytes instrs bss ->
  writes (InstructionList_OutputBinary DEBUG zone this stream) stream
    (concat bss).
Proof.
  intros Hil Hinstrs Hbss. unfold InstructionList_OutputBinary.
  eapply writes_lift_bind; [done|]. apply writes_for_each.
  revert bss Hbss. induction Hinstrs as [|p i ps instrs Hi _ IH];
    intros bss Hbss.
  - apply Forall2_nil_inv_l in Hbss as ->. constructor.
  - apply Forall2_cons_inv_l in Hbss as (bs & bss' & Hbs & Hbss & ->).
    constructor; [by eapply writes_Instruction|by apply IH].
Qed.

Lemma module_layout_witness :
  exists type_payload type_section function_payload function_section
         bodies code_payload code_section,
    counted [[0x60; 0x00; 0x01; 0x7F]] type_payload /\
    length_prefixed type_payload type_section /\
    counted [[0x00]] function_payload /\
    length_prefixed function_payload function_section /\
    Forall2 length_prefixed [[0x00; 0x41; 0x2A; 0x0B]] bodies /\
    counted bodies code_payload /\
    length_prefixed code_payload code_section /\
    forall stream,
      writes (WasmModuleBuilder_OutputBinary true sample_module stream) stream
        (module_header ++ [1] ++ type_section ++ [3] ++ function_section
           ++ [10] ++ code_section).
Proof.
  apply (module_layout true sample_module [[0x60; 0x00; 0x01; 0x7F]]
           [[0x00]] [[0x00; 0x41; 0x2A; 0x0B]]).
  - repeat constructor. intros stream.
    apply (writes_FuncType true _ 15%nat 0 [] 1%nat stream [0] [] [0x7F]);
      [reflexivity|by vm_compute|by constructor|constructor|].
    by apply (writes_ValueType_NumType true _ 1%nat kI32).
  - repeat constructor.
    exists (MkFunction "main" 0 15%nat [] 17%nat), (FuncType 0 [] 1%nat).
    split; [reflexivity|]. split; [reflexivity|]. split; [by vm_compute|].
    by constructor.
  - repeat constructor. intros stream.
    apply (Function_OutputBinary_all_locals true _ 16%nat
             (MkFunction "main" 0 15%nat [] 17%nat) stream [0] []
             [0x41; 0x2A]);
      [reflexivity|by vm_compute|by constructor|constructor|].
    cbn [bool_decide decide_rel body_].
    apply (writes_InstructionList true _ 17%nat (MkInstructionList [18%nat])
             stream [Constant 42] [[0x41; 0x2A]]);
      [reflexivity|by repeat constructor|].
    repeat constructor. exists [0x2A]. split; [|done].
    by constructor.
  - by vm_compute.
Defined.

(** ** The properties on the sample modules *)

Lemma InstructionList_OutputBinary_cases_witness :
  exists bss,
    Forall2 instruction_bytes
      (binary_prefix [Constant 42; Int32Add; LocalGet 6%nat; Int32Add]) bss /\
    forall σ st, deref σ 1%nat = Some st ->
      InstructionList_OutputBinary true sample_body 1%nat 1%nat σ =
        (if forallb has_binary_form
              [Constant 42; Int32Add; LocalGet 6%nat; Int32Add]
         then Ok tt else Abort UNIMPLEMENTED,
         store σ 1%nat (st ++ concat bss)).
Proof.
  apply (InstructionList_OutputBinary_cases true sample_body 1%nat 1%nat
           (MkInstructionList [2; 3; 4; 5]%nat));
    [reflexivity|repeat constructor].
Defined.

Lemma Function_Serialize_lists_locals_witness :
  Function_Serialize (zone_ sample_builder) 1 16%nat =
    Ok (SExpList
          ([SExpSymbol "func"]
             ++ (if bool_decide ("main" ≠ "")
                 then [SExpSymbol ("$" +:+ "main")] else [])
             ++ [SExpList [SExpSymbol "type";
                           SExpInteger (DefType_index (FuncType 0 [] 1%nat))]]
             ++ [SExpList [SExpSymbol "local"; SExpSymbol "$y"; SExpSymbol "i32"]]
             ++ [SExpSymbol "<missing body>"])).
Proof.
  apply (Function_Serialize_lists_locals (zone_ sample_builder) 1 16%nat
           (MkFunction "main" 0 15%nat [18%nat; 24%nat] nullptr)
           (FuncType 0 [] 1%nat)
           [SExpList [SExpSymbol "local"; SExpSymbol "$y"; SExpSymbol "i32"]]
           (SExpSymbol "<missing body>"));
    [reflexivity|reflexivity| | |reflexivity].
  - repeat constructor; eexists; reflexivity.
  - repeat constructor.
Defined.

Lemma zone_locals_indexed_nil : zone_locals_indexed [].
Proof. intros [|i] f Hf; discriminate Hf. Qed.

Lemma GetLocalByIndex_after_run_witness :
  if decide (0 <= 1 < Z.of_nat (length [18%nat; 24%nat]))
  then exists p l,
         Function_GetLocalByIndex false (zone_ sample_builder) 16%nat 1 = Ok p /\
         [18%nat; 24%nat] !! Z.to_nat 1 = Some p /\
         get_Local (zone_ sample_builder) p = Ok l /\
         Local_index_ l = 1 /\ Local_function_ l = 16%nat
  else Function_GetLocalByIndex true (zone_ sample_builder) 16%nat 1 =
         Abort (ASSERT_FAILED "0 <= id && id < locals_.length()").
Proof.
  apply (GetLocalByIndex_after_run true false [] sample_ops sample_builder
           16%nat (MkFunction "main" 0 15%nat [18%nat; 24%nat] nullptr) 1);
    [exact zone_locals_indexed_nil|reflexivity|reflexivity].
Defined.

Lemma GetLocalByName_after_run_witness :
  match Function_GetLocalByName (zone_ sample_builder) 16%nat "y" with
  | Ok p => first_named (zone_ sample_builder) [18%nat; 24%nat] "y" p
  | Abort failure =>
      failure = no_matching_local /\
      none_named (zone_ sample_builder) [18%nat; 24%nat] "y"
  end.
Proof.
  apply (GetLocalByName_after_run true [] sample_ops sample_builder 16%nat
           (MkFunction "main" 0 15%nat [18%nat; 24%nat] nullptr) "y");
    [exact zone_locals_indexed_nil|reflexivity|reflexivity].
Defined.

Lemma AddLocal_then_lookup_witness :
  Function_GetLocalByIndex true sample_redeclared.2 16%nat
    (Z.of_nat (length [18%nat; 24%nat])) = Ok sample_redeclared.1 /\
  forall name',
    Function_GetLocalByName sample_redeclared.2 16%nat name' =
      match Function_GetLocalByName (zone_ sample_builder) 16%nat name' with
      | Ok earlier => Ok earlier
      | Abort _ =>
          if bool_decide ("x" = name') then Ok sample_redeclared.1
          else Abort no_matching_local
      end.
Proof.
  apply (AddLocal_then_lookup true (zone_ sample_builder) sample_redeclared.2
           16%nat sample_redeclared.1 1%nat kLocal "x"
           (MkFunction "main" 0 15%nat [18%nat; 24%nat] nullptr));
    [reflexivity| |reflexivity].
  repeat constructor; eexists; reflexivity.
Defined.

Lemma types_keep_their_renderings_witness :
  ValueType_Serialize (zone_ sample_builder) 13%nat = Ok (SExpSymbol "eqref") /\
  forall stream σ,
    ValueType_OutputBinary true (zone_ sample_builder) 13%nat stream σ =
    ValueType_OutputBinary true (zone_ (WasmModuleBuilder_new [])) 13%nat
      stream σ.
Proof.
  assert (run_ops true sample_ops (WasmModuleBuilder_new []) = Ok sample_builder)
    as Hrun by reflexivity.
  apply (proj1 (types_keep_their_renderings true true sample_ops
                  (WasmModuleBuilder_new []) sample_builder 13%nat
                  (SExpSymbol "eqref") Hrun)).
  reflexivity.
Defined.

Lemma predefined_types_after_run_witness :
  Forall (fun '(p, text, byte) =>
            ValueType_Serialize (zone_ sample_builder) p = Ok (SExpSymbol text) /\
            forall stream,
              writes (ValueType_OutputBinary true (zone_ sample_builder) p stream)
                     stream [byte])
         (predefined_value_types sample_builder) /\
  ValueType_Serialize (zone_ sample_builder) (anyref_ sample_builder)
    = Ok (SExpSymbol "anyref") /\
  forall stream σ st, deref σ stream = Some st ->
    ValueType_OutputBinary true (zone_ sample_builder) (anyref_ sample_builder)
      stream σ = (Abort (FATAL "any/anyref not implemented by V8"), σ).
Proof.
  apply (predefined_types_after_run true true [] sample_ops sample_builder).
  reflexivity.
Defined.

(** ** The text form of the module *)

Lemma for_sexp_map {A} (l : list A) (f : A -> outcome SExpression)
    (wrap : SExpression -> SExpression) texts sexp :
  Forall2 (fun x s => f x = Ok s) l texts ->
  for_sexp l (fun x sexp => s ← f x; Ok (Add sexp (wrap s))) sexp =
    Ok (sexp ++ map wrap texts).
Proof.
  intros H. revert sexp. induction H as [|x s l texts Hx _ IH]; intros sexp;
    cbn [for_sexp map].
  - by rewrite app_nil_r.
  - rewrite Hx. cbv beta iota delta [mbind outcome_bind].
    rewrite IH. unfold Add. by rewrite <- app_assoc.
Qed.

(** X19.  The text form of the module is the list that starts with the
    symbol [module], goes on with every type of the builder wrapped in a
    list [(type ...)], in the order of the types, and ends with the
    functions in their order. *)
Theorem module_text_layout (fuel : nat) (B : WasmModuleBuilder)
    (types functions : list SExpression) :
  Forall2 (fun t s => DefType_Serialize (zone_ B) t = Ok s) (types_ B) types ->
  Forall2 (fun f s => Function_Serialize (zone_ B) fuel f = Ok s)
    (functions_ B) functions ->
  WasmModuleBuilder_Serialize fuel B =
    Ok (SExpList
          ([SExpSymbol "module"]
             ++ map (fun s => SExpList [SExpSymbol "type"; s]) types
             ++ functions)).
Proof.
  intros Htypes Hfunctions. unfold WasmModuleBuilder_Serialize.
  rewrite (for_sexp_map (types_ B) (DefType_Serialize (zone_ B))
             (fun s => SExpList [SExpSymbol "type"; s]) types) by done.
  cbv beta iota delta [mbind outcome_bind].
  rewrite (for_sexp_map (functions_ B) (Function_Serialize (zone_ B) fuel)
             (fun s => s) functions) by done.
  cbv beta iota delta [mbind outcome_bind].
  by rewrite map_id, <- app_assoc.
Qed.

Lemma module_text_layout_witness :
  WasmModuleBuilder_Serialize 2 sample_module =
    Ok (SExpList
          ([SExpSymbol "module"]
             ++ map (fun s => SExpList [SExpSymbol "type"; s])
                  [SExpList [SExpSymbol "func";
                             SExpList [SExpSymbol "result"; SExpSymbol "i32"]]]
             ++ [SExpList [SExpSymbol "func"; SExpSymbol "$main";
                           SExpList [SExpSymbol "type"; SExpInteger 0];
                           SExpList [SExpSymbol "i32.const 42"]]])).
Proof.
  apply (module_text_layout 2 sample_module);
    repeat constructor.
Defined.
